(** * Verification of the video-generation service (api.py)

    A shallow embedding of the timing parser, the subtitle compiler, the
    timestamp formatter, the start-time reconciliation, the ffmpeg command
    compiler, the job status store and the request handlers of [api.py],
    followed by the properties stated about them.

    Conventions.
    - A Python [float] is an IEEE-754 binary64 value, modelled by the
      standard library's [spec_float] with precision 53 and [emax = 1024];
      every arithmetic operation is the correctly rounded one.
    - A Python exception is a value [PyExn cls msg]; code that may raise
      returns a [result].
    - Python builtins whose full behaviour lies outside the repository
      ([float(str)], [repr] of a float, [str.upper], [pathlib] suffixes, the
      clock, the external [ffprobe]/[ffmpeg] processes, [random.choice])
      are parameters of the sections that use them. *)

From Stdlib Require Import ZArith List String Ascii Bool Lia DecimalString.
From Stdlib Require Import Floats.SpecFloat.
From stdpp Require Import gmap strings list.
Import ListNotations.

Open Scope Z_scope.

(** ** Exceptions and fallible computations *)

Inductive exn : Type :=
| PyExn (cls : string) (msg : string).

(** [str(e)] for an exception built from a single message argument. *)
Definition str_exn (e : exn) : string :=
  match e with PyExn _ msg => msg end.

Definition ValueError (msg : string) : exn := PyExn "ValueError" msg.
Definition OverflowError (msg : string) : exn := PyExn "OverflowError" msg.
Definition IndexError (msg : string) : exn := PyExn "IndexError" msg.
Definition ZeroDivisionError (msg : string) : exn := PyExn "ZeroDivisionError" msg.
Definition UnboundLocalError (msg : string) : exn := PyExn "UnboundLocalError" msg.

Inductive result (A : Type) : Type :=
| Ok (a : A)
| Raise (e : exn).
Arguments Ok {A} a.
Arguments Raise {A} e.

Definition bind {A B : Type} (r : result A) (k : A -> result B) : result B :=
  match r with
  | Ok a => k a
  | Raise e => Raise e
  end.

Notation "'let*' x ':=' r 'in' k" := (bind r (fun x => k))
  (at level 10, x name, r at level 100, k at level 200).

Definition is_ok {A : Type} (r : result A) : bool :=
  match r with Ok _ => true | Raise _ => false end.

(** [mapM f l]: evaluate [f] on the elements from left to right and stop at
    the first exception, as a Python loop or comprehension does. *)
Fixpoint mapM {A B : Type} (f : A -> result B) (l : list A) : result (list B) :=
  match l with
  | [] => Ok []
  | a :: l' => let* b := f a in let* bs := mapM f l' in Ok (b :: bs)
  end.

(** ** Python floats (IEEE-754 binary64) *)

Module PyFloat.

Definition prec : Z := 53.
Definition emax : Z := 1024.

Abbreviation float := spec_float.

(** Conversion of a Python [int] to [float] (correctly rounded). *)
Definition of_Z (n : Z) : float := binary_normalize prec emax n 0 false.

Definition zero : float := S754_zero false.
Definition one : float := of_Z 1.
Definition half : float := S754_finite false 4503599627370496 (-53).

Definition add : float -> float -> float := SFadd prec emax.
Definition sub : float -> float -> float := SFsub prec emax.
Definition mul : float -> float -> float := SFmul prec emax.
Definition div : float -> float -> float := SFdiv prec emax.

Definition ltb : float -> float -> bool := SFltb.
Definition leb : float -> float -> bool := SFleb.
Definition eqb : float -> float -> bool := SFeqb.

(** The well-formed values: a finite float has a canonical mantissa. *)
Definition valid (x : float) : bool := valid_binary prec emax x.

Definition is_finite (x : float) : bool :=
  match x with
  | S754_zero _ | S754_finite _ _ _ => true
  | _ => false
  end.

Definition sign_bit (x : float) : bool :=
  match x with
  | S754_zero s | S754_infinity s | S754_finite s _ _ => s
  | S754_nan => false
  end.

(** C truth value of a double: [x != 0.0] (a NaN is true). *)
Definition truthy (x : float) : bool := negb (eqb x zero).

(** C [fmod]: the result has the sign of [x] and is exact. *)
Definition fmod (x y : float) : float :=
  match x, y with
  | S754_nan, _ | _, S754_nan => S754_nan
  | S754_infinity _, _ => S754_nan
  | _, S754_zero _ => S754_nan
  | _, S754_infinity _ => x
  | S754_zero _, _ => x
  | S754_finite sx mx ex, S754_finite _ my ey =>
      let e := Z.min ex ey in
      let X := Zpos mx * 2 ^ (ex - e) in
      let Y := Zpos my * 2 ^ (ey - e) in
      binary_normalize prec emax (cond_Zopp sx (X mod Y)) e sx
  end.

(** C [floor]. *)
Definition floor (x : float) : float :=
  match x with
  | S754_finite s m e =>
      if 0 <=? e then x
      else binary_normalize prec emax (cond_Zopp s (Zpos m) / 2 ^ (- e)) 0 s
  | _ => x
  end.

(** [x % y] on floats (CPython [float_rem]). *)
Definition py_mod (vx wx : float) : result float :=
  if eqb wx zero then Raise (ZeroDivisionError "float modulo")
  else
    let md := fmod vx wx in
    if truthy md then
      if negb (Bool.eqb (ltb wx zero) (ltb md zero)) then Ok (add md wx)
      else Ok md
    else Ok (S754_zero (sign_bit wx)).

(** [x // y] on floats (CPython [float_floor_div]). *)
Definition py_floordiv (vx wx : float) : result float :=
  if eqb wx zero then Raise (ZeroDivisionError "float floor division by zero")
  else
    let md := fmod vx wx in
    let dv := div (sub vx md) wx in
    let dv :=
      if truthy md && negb (Bool.eqb (ltb wx zero) (ltb md zero))
      then sub dv one else dv in
    if truthy dv then
      let fl := floor dv in
      if ltb half (sub dv fl) then Ok (add fl one) else Ok fl
    else Ok (S754_zero (sign_bit (div vx wx))).

(** [int(x)]: truncation toward zero; infinities and NaN raise. *)
Definition py_int (x : float) : result Z :=
  match x with
  | S754_nan => Raise (ValueError "cannot convert float NaN to integer")
  | S754_infinity _ =>
      Raise (OverflowError "cannot convert float infinity to integer")
  | S754_zero _ => Ok 0
  | S754_finite s m e =>
      if 0 <=? e then Ok (cond_Zopp s (Zpos m * 2 ^ e))
      else Ok (Z.quot (cond_Zopp s (Zpos m)) (2 ^ (- e)))
  end.

End PyFloat.

Import PyFloat.


(** ** Strings *)

Definition nl : string := String "010"%char EmptyString.

(** [s.split(sep)] for a one-character separator. *)
Fixpoint split_on (sep : ascii) (s : string) : list string :=
  match s with
  | EmptyString => [EmptyString]
  | String c s' =>
      if Ascii.eqb c sep then EmptyString :: split_on sep s'
      else match split_on sep s' with
           | [] => [String c EmptyString]
           | w :: ws => String c w :: ws
           end
  end.

(** [sep.join(l)]. *)
Definition join (sep : string) (l : list string) : string := String.concat sep l.

(** [str(n)] for a Python [int]. *)
Definition str_Z (n : Z) : string := NilZero.string_of_int (Z.to_int n).

(** The format specification [:02d]: zero padding to width 2, the sign
    counting in the width. *)
Definition fmt_02d (n : Z) : string :=
  if (0 <=? n) && (n <? 10) then "0" +:+ str_Z n else str_Z n.

(** The ASCII part of [str.upper]. *)
Definition ascii_upper_char (c : ascii) : ascii :=
  let n := nat_of_ascii c in
  if (97 <=? n)%nat && (n <=? 122)%nat then ascii_of_nat (n - 32) else c.

Fixpoint ascii_upper (s : string) : string :=
  match s with
  | EmptyString => EmptyString
  | String c s' => String (ascii_upper_char c) (ascii_upper s')
  end.

(** ** Decimal literals

    The part of [float(str)] used by the examples: an optional sign, digits
    and an optional fraction, at least one digit in all.  The quotient of
    the integer mantissa by the power of ten is rounded once. *)

Definition digit_of (c : ascii) : option Z :=
  let n := Z.of_nat (nat_of_ascii c) in
  if (48 <=? n) && (n <=? 57) then Some (n - 48) else None.

Fixpoint digits_value (acc : Z) (s : string) : option Z :=
  match s with
  | EmptyString => Some acc
  | String c s' =>
      match digit_of c with
      | Some d => digits_value (10 * acc + d) s'
      | None => None
      end
  end.

Definition unsigned_decimal (s : string) : option (Z * Z) :=
  match split_on "."%char s with
  | [ip] =>
      if (String.length ip =? 0)%nat then None
      else match digits_value 0 ip with
           | Some m => Some (m, 0)
           | None => None
           end
  | [ip; fp] =>
      if (String.length ip + String.length fp =? 0)%nat then None
      else match digits_value 0 (ip +:+ fp) with
           | Some m => Some (m, Z.of_nat (String.length fp))
           | None => None
           end
  | _ => None
  end.

Definition decimal_to_float (sign : bool) (m k : Z) : float :=
  match m with
  | Zpos p => div (S754_finite sign p 0) (S754_finite false (Z.to_pos (10 ^ k)) 0)
  | _ => S754_zero sign
  end.

Definition float_of_decimal (s : string) : result float :=
  let '(sign, body) :=
    match s with
    | String "-"%char t => (true, t)
    | String "+"%char t => (false, t)
    | _ => (false, s)
    end in
  match unsigned_decimal body with
  | Some (m, k) => Ok (decimal_to_float sign m k)
  | None => Raise (ValueError ("could not convert string to float: '" +:+ s +:+ "'"))
  end.

(** ** Timing parser ([parse_subtitles]) *)

Record cue : Type := Cue { word : string; start : float; end_ : float }.

Definition set_end (c : cue) (t : float) : cue :=
  {| word := word c; start := start c; end_ := t |}.

Section TimingParser.

(** The builtin [float(str)]. *)
Variable py_float : string -> result float.

(** The [while] loop over the token pairs: a trailing token without a
    partner is not read. *)
Fixpoint parse_pairs (parts : list string) : result (list cue) :=
  match parts with
  | w :: t :: rest =>
      let* x := py_float t in
      let* cs := parse_pairs rest in
      Ok ({| word := w; start := x; end_ := zero |} :: cs)
  | _ => Ok []
  end.

(** The first [for] loop: every cue but the last takes the start of its
    successor as its end. *)
Fixpoint fill_ends (cs : list cue) : list cue :=
  match cs with
  | c :: ((c' :: _) as rest) => set_end c (start c') :: fill_ends rest
  | _ => cs
  end.

(** [subtitles[-1]['end'] = subtitles[-1]['start'] + 1.0]. *)
Fixpoint pad_last (cs : list cue) : list cue :=
  match cs with
  | [] => []
  | [c] => [set_end c (add (start c) one)]
  | c :: rest => c :: pad_last rest
  end.

Definition parse_subtitles (subtitle_string : string) : result (list cue) :=
  let parts := split_on "/"%char subtitle_string in
  let* subtitles := parse_pairs parts in
  Ok (pad_last (fill_ends subtitles)).

End TimingParser.

(** ** Timestamp formatter ([format_time_ass]) *)

Definition format_time_ass (seconds : float) : result string :=
  let* h := py_floordiv seconds (of_Z 3600) in
  let* hours := py_int h in
  let* m0 := py_mod seconds (of_Z 3600) in
  let* m1 := py_floordiv m0 (of_Z 60) in
  let* minutes := py_int m1 in
  let* s0 := py_mod seconds (of_Z 60) in
  let* secs := py_int s0 in
  let* c0 := py_mod seconds (of_Z 1) in
  let* centisecs := py_int (mul c0 (of_Z 100)) in
  Ok (str_Z hours +:+ ":" +:+ fmt_02d minutes +:+ ":" +:+ fmt_02d secs
      +:+ "." +:+ fmt_02d centisecs).

(** ** Subtitle compiler ([create_ass_file])

    The document is the list of the strings passed to [f.write], in
    order. *)

Definition style_line (caption_number : Z) (color_stt : string) : option string :=
  match caption_number with
  | 1 => Some ("Style: Default,Prohibition Rough,90," +:+ color_stt +:+ ",&H000000FF,&H00000000,&H00000000,0,0,0,0,100,100,0,0,1,9,6,5,10,10,10,1")
  | 2 => Some ("Style: Default,Montserrat Black,90," +:+ color_stt +:+ ",&H000000FF,&H00000000,&H00000000,0,0,0,0,100,100,0,0,1,11,6,5,10,10,10,1")
  | 3 => Some ("Style: Default,Komika Axis,110,&H00FFFFFF," +:+ color_stt +:+ ",&H00000000,&H00000000,0,0,0,0,100,100,0,0,1,7,6,5,10,10,10,1")
  | 4 => Some ("Style: Default,Montserrat ExtraBold,110," +:+ color_stt +:+ ",&H000000FF,&H00000000,&H00000000,0,0,0,0,100,100,0,0,1,8,6,5,10,10,10,1")
  | 5 => Some ("Style: Default,Montserrat ExtraBold,90," +:+ color_stt +:+ ",&H000000FF,&H00000000,&H00000000,0,0,0,0,100,100,0,0,1,8,4,5,10,10,10,1")
  | 6 => Some ("Style: Default,Montserrat ExtraBold,110," +:+ color_stt +:+ ",&H000000FF,&H00000000,&H00000000,0,0,0,0,100,100,0,0,1,0,7,5,10,10,10,1")
  | 7 => Some ("Style: Default,Montserrat ExtraBold,90," +:+ color_stt +:+ ",&H000000FF,&H00000000,&H00000000,0,0,0,0,100,100,0,0,1,8,4,5,10,10,10,1")
  | _ => None
  end.

Definition style_box : string :=
  "Style: Box,Montserrat ExtraBold,110,&H00FFFFFF,&H000000FF,&H00000000,&H00000000,0,0,0,0,100,100,0,0,3,0,0,5,10,10,10,1".

Definition ass_header : list string :=
  [ "[Script Info]" +:+ nl;
    "Title: Auto-generated subtitles" +:+ nl;
    "ScriptType: v4.00+" +:+ nl;
    "WrapStyle: 0" +:+ nl;
    "PlayResX: 1080" +:+ nl;
    "PlayResY: 1920" +:+ nl;
    "ScaledBorderAndShadow: yes" +:+ nl +:+ nl;
    "[V4+ Styles]" +:+ nl;
    "Format: Name, Fontname, Fontsize, PrimaryColour, SecondaryColour, OutlineColour, BackColour, Bold, Italic, Underline, StrikeOut, ScaleX, ScaleY, Spacing, Angle, BorderStyle, Outline, Shadow, Alignment, MarginL, MarginR, MarginV, Encoding" +:+ nl ].

Definition events_header : list string :=
  [ "[Events]" +:+ nl;
    "Format: Layer, Start, End, Style, Name, MarginL, MarginR, MarginV, Effect, Text" +:+ nl ].

(** The three forms of [Dialogue] line the compiler writes. *)
Definition dialogue_box (word_start word_end text_box : string) : string :=
  "Dialogue: 0," +:+ word_start +:+ "," +:+ word_end
  +:+ ",Box,,0,0,0,,{\1a&HFF&}" +:+ text_box +:+ nl.

Definition dialogue_text (word_start word_end text : string) : string :=
  "Dialogue: 1," +:+ word_start +:+ "," +:+ word_end
  +:+ ",Default,,0,0,0,," +:+ text +:+ nl.

Definition dialogue_default (start_time end_time text : string) : string :=
  "Dialogue: 0," +:+ start_time +:+ "," +:+ end_time
  +:+ ",Default,,0,0,0,," +:+ text +:+ nl.

(** [enumerate(l)]. *)
Definition enumerate {A : Type} (l : list A) : list (nat * A) :=
  combine (seq 0 (length l)) l.

(** The slices [subtitles[i:i + 3]] for [i = 0, 3, 6, ...]. *)
Fixpoint windows (subtitles : list cue) : list (list cue) :=
  match subtitles with
  | [] => []
  | a :: b :: c :: rest => [a; b; c] :: windows rest
  | short => [short]
  end.

Definition is_space (w : string) : bool := String.eqb w " ".

Section SubtitleCompiler.

(** The builtin [str.upper]. *)
Variable str_upper : string -> string.

Variables color_stt color_encours : string.
Variable caption_number : Z.

Definition grouped_style : bool :=
  (caption_number =? 3) || (caption_number =? 4)
  || (caption_number =? 5) || (caption_number =? 6).

(** The word of the window as it is shown, [w] in the source. *)
Definition shown_word (s : cue) : string :=
  if (caption_number =? 3) || (caption_number =? 4) || (caption_number =? 5)
  then str_upper (word s) else word s.

(** One pass of the loop over [enumerate(group)] for the text layer. *)
Definition text_part (j : nat) (ks : nat * cue) : list string :=
  let '(k, s) := ks in
  let w := shown_word s in
  if (k =? j)%nat then
    if (caption_number =? 3) || (caption_number =? 4)
    then ["{\blur10\c" +:+ color_encours +:+ "&}" +:+ w +:+ "{\r}"]
    else if caption_number =? 5
    then ["{\blur10\t(0,50,\fs110)\c" +:+ color_encours +:+ "&}" +:+ w +:+ "{\r}"]
    else if caption_number =? 6 then [w] else []
  else
    if (caption_number =? 3) || (caption_number =? 4) || (caption_number =? 5)
    then ["{\blur10}" +:+ w]
    else if caption_number =? 6 then [w] else [].

(** The same pass for the box layer of style 6. *)
Definition box_part (j : nat) (ks : nat * cue) : list string :=
  let '(k, s) := ks in
  let w := shown_word s in
  if (k =? j)%nat then
    if (caption_number =? 3) || (caption_number =? 4) then []
    else if caption_number =? 5 then []
    else if caption_number =? 6
    then ["{\bord7\3c" +:+ color_encours +:+ "&\3a&H00&}" +:+ w +:+ "{\r}"]
    else []
  else
    if (caption_number =? 3) || (caption_number =? 4) || (caption_number =? 5)
    then []
    else if caption_number =? 6 then [w] else [].

(** The body of [for j, sub in enumerate(group)]: the lines written for
    the cue [sub] of a window. *)
Definition window_cue_lines (group : list cue) (js : nat * cue)
  : result (list string) :=
  let '(j, sub) := js in
  match group with
  | [] => Ok []
  | g0 :: _ =>
      let* start_time := format_time_ass (start g0) in
      let* end_time := format_time_ass (end_ (List.last group g0)) in
      let text := join " " (concat (map (text_part j) (enumerate group))) in
      let text_box := join " " (concat (map (box_part j) (enumerate group))) in
      let* word_start := format_time_ass (start sub) in
      let* word_end := format_time_ass (end_ sub) in
      if caption_number =? 6
      then Ok [dialogue_box word_start word_end text_box;
               dialogue_text word_start word_end text]
      else Ok [dialogue_default word_start word_end text]
  end.

(** One pass of the [while] loop: the window without its bare-space
    cues. *)
Definition window_lines (window : list cue) : result (list string) :=
  let group := List.filter (fun s => negb (is_space (word s))) window in
  let* ls := mapM (window_cue_lines group) (enumerate group) in
  Ok (concat ls).

(** The body of [for sub in subtitles] for the styles shown one cue at a
    time. *)
Definition single_lines (sub : cue) : result (list string) :=
  let word :=
    if caption_number =? 1 then Some (str_upper (word sub))
    else if caption_number =? 2 then Some ("{\t(0,100,\fs110)}" +:+ word sub)
    else if caption_number =? 7
    then Some ("{\blur10\t(0,100,\fs110)}" +:+ str_upper (word sub))
    else None in
  match word with
  | None => Raise (UnboundLocalError "cannot access local variable 'word' where it is not associated with a value")
  | Some word =>
      if is_space word then Ok []
      else
        let* start_time := format_time_ass (start sub) in
        let* end_time := format_time_ass (end_ sub) in
        Ok [dialogue_default start_time end_time word]
  end.

(** The [Dialogue] lines of the document. *)
Definition dialogue_lines (subtitles : list cue) : result (list string) :=
  if grouped_style then
    let* ls := mapM window_lines (windows subtitles) in Ok (concat ls)
  else
    let* ls := mapM single_lines subtitles in Ok (concat ls).

Definition create_ass_file (subtitles : list cue) : result (list string) :=
  match style_line caption_number color_stt with
  | None => Raise (UnboundLocalError "cannot access local variable 'style' where it is not associated with a value")
  | Some style =>
      let* events := dialogue_lines subtitles in
      Ok (ass_header
          ++ [style +:+ nl]
          ++ (if caption_number =? 6 then [style_box +:+ nl] else [])
          ++ [nl]
          ++ events_header
          ++ events)
  end.

End SubtitleCompiler.

(** ** Start-time reconciliation (in [generate_video]) *)

Definition three : float := of_Z 3.

(** The [while] loop: [k] values are still missing; each pass adds [3.0]
    to [last_time] and appends it. *)
Fixpoint synthesize (k : nat) (last_time : float) : list float :=
  match k with
  | O => []
  | S k' => let last_time := add last_time three in
            last_time :: synthesize k' last_time
  end.

Definition reconcile (start_times : list float) (n_images : nat) : list float :=
  if (length start_times =? n_images)%nat then start_times
  else if (n_images <? length start_times)%nat then firstn n_images start_times
  else
    let last_time := List.last start_times (of_Z 0) in
    start_times ++ synthesize (n_images - length start_times) last_time.

(** ** Display durations (in [build_video]) *)

Definition index {A : Type} (l : list A) (i : nat) : result A :=
  match l !! i with
  | Some a => Ok a
  | None => Raise (IndexError "list index out of range")
  end.

Definition image_duration (n_images : nat) (image_start_times : list float)
    (audio_duration : float) (i : nat) : result float :=
  if (S i <? n_images)%nat then
    let* next := index image_start_times (S i) in
    let* this := index image_start_times i in
    Ok (sub next this)
  else
    let* this := index image_start_times i in
    Ok (sub audio_duration this).

Definition image_durations (n_images : nat) (image_start_times : list float)
    (audio_duration : float) : result (list float) :=
  mapM (image_duration n_images image_start_times audio_duration) (seq 0 n_images).

(** ** Animation selector ([get_random_animation]) *)

Definition str_nat (n : nat) : string := str_Z (Z.of_nat n).

(** The three presets among which [random.choice] draws. *)
Inductive preset : Type := ZoomIn | PanHorizontal | PanVertical.

Section FilterGraph.

(** [str(x)] for a float, also used by the f-strings. *)
Variable str_float : float -> string.

Definition chromatic_effect (i : nat) (is_chromatic : string) : string :=
  let i := str_nat i in
  if String.eqb is_chromatic "oui" then
    "scale=iw-mod(iw\,5):ih,"
    +:+ "split=5[v" +:+ i +:+ "_0][v" +:+ i +:+ "_1][v" +:+ i +:+ "_2][v" +:+ i +:+ "_3][v" +:+ i +:+ "_4];"
    +:+ "[v" +:+ i +:+ "_0]crop=iw/5:ih:0*iw/5:0,rgbashift=rh=7:bh=-7:enable='lt(mod(t,0.2),0.1)'[c" +:+ i +:+ "_0];"
    +:+ "[v" +:+ i +:+ "_1]crop=iw/5:ih:1*iw/5:0,rgbashift=rh=7:bh=-7:enable='lt(mod(t+0.04,0.2),0.1)'[c" +:+ i +:+ "_1];"
    +:+ "[v" +:+ i +:+ "_2]crop=iw/5:ih:2*iw/5:0,rgbashift=rh=7:bh=-7:enable='lt(mod(t+0.08,0.2),0.1)'[c" +:+ i +:+ "_2];"
    +:+ "[v" +:+ i +:+ "_3]crop=iw/5:ih:3*iw/5:0,rgbashift=rh=7:bh=-7:enable='lt(mod(t+0.12,0.2),0.1)'[c" +:+ i +:+ "_3];"
    +:+ "[v" +:+ i +:+ "_4]crop=iw/5:ih:4*iw/5:0,rgbashift=rh=7:bh=-7:enable='lt(mod(t+0.16,0.2),0.1)'[c" +:+ i +:+ "_4];"
    +:+ "[c" +:+ i +:+ "_0][c" +:+ i +:+ "_1][c" +:+ i +:+ "_2][c" +:+ i +:+ "_3][c" +:+ i +:+ "_4]hstack=inputs=5[v" +:+ i +:+ "];"
  else "null[v" +:+ i +:+ "];".

(** [choice] is the element [random.choice] draws at this call. *)
Definition get_random_animation (choice : preset) (duration width height : Z)
    (i : nat) (duration_per_image : float) (is_chromatic is_zoom_pan : string)
  : string :=
  let chromatic_effect := chromatic_effect i is_chromatic in
  let dpi := str_float duration_per_image in
  if String.eqb is_zoom_pan "non" then
    "trim=duration=" +:+ dpi +:+ "," +:+ chromatic_effect
  else
    match choice with
    | ZoomIn =>
        "scale=iw*3:ih*3,"
        +:+ "zoompan=z='zoom+0.002':"
        +:+ "x='iw/2-(iw/zoom/2)':"
        +:+ "y='ih/2-(ih/zoom/2)':"
        +:+ "d=" +:+ str_Z duration +:+ ":s=" +:+ str_Z width +:+ "x" +:+ str_Z height +:+ ","
        +:+ "trim=duration=" +:+ dpi +:+ ","
        +:+ chromatic_effect
    | PanHorizontal =>
        "scale=iw*3:ih*3,"
        +:+ "crop=in_w*0.90:in_h*0.90:(in_w*0.10)/" +:+ dpi +:+ "*t:108,"
        +:+ "scale=" +:+ str_Z width +:+ ":" +:+ str_Z height +:+ ","
        +:+ "trim=duration=" +:+ dpi +:+ ","
        +:+ chromatic_effect
    | PanVertical =>
        "scale=iw*3:ih*3,"
        +:+ "crop=in_w*0.90:in_h*0.90:"
        +:+ "((in_w - in_w*0.90) / 2):"
        +:+ "in_h*0.10 - (in_h*0.10)/" +:+ dpi +:+ "*t,"
        +:+ "scale=" +:+ str_Z width +:+ ":" +:+ str_Z height +:+ ","
        +:+ "trim=duration=" +:+ dpi +:+ ","
        +:+ chromatic_effect
    end.

(** ** Filter graph compiler (in [build_video]) *)

Definition WIDTH : Z := 1080.
Definition HEIGHT : Z := 1920.
Definition FPS : Z := 60.
Definition MUSIC_VOLUME : float := div (of_Z 10) (of_Z 100).

(** Truth value of an [Optional[str]]. *)
Definition supplied (background_music_path : option string) : option string :=
  match background_music_path with
  | Some p => if String.eqb p "" then None else Some p
  | None => None
  end.

(** The [-loop 1 -t d -i img] arguments of image [i]. *)
Definition image_input (duration : float) (img : string) : list string :=
  ["-loop"; "1"; "-t"; str_float duration; "-i"; img].

Definition scale_stage (i : nat) : string :=
  "[" +:+ str_nat i +:+ ":v]scale=" +:+ str_Z WIDTH +:+ ":" +:+ str_Z HEIGHT
  +:+ ":force_original_aspect_ratio=decrease,"
  +:+ "pad=" +:+ str_Z WIDTH +:+ ":" +:+ str_Z HEIGHT
  +:+ ":(ow-iw)/2:(oh-ih)/2,format=yuv420p,".

(** The text appended to [concat_filter] for image [i]. *)
Definition image_stage (choices : nat -> preset)
    (is_chromatic_effect is_zoom_pan : string) (id : nat * float)
  : result string :=
  let '(i, duration) := id in
  let* frames := py_int (mul duration (of_Z FPS)) in
  Ok (scale_stage i
      +:+ get_random_animation (choices i) frames WIDTH HEIGHT i duration
            is_chromatic_effect is_zoom_pan).

Definition image_label (i : nat) : string := "[v" +:+ str_nat i +:+ "]".

Definition concat_stage (n : nat) : string :=
  String.concat "" (map image_label (seq 0 n))
  +:+ "concat=n=" +:+ str_nat n +:+ ":v=1:a=0[vid];".

Definition ass_stage (subtitle_file_ffmpeg fonts_dir_ffmpeg : string) : string :=
  "[vid]ass='" +:+ subtitle_file_ffmpeg +:+ "':fontsdir='" +:+ fonts_dir_ffmpeg
  +:+ "'[outv];".

Definition audio_stage (n : nat) (background_music_path : option string) : string :=
  match supplied background_music_path with
  | Some _ =>
      "[" +:+ str_nat n +:+ ":a]volume=1.0[voice];"
      +:+ "[" +:+ str_nat (n + 1) +:+ ":a]volume=" +:+ str_float MUSIC_VOLUME +:+ "[music];"
      +:+ "[voice][music]amix=inputs=2:duration=shortest[audio_out]"
  | None => "[" +:+ str_nat n +:+ ":a]volume=1.0[audio_out]"
  end.

(** The argument list [ffmpeg_cmd] from the display durations on. *)
Definition compile_command (choices : nat -> preset) (images : list string)
    (audio : string) (image_durations : list float)
    (is_zoom_pan : string) (background_music_path : option string)
    (is_chromatic_effect : string)
    (subtitle_file_ffmpeg fonts_dir_ffmpeg output_path : string)
  : result (list string) :=
  let n := length images in
  let* inputs :=
    mapM (fun ii : nat * string =>
            let* d := index image_durations (fst ii) in
            Ok (image_input d (snd ii)))
         (enumerate images) in
  let* stages :=
    mapM (fun i : nat =>
            let* d := index image_durations i in
            image_stage choices is_chromatic_effect is_zoom_pan (i, d))
         (seq 0 n) in
  let concat_filter :=
    String.concat "" stages
    +:+ concat_stage n
    +:+ ass_stage subtitle_file_ffmpeg fonts_dir_ffmpeg
    +:+ audio_stage n background_music_path in
  Ok (["ffmpeg"; "-y"]
      ++ concat inputs
      ++ ["-i"; audio]
      ++ match supplied background_music_path with
         | Some p => ["-i"; p]
         | None => []
         end
      ++ ["-filter_complex"; concat_filter;
          "-map"; "[outv]";
          "-map"; "[audio_out]";
          "-c:v"; "libx264";
          "-pix_fmt"; "yuv420p";
          "-r"; str_Z FPS;
          "-shortest";
          output_path]).

End FilterGraph.

(** [s.replace(c, by)] for a one-character pattern. *)
Fixpoint replace_char (c : ascii) (by_ : string) (s : string) : string :=
  match s with
  | EmptyString => EmptyString
  | String a s' =>
      if Ascii.eqb a c then by_ +:+ replace_char c by_ s'
      else String a (replace_char c by_ s')
  end.

Definition ffmpeg_path (p : string) : string :=
  replace_char ":"%char "\:" (replace_char "\"%char "/" p).

(** ** Render invoker ([build_video]) *)

Section BuildVideo.

Variable py_float : string -> result float.
Variable str_float : float -> string.
Variable str_upper : string -> string.
(** [os.path.join] on two components. *)
Variable os_path_join : string -> string -> string.
(** The external collaborators: the duration prober and the renderer. *)
Variable get_audio_duration : string -> result float.
Variable run_ffmpeg : list string -> result unit.

(** The result is the subtitle document written and the command run. *)
Definition build_video (choices : nat -> preset) (images : list string)
    (audio subtitles_string : string) (image_start_times : list float)
    (caption_number : Z) (color_stt color_encours is_zoom_pan : string)
    (background_music_path : option string)
    (is_chromatic_effect output_path work_dir : string)
  : result (list string * list string) :=
  let* subtitles := parse_subtitles py_float subtitles_string in
  let subtitle_file := os_path_join work_dir "subtitles.ass" in
  let* document :=
    create_ass_file str_upper color_stt color_encours caption_number subtitles in
  let subtitle_file_ffmpeg := ffmpeg_path subtitle_file in
  let fonts_dir_ffmpeg := ffmpeg_path work_dir in
  let* audio_duration := get_audio_duration audio in
  let* image_durations :=
    image_durations (length images) image_start_times audio_duration in
  let* ffmpeg_cmd :=
    compile_command str_float choices images audio image_durations is_zoom_pan
      background_music_path is_chromatic_effect
      subtitle_file_ffmpeg fonts_dir_ffmpeg output_path in
  let* _ := run_ffmpeg ffmpeg_cmd in
  Ok (document, ffmpeg_cmd).

End BuildVideo.

(** ** Job status store *)

Inductive JobStatus : Type := PENDING | PROCESSING | COMPLETED | FAILED.

(** The [value] of the enumeration member, as written to the JSON file. *)
Definition JobStatus_value (s : JobStatus) : string :=
  match s with
  | PENDING => "pending"
  | PROCESSING => "processing"
  | COMPLETED => "completed"
  | FAILED => "failed"
  end.

(** The content of [jobs/<job_id>.json]. *)
Record job_data : Type := JobData {
  job_id : string;
  status : JobStatus;
  progress : Z;
  created_at : string;
  updated_at : string;
  error : option string;
  video_path : option string
}.

(** The arguments [generate_video] hands to the background task. *)
Record job_args : Type := JobArgs {
  a_job_id : string;
  a_image_paths : list string;
  a_audio_path : string;
  a_subtitles_string : string;
  a_start_times : list float;
  a_caption_number_int : Z;
  a_color_stt : string;
  a_color_encours : string;
  a_is_zoom_pan : string;
  a_background_music_path : option string;
  a_is_chromatic_effect : string;
  a_work_dir : string
}.

(** Where the background task of a job stands: not started, after the
    first status write, after the fonts are staged, returned. *)
Inductive task_pc : Type := Queued | Started | Staged | Finished.

Record task : Type := Task { t_args : job_args; t_pc : task_pc }.

(** The state shared by the request handlers and the background tasks:
    the status files, the working directories that exist, the background
    tasks and the number of clock readings made so far. *)
Record world : Type := World {
  jobs : gmap string job_data;
  work_dirs : gset string;
  tasks : gmap string task;
  clock : nat
}.

(** The builtins and collaborators of the service. *)
Record platform : Type := Platform {
  py_float : string -> result float;       (* float(str) *)
  py_int_str : string -> result Z;         (* int(str) *)
  str_float : float -> string;             (* str(float) *)
  str_upper : string -> string;            (* str.upper *)
  path_suffix : string -> string;          (* Path(name).suffix *)
  os_sep : string;                         (* the path separator *)
  BASE_DIR : string;                       (* directory of the module *)
  now : nat -> string;                     (* k-th datetime.now().isoformat() *)
  copy_fonts_to_workdir : string -> result unit;
  get_audio_duration : string -> result float;
  run_ffmpeg : list string -> result unit;
  random_choice : string -> nat -> preset  (* draws made for a job *)
}.

Definition TEMP_DIR : string := "temp_files".

Definition BACKGROUND_MUSIC_MAP : list (string * string) :=
  [("1", "tonight.mp3"); ("2", "stranger.mp3"); ("3", "i-was.mp3");
   ("4", "suspense.mp3")].

(** [d.get(k)]. *)
Fixpoint dict_get (d : list (string * string)) (k : string) : option string :=
  match d with
  | [] => None
  | (k', v) :: d' => if String.eqb k' k then Some v else dict_get d' k
  end.

(** White space, as [str.split()] and [str.strip()] see it on a [str]: the
    code points U+0009..U+000D, U+001C..U+0020, U+0085, U+00A0, U+1680,
    U+2000..U+200A, U+2028, U+2029, U+202F, U+205F and U+3000.  A string
    is the sequence of its UTF-8 bytes, so a white-space character takes
    one, two or three of them. *)
Definition ws1 (b : nat) : bool :=
  ((9 <=? b)%nat && (b <=? 13)%nat) || ((28 <=? b)%nat && (b <=? 32)%nat).

(** U+0085 is [C2 85] and U+00A0 is [C2 A0]. *)
Definition ws2 (b b1 : nat) : bool :=
  (b =? 194)%nat && ((b1 =? 133)%nat || (b1 =? 160)%nat).

(** U+1680 is [E1 9A 80]; U+2000..U+200A, U+2028, U+2029 and U+202F are
    [E2 80 80] .. [E2 80 8A], [E2 80 A8], [E2 80 A9] and [E2 80 AF];
    U+205F is [E2 81 9F]; U+3000 is [E3 80 80]. *)
Definition ws3 (b b1 b2 : nat) : bool :=
  ((b =? 225)%nat && (b1 =? 154)%nat && (b2 =? 128)%nat)
  || ((b =? 226)%nat && (b1 =? 128)%nat
      && (((128 <=? b2)%nat && (b2 <=? 138)%nat)
          || (b2 =? 168)%nat || (b2 =? 169)%nat || (b2 =? 175)%nat))
  || ((b =? 226)%nat && (b1 =? 129)%nat && (b2 =? 159)%nat)
  || ((b =? 227)%nat && (b1 =? 128)%nat && (b2 =? 128)%nat).

(** The number of bytes of the white-space character [s] starts with,
    [0] when it starts with none. *)
Definition ws_width (s : string) : nat :=
  match s with
  | EmptyString => 0
  | String c s1 =>
      if ws1 (nat_of_ascii c) then 1
      else
        match s1 with
        | EmptyString => 0
        | String c1 s2 =>
            if ws2 (nat_of_ascii c) (nat_of_ascii c1) then 2
            else
              match s2 with
              | EmptyString => 0
              | String c2 _ =>
                  if ws3 (nat_of_ascii c) (nat_of_ascii c1) (nat_of_ascii c2)
                  then 3 else 0
              end
        end
  end.

(** [s.split()]: [word] is the token being read, [skip] the number of
    bytes left of the white-space character being passed. *)
Fixpoint split_ws_from (skip : nat) (word : string) (s : string) : list string :=
  match s with
  | EmptyString => if String.eqb word "" then [] else [word]
  | String c s' =>
      match skip with
      | S k => split_ws_from k word s'
      | O =>
          match ws_width s with
          | O => split_ws_from 0 (word +:+ String c EmptyString) s'
          | S k =>
              (if String.eqb word "" then [] else [word])
              ++ split_ws_from k EmptyString s'
          end
      end
  end.

Definition split_ws (s : string) : list string :=
  split_ws_from 0 EmptyString s.

(** [s.lstrip()]. *)
Fixpoint lstrip_from (skip : nat) (s : string) : string :=
  match s with
  | EmptyString => EmptyString
  | String c s' =>
      match skip with
      | S k => lstrip_from k s'
      | O =>
          match ws_width s with
          | O => s
          | S k => lstrip_from k s'
          end
      end
  end.

Definition lstrip (s : string) : string := lstrip_from 0 s.

(** [s] is made of white-space characters only. *)
Definition blank (s : string) : bool := String.eqb (lstrip s) "".

(** [s.rstrip()]: the longest suffix of white-space characters is dropped. *)
Fixpoint rstrip (s : string) : string :=
  match s with
  | EmptyString => EmptyString
  | String c s' => if blank s then EmptyString else String c (rstrip s')
  end.

(** [s.strip()]. *)
Definition strip (s : string) : string := rstrip (lstrip s).

(** The strings handed to [float] by the comprehension
    [[float(x.strip()) for x in ... .split() if x.strip()]]. *)
Definition start_time_tokens (image_start_times : string) : list string :=
  map strip
    (List.filter (fun x => negb (String.eqb (strip x) ""))
       (split_ws (replace_char ","%char " " image_start_times))).

Record upload : Type := Upload { filename : string }.

(** The form of [POST /generate-video]. *)
Record submission : Type := Submission {
  all_images : list (option upload);
  audio : upload;
  background_music : string;
  subtitles_string : string;
  image_start_times : string;
  caption_number : string;
  color_stt : string;
  color_encours : string;
  is_zoom_pan : string;
  is_chromatic_effect : string
}.

Inductive response : Type :=
| JSONResponse (fields : list (string * string))
| HTTPException (status_code : Z) (detail : string).

Section JobOrchestrator.

Variable P : platform.

Definition path_join (a b : string) : string := a +:+ os_sep P +:+ b.

(** [save_job_status]: the record is built anew at every call. *)
Definition save_job_status (w : world) (job_id : string) (status : JobStatus)
    (progress : Z) (error video_path : option string) : world :=
  let job_data :=
    {| job_id := job_id;
       status := status;
       progress := progress;
       created_at := now P (clock w);
       updated_at := now P (S (clock w));
       error := error;
       video_path := video_path |} in
  {| jobs := <[job_id := job_data]> (jobs w);
     work_dirs := work_dirs w;
     tasks := tasks w;
     clock := S (S (clock w)) |}.

Definition get_job_status_data (w : world) (job_id : string) : option job_data :=
  jobs w !! job_id.

Definition call_build_video (a : job_args) (output_path : string)
  : result (list string * list string) :=
  build_video (py_float P) (str_float P) (str_upper P) path_join
    (get_audio_duration P) (run_ffmpeg P)
    (random_choice P (a_job_id a))
    (a_image_paths a) (a_audio_path a) (a_subtitles_string a)
    (a_start_times a) (a_caption_number_int a) (a_color_stt a)
    (a_color_encours a) (a_is_zoom_pan a) (a_background_music_path a)
    (a_is_chromatic_effect a) output_path (a_work_dir a).

(** [process_video_job], run without interruption. *)
Definition process_video_job (w : world) (a : job_args) : world :=
  let job_id := a_job_id a in
  let w := save_job_status w job_id PROCESSING 10 None None in
  let output_path := path_join (a_work_dir a) "final_video.mp4" in
  match copy_fonts_to_workdir P (a_work_dir a) with
  | Raise e => save_job_status w job_id FAILED 0 (Some (str_exn e)) None
  | Ok _ =>
      let w := save_job_status w job_id PROCESSING 20 None None in
      match call_build_video a output_path with
      | Ok _ => save_job_status w job_id COMPLETED 100 None (Some output_path)
      | Raise e => save_job_status w job_id FAILED 0 (Some (str_exn e)) None
      end
  end.

(** The same function cut at its status writes: between two of them the
    other handlers and tasks may run. *)
Definition task_step (w : world) (t : task) : world * task_pc :=
  let a := t_args t in
  let job_id := a_job_id a in
  let output_path := path_join (a_work_dir a) "final_video.mp4" in
  match t_pc t with
  | Queued => (save_job_status w job_id PROCESSING 10 None None, Started)
  | Started =>
      match copy_fonts_to_workdir P (a_work_dir a) with
      | Raise e =>
          (save_job_status w job_id FAILED 0 (Some (str_exn e)) None, Finished)
      | Ok _ => (save_job_status w job_id PROCESSING 20 None None, Staged)
      end
  | Staged =>
      match call_build_video a output_path with
      | Ok _ =>
          (save_job_status w job_id COMPLETED 100 None (Some output_path),
           Finished)
      | Raise e =>
          (save_job_status w job_id FAILED 0 (Some (str_exn e)) None, Finished)
      end
  | Finished => (w, Finished)
  end.

Definition set_pc (w : world) (job_id : string) (t : task) (pc : task_pc) : world :=
  {| jobs := jobs w;
     work_dirs := work_dirs w;
     tasks := <[job_id := {| t_args := t_args t; t_pc := pc |}]> (tasks w);
     clock := clock w |}.

Definition run_task_step (w : world) (job_id : string) (t : task) : world :=
  let '(w', pc) := task_step w t in set_pc w' job_id t pc.

(** The body of the [try] of [generate_video] up to the status write. *)
Definition stage_submission (job_id work_dir : string) (req : submission)
  : result job_args :=
  let uploaded_images := omap id (all_images req) in
  match uploaded_images with
  | [] => Raise (ValueError "Aucune image n'a été uploadée")
  | _ =>
      let image_paths :=
        map (fun ii : nat * upload =>
               path_join work_dir
                 ("image_" +:+ str_nat (fst ii) +:+ path_suffix P (filename (snd ii))))
            (enumerate uploaded_images) in
      let audio_path :=
        path_join work_dir ("audio" +:+ path_suffix P (filename (audio req))) in
      let* background_music_path :=
        if String.eqb (background_music req) "0" then Ok None
        else
          match dict_get BACKGROUND_MUSIC_MAP (background_music req) with
          | Some music_filename =>
              if String.eqb music_filename ""
              then Raise (ValueError "Numéro de musique invalide")
              else Ok (Some (path_join (BASE_DIR P) music_filename))
          | None => Raise (ValueError "Numéro de musique invalide")
          end in
      let* caption_number_int := py_int_str P (caption_number req) in
      let* start_times :=
        mapM (py_float P) (start_time_tokens (image_start_times req)) in
      let start_times := reconcile start_times (length image_paths) in
      Ok {| a_job_id := job_id;
            a_image_paths := image_paths;
            a_audio_path := audio_path;
            a_subtitles_string := subtitles_string req;
            a_start_times := start_times;
            a_caption_number_int := caption_number_int;
            a_color_stt := color_stt req;
            a_color_encours := color_encours req;
            a_is_zoom_pan := is_zoom_pan req;
            a_background_music_path := background_music_path;
            a_is_chromatic_effect := is_chromatic_effect req;
            a_work_dir := work_dir |}
  end.

(** [generate_video]; [job_id] is the identifier [uuid.uuid4()] draws. *)
Definition generate_video (w : world) (job_id : string) (req : submission)
  : world * response :=
  let work_dir := path_join TEMP_DIR job_id in
  let w := {| jobs := jobs w; work_dirs := work_dirs w ∪ {[job_id]};
              tasks := tasks w; clock := clock w |} in
  match stage_submission job_id work_dir req with
  | Ok a =>
      let w := save_job_status w job_id PENDING 0 None None in
      ({| jobs := jobs w; work_dirs := work_dirs w;
          tasks := <[job_id := {| t_args := a; t_pc := Queued |}]> (tasks w);
          clock := clock w |},
       JSONResponse [("job_id", job_id); ("status", "pending");
                     ("message", "Votre vidéo est en cours de génération")])
  | Raise e =>
      ({| jobs := jobs w; work_dirs := work_dirs w ∖ {[job_id]};
          tasks := tasks w; clock := clock w |},
       HTTPException 400 (str_exn e))
  end.

(** [delete_job]. *)
Definition delete_job (w : world) (job_id : string) : world * response :=
  match get_job_status_data w job_id with
  | None => (w, HTTPException 404 "Job non trouvé")
  | Some _ =>
      ({| jobs := delete job_id (jobs w);
          work_dirs := work_dirs w ∖ {[job_id]};
          tasks := tasks w; clock := clock w |},
       JSONResponse [("message", "Job supprimé avec succès")])
  end.

(** An identifier [uuid.uuid4()] can draw: one not in use. *)
Definition fresh (w : world) (job_id : string) : Prop :=
  jobs w !! job_id = None /\ tasks w !! job_id = None.

(** The moves of the service: a submission, one step of a background
    task, a deletion. *)
Inductive step : world -> world -> Prop :=
| step_submit w job_id req :
    fresh w job_id -> step w (fst (generate_video w job_id req))
| step_task w job_id t :
    tasks w !! job_id = Some t -> t_pc t <> Finished ->
    step w (run_task_step w job_id t)
| step_delete w job_id :
    step w (fst (delete_job w job_id)).

(** The states the service goes through from a start with no background
    task (status files of earlier runs may exist). *)
Inductive reachable : world -> Prop :=
| reachable_boot w : tasks w = ∅ -> reachable w
| reachable_step w w' : reachable w -> step w w' -> reachable w'.

End JobOrchestrator.

(** The transitions the job state machine allows. *)
Inductive sm_next : JobStatus -> JobStatus -> Prop :=
| sm_start : sm_next PENDING PROCESSING
| sm_progress : sm_next PROCESSING PROCESSING
| sm_complete : sm_next PROCESSING COMPLETED
| sm_fail : sm_next PROCESSING FAILED.

Definition terminal (s : JobStatus) : bool :=
  match s with COMPLETED | FAILED => true | _ => false end.

(** ** Status and download endpoints *)

(** What a read-only handler gives back: the content of its response, or
    the [HTTPException] it raises. *)
Inductive http (A : Type) : Type :=
| Reply (content : A)
| HTTPError (status_code : Z) (detail : string).
Arguments Reply {A} content.
Arguments HTTPError {A} status_code detail.

(** The JSON content of [GET /job/{job_id}]: the stored record and the
    key [video_url] added to it. *)
Record status_content : Type := StatusContent {
  sc_job_data : job_data;
  sc_video_url : option string
}.

Record file_response : Type := FileResponse {
  fr_path : string;
  fr_media_type : string;
  fr_filename : string
}.

Section Endpoints.

(** [Path(p).exists()] at the time of the request. *)
Variable path_exists : string -> bool.

Definition get_job_status_endpoint (w : world) (job_id : string)
  : http status_content :=
  match get_job_status_data w job_id with
  | None => HTTPError 404 "Job non trouvé"
  | Some job_data =>
      let video_url :=
        if String.eqb (JobStatus_value (status job_data)) (JobStatus_value COMPLETED)
        then
          match supplied (video_path job_data) with
          | Some video_path =>
              if path_exists video_path
              then Some ("/job/" +:+ job_id +:+ "/download")
              else None
          | None => None
          end
        else None in
      Reply {| sc_job_data := job_data; sc_video_url := video_url |}
  end.

Definition download_video (w : world) (job_id : string) : http file_response :=
  match get_job_status_data w job_id with
  | None => HTTPError 404 "Job non trouvé"
  | Some job_data =>
      if negb (String.eqb (JobStatus_value (status job_data))
                 (JobStatus_value COMPLETED))
      then HTTPError 400 ("La vidéo n'est pas encore prête. Statut actuel: "
                          +:+ JobStatus_value (status job_data))
      else
        match supplied (video_path job_data) with
        | Some video_path =>
            if path_exists video_path
            then Reply {| fr_path := video_path;
                          fr_media_type := "video/mp4";
                          fr_filename := "generated_video.mp4" |}
            else HTTPError 404 "Fichier vidéo non trouvé"
        | None => HTTPError 404 "Fichier vidéo non trouvé"
        end
  end.

End Endpoints.

(** ** A concrete platform

    Instances of the builtins on the inputs the examples use: decimal
    literals for [float(str)] and [int(str)], [repr] for [str(float)], the
    text after the last dot for the suffix of a file name, collaborators
    that succeed. *)

Definition int_of_decimal (s : string) : result Z :=
  let '(sign, body) :=
    match s with
    | String "-"%char t => (true, t)
    | String "+"%char t => (false, t)
    | _ => (false, s)
    end in
  match body, digits_value 0 body with
  | String _ _, Some m => Ok (cond_Zopp sign m)
  | _, _ => Raise (ValueError ("invalid literal for int() with base 10: '" +:+ s +:+ "'"))
  end.

(** [repr] of a float, which is also its [str] and what an f-string
    writes: the shortest string of decimal digits that reads back as the
    float, the closest to it among the shortest (a tie goes to the even
    digit), in positional notation when the decimal point falls within
    [-4 < decpt <= 16] and in exponent notation otherwise. *)

(** The float nearest to [d * 10 ^ e10]. *)
Definition float_of_digits (d e10 : Z) : float :=
  match d with
  | Zpos p =>
      if 0 <=? e10 then of_Z (d * 10 ^ e10)
      else div (S754_finite false p 0)
               (S754_finite false (Z.to_pos (10 ^ (- e10))) 0)
  | _ => S754_zero false
  end.

(** [num / den < 10 ^ k]. *)
Definition below_pow10 (num den k : Z) : bool :=
  if 0 <=? k then num <? den * 10 ^ k else num * 10 ^ (- k) <? den.

(** The [k] with [10 ^ (k - 1) <= num / den < 10 ^ k], searched from [k];
    a binary64 value lies between [10 ^ -324] and [10 ^ 309]. *)
Fixpoint decimal_point (fuel : nat) (num den k : Z) : Z :=
  match fuel with
  | O => k
  | S fuel' =>
      if below_pow10 num den k then
        if below_pow10 num den (k - 1) then decimal_point fuel' num den (k - 1)
        else k
      else decimal_point fuel' num den (k + 1)
  end.

(** The digits of the decimal of [n] significant digits nearest to
    [x = num / den] among those that read back as [x]; it is one of the
    two neighbours of [x], if any. *)
Definition digits_at (x : float) (num den k n : Z) : option Z :=
  let j := n - k in
  let N := if 0 <=? j then num * 10 ^ j else num in
  let D := if 0 <=? j then den else den * 10 ^ (- j) in
  let q := N / D in
  let r := N mod D in
  let lo := PyFloat.eqb (float_of_digits q (k - n)) x in
  let hi := negb (r =? 0) && PyFloat.eqb (float_of_digits (q + 1) (k - n)) x in
  match lo, hi with
  | true, true =>
      if 2 * r <? D then Some q
      else if D <? 2 * r then Some (q + 1)
      else if Z.even q then Some q else Some (q + 1)
  | true, false => Some q
  | false, true => Some (q + 1)
  | false, false => None
  end.

(** The shortest digits, tried from [n] significant digits on; seventeen
    always read back. *)
Fixpoint shortest_digits (fuel : nat) (x : float) (num den k n : Z) : Z * Z :=
  match fuel with
  | O => (num * 10 ^ (17 - k) / den, 17)
  | S fuel' =>
      match digits_at x num den k n with
      | Some d => (d, n)
      | None => shortest_digits fuel' x num den k (n + 1)
      end
  end.

(** [d * 10 ^ e] with the trailing zeros of [d] moved to the exponent. *)
Fixpoint drop_zeros (fuel : nat) (d e : Z) : Z * Z :=
  match fuel with
  | O => (d, e)
  | S fuel' =>
      if d mod 10 =? 0 then drop_zeros fuel' (d / 10) (e + 1) else (d, e)
  end.

Definition zeros (n : Z) : string :=
  string_of_list_ascii (repeat "0"%char (Z.to_nat n)).

(** The digits with the decimal point after the first [decpt] of them. *)
Definition format_digits (digits : string) (decpt : Z) : string :=
  let len := Z.of_nat (String.length digits) in
  if (-4 <? decpt) && (decpt <=? 16) then
    if decpt <=? 0 then "0." +:+ zeros (- decpt) +:+ digits
    else if len <=? decpt then digits +:+ zeros (decpt - len) +:+ ".0"
    else substring 0 (Z.to_nat decpt) digits +:+ "."
         +:+ substring (Z.to_nat decpt) (Z.to_nat (len - decpt)) digits
  else
    let e := decpt - 1 in
    let a := Z.abs e in
    substring 0 1 digits
    +:+ (if 1 <? len then "." +:+ substring 1 (Z.to_nat (len - 1)) digits
         else EmptyString)
    +:+ "e" +:+ (if e <? 0 then "-" else "+")
    +:+ (if a <? 10 then "0" else EmptyString) +:+ str_Z a.

Definition float_repr (x : float) : string :=
  match x with
  | S754_nan => "nan"
  | S754_infinity s => if s then "-inf" else "inf"
  | S754_zero s => if s then "-0.0" else "0.0"
  | S754_finite s m e =>
      let num := if 0 <=? e then Zpos m * 2 ^ e else Zpos m in
      let den := if 0 <=? e then 1 else 2 ^ (- e) in
      let k := decimal_point 700 num den 0 in
      let '(d, n) := shortest_digits 17 (S754_finite false m e) num den k 1 in
      let '(d, e10) := drop_zeros 17 d (k - n) in
      let digits := str_Z d in
      (if s then "-" else EmptyString)
      +:+ format_digits digits (e10 + Z.of_nat (String.length digits))
  end.

Fixpoint suffix_of (s : string) : option string :=
  match s with
  | EmptyString => None
  | String c s' =>
      match suffix_of s' with
      | Some x => Some x
      | None => if Ascii.eqb c "."%char then Some s else None
      end
  end.

Definition demo_platform : platform :=
  {| py_float := float_of_decimal;
     py_int_str := int_of_decimal;
     str_float := float_repr;
     str_upper := ascii_upper;
     path_suffix := fun name => match suffix_of name with Some x => x | None => "" end;
     os_sep := "/";
     BASE_DIR := "/app";
     now := fun k => "reading-" +:+ str_nat k;
     copy_fonts_to_workdir := fun _ => Ok tt;
     get_audio_duration := fun _ => Ok (of_Z 10);
     run_ffmpeg := fun _ => Ok tt;
     random_choice := fun _ _ => ZoomIn |}.

Definition empty_world : world :=
  {| jobs := ∅; work_dirs := ∅; tasks := ∅; clock := 0 |}.

Definition demo_submission (music : string) : submission :=
  {| all_images := [Some (Upload "a.png"); None; Some (Upload "b.jpg")];
     audio := Upload "voice.mp3";
     background_music := music;
     subtitles_string := "hi/0.0/there/0.5";
     image_start_times := "0, 1.5";
     caption_number := "6";
     color_stt := "&H00FFFFFF";
     color_encours := "&H0000FFFF";
     is_zoom_pan := "oui";
     is_chromatic_effect := "non" |}.

(** * Properties *)

(** ** The timing parser *)

Lemma bind_ok {A B : Type} (r : result A) (k : A -> result B) (b : B) :
  bind r k = Ok b <-> exists a, r = Ok a /\ k a = Ok b.
Proof.
  destruct r as [a|e]; simpl; split.
  - intros H. exists a. auto.
  - intros (a' & Ha & Hk). congruence.
  - discriminate.
  - intros (a' & Ha & _). discriminate.
Qed.

Lemma is_ok_true {A : Type} (r : result A) :
  is_ok r = true <-> exists a, r = Ok a.
Proof.
  destruct r; simpl; split; eauto; try discriminate.
  intros (a & H). discriminate.
Qed.

(** Induction over a list two elements at a time. *)
Lemma list_pair_ind {A : Type} (Q : list A -> Prop) :
  Q [] -> (forall a, Q [a]) ->
  (forall a b l, Q l -> Q (a :: b :: l)) ->
  forall l, Q l.
Proof.
  intros H0 H1 H2.
  assert (H : forall l, Q l /\ forall a, Q (a :: l)).
  { induction l as [|b l [IH1 IH2]]; split; auto. }
  intros l. apply H.
Qed.

Section TimingParserFacts.

Variable pf : string -> result float.

Lemma parse_pairs_spec (parts : list string) :
  (forall i t, parts !! (2 * i + 1)%nat = Some t -> is_ok (pf t) = true) ->
  exists cs,
    parse_pairs pf parts = Ok cs /\
    length cs = (length parts / 2)%nat /\
    forall i c, cs !! i = Some c ->
      parts !! (2 * i)%nat = Some (word c) /\
      exists t, parts !! (2 * i + 1)%nat = Some t /\ pf t = Ok (start c).
Proof.
  induction parts as [|a|a b l IH] using list_pair_ind; intros Hok.
  - exists []. split; [|split]; auto. intros i c H. destruct i; discriminate.
  - exists []. split; [|split]; auto. intros i c H. destruct i; discriminate.
  - destruct IH as (cs & Hcs & Hlen & Hnth).
    { intros i t Hi. apply (Hok (S i)).
      replace (2 * S i + 1)%nat with (S (S (2 * i + 1))) by lia. exact Hi. }
    pose proof (Hok 0%nat b eq_refl) as Hb.
    apply is_ok_true in Hb. destruct Hb as (x & Hx).
    exists ({| word := a; start := x; end_ := zero |} :: cs).
    split; [|split].
    + simpl. rewrite Hx. simpl. rewrite Hcs. reflexivity.
    + simpl length. rewrite Hlen.
      change (S (S (length l))) with (2 + length l)%nat.
      replace (2 + length l)%nat with (length l + 1 * 2)%nat by lia.
      rewrite Nat.div_add by lia. lia.
    + intros [|i] c Hc.
      * simpl in Hc. inversion Hc; subst c. simpl. split; eauto.
      * simpl in Hc. destruct (Hnth i c Hc) as (Hw & t & Ht & Hpf).
        replace (2 * S i)%nat with (S (S (2 * i))) by lia.
        replace (2 * S i + 1)%nat with (S (S (2 * i + 1))) by lia.
        simpl. split; eauto.
Qed.

Lemma fill_ends_length (cs : list cue) : length (fill_ends cs) = length cs.
Proof.
  induction cs as [|c [|c' rest] IH]; simpl in *; auto.
Qed.

(** After the back-fill a cue keeps its word and start; its end is the
    start of its successor, or untouched when it has none. *)
Lemma fill_ends_lookup (cs : list cue) (i : nat) (c : cue) :
  fill_ends cs !! i = Some c ->
  exists c0, cs !! i = Some c0 /\ word c = word c0 /\ start c = start c0 /\
    match cs !! S i with
    | Some c' => end_ c = start c'
    | None => end_ c = end_ c0
    end.
Proof.
  revert i. induction cs as [|c0 [|c1 rest] IH]; intros i H.
  - destruct i; discriminate.
  - destruct i as [|i]; [|destruct i; discriminate].
    simpl in H. inversion H; subst. exists c. simpl. auto.
  - destruct i as [|i].
    + simpl in H. inversion H; subst. exists c0. simpl. auto.
    + change (fill_ends (c1 :: rest) !! i = Some c) in H.
      destruct (IH i H) as (c2 & H1 & H2 & H3 & H4).
      exists c2. auto.
Qed.

Lemma pad_last_length (cs : list cue) : length (pad_last cs) = length cs.
Proof.
  induction cs as [|c [|c' rest] IH]; simpl in *; auto.
Qed.

Lemma pad_last_lookup (cs : list cue) (i : nat) (c : cue) :
  pad_last cs !! i = Some c ->
  exists c0, cs !! i = Some c0 /\ word c = word c0 /\ start c = start c0 /\
    match cs !! S i with
    | Some _ => end_ c = end_ c0
    | None => end_ c = add (start c0) one
    end.
Proof.
  revert i. induction cs as [|c0 [|c1 rest] IH]; intros i H.
  - destruct i; discriminate.
  - destruct i as [|i]; [|destruct i; discriminate].
    simpl in H. inversion H; subst. exists c0. simpl. auto.
  - destruct i as [|i].
    + simpl in H. inversion H; subst. exists c. simpl. auto.
    + change (pad_last (c1 :: rest) !! i = Some c) in H.
      destruct (IH i H) as (c2 & H1 & H2 & H3 & H4).
      exists c2. auto.
Qed.

Lemma odd_half (n : nat) : Nat.odd n = true -> (n / 2 = (n - 1) / 2)%nat.
Proof.
  intros H. apply Nat.odd_spec in H. destruct H as (k & ->).
  replace (2 * k + 1 - 1)%nat with (k * 2)%nat by lia.
  rewrite Nat.div_mul by lia.
  replace (2 * k + 1)%nat with (1 + k * 2)%nat by lia.
  rewrite Nat.div_add by lia. reflexivity.
Qed.

Lemma parse_subtitles_spec (s : string) :
  let parts := split_on "/"%char s in
  (forall i t, parts !! (2 * i + 1)%nat = Some t -> is_ok (pf t) = true) ->
  exists cues,
    parse_subtitles pf s = Ok cues /\
    length cues = (length parts / 2)%nat /\
    (Nat.odd (length parts) = true ->
     length cues = ((length parts - 1) / 2)%nat) /\
    (forall i c, cues !! i = Some c ->
       parts !! (2 * i)%nat = Some (word c) /\
       exists t, parts !! (2 * i + 1)%nat = Some t /\ pf t = Ok (start c)) /\
    (forall i c c', cues !! i = Some c -> cues !! S i = Some c' ->
       end_ c = start c') /\
    (forall c, last cues = Some c -> end_ c = add (start c) one).
Proof.
  intros parts Hok.
  destruct (parse_pairs_spec parts Hok) as (cs & Hcs & Hlen & Hnth).
  exists (pad_last (fill_ends cs)).
  assert (Hl : length (pad_last (fill_ends cs)) = length cs)
    by (rewrite pad_last_length, fill_ends_length; reflexivity).
  split; [|split; [|split; [|split; [|split]]]].
  - unfold parse_subtitles. fold parts. rewrite Hcs. reflexivity.
  - congruence.
  - intros Hodd. rewrite Hl, Hlen. apply odd_half, Hodd.
  - intros i c Hc.
    apply pad_last_lookup in Hc. destruct Hc as (c1 & Hc1 & Hw1 & Hs1 & _).
    apply fill_ends_lookup in Hc1. destruct Hc1 as (c0 & Hc0 & Hw0 & Hs0 & _).
    destruct (Hnth i c0 Hc0) as (Hw & t & Ht & Hpf).
    rewrite Hw1, Hw0, Hs1, Hs0. eauto.
  - intros i c c' Hc Hc'.
    apply pad_last_lookup in Hc. destruct Hc as (c1 & Hc1 & _ & _ & He1).
    apply pad_last_lookup in Hc'. destruct Hc' as (c1' & Hc1' & _ & Hs1' & _).
    rewrite Hc1' in He1.
    apply fill_ends_lookup in Hc1. destruct Hc1 as (c0 & Hc0 & _ & _ & He0).
    apply fill_ends_lookup in Hc1'. destruct Hc1' as (c0' & Hc0' & _ & Hs0' & _).
    rewrite Hc0' in He0. congruence.
  - intros c Hc. rewrite last_lookup in Hc.
    pose proof Hc as Hc2.
    apply pad_last_lookup in Hc. destruct Hc as (c1 & Hc1 & _ & Hs1 & He1).
    assert (Hnone : fill_ends cs !! S (Nat.pred (length (pad_last (fill_ends cs)))) = None).
    { apply lookup_ge_None. rewrite pad_last_length. lia. }
    rewrite Hnone in He1. congruence.
Qed.

End TimingParserFacts.

(** C1 (as amended).  For every transcript whose time tokens -- the tokens
    at the odd positions of the split on [/] -- are accepted by the float
    conversion, the timing parser returns one cue per complete word/time
    pair and drops a trailing token without partner, so that an odd token
    count gives (count - 1) / 2 cues; the word and start of cue [i] are the
    tokens [2 i] and [2 i + 1]; the end of each cue is the start of the next
    one; the end of the last cue is its start plus 1.0.  In particular
    "hi/0.0/there/0.5/friend/1.2" gives ("hi", 0.0, 0.5),
    ("there", 0.5, 1.2), ("friend", 1.2, 2.2). *)
Theorem parse_subtitles_cues :
  (forall (pf : string -> result float) (s : string),
     let parts := split_on "/"%char s in
     (forall i t, parts !! (2 * i + 1)%nat = Some t -> is_ok (pf t) = true) ->
     exists cues,
       parse_subtitles pf s = Ok cues /\
       length cues = (length parts / 2)%nat /\
       (Nat.odd (length parts) = true ->
        length cues = ((length parts - 1) / 2)%nat) /\
       (forall i c, cues !! i = Some c ->
          parts !! (2 * i)%nat = Some (word c) /\
          exists t, parts !! (2 * i + 1)%nat = Some t /\ pf t = Ok (start c)) /\
       (forall i c c', cues !! i = Some c -> cues !! S i = Some c' ->
          end_ c = start c') /\
       (forall c, last cues = Some c -> end_ c = add (start c) one))
  /\
  parse_subtitles float_of_decimal "hi/0.0/there/0.5/friend/1.2"
  = Ok [ Cue "hi" (decimal_to_float false 0 1) (decimal_to_float false 5 1);
         Cue "there" (decimal_to_float false 5 1) (decimal_to_float false 12 1);
         Cue "friend" (decimal_to_float false 12 1) (decimal_to_float false 22 1) ].
Proof.
  split.
  - intros pf s. apply parse_subtitles_spec.
  - vm_compute. reflexivity.
Qed.

Lemma parse_subtitles_cues_witness :
  exists cues,
    parse_subtitles float_of_decimal "a/1.5/b/2/c" = Ok cues /\
    length cues = 2%nat.
Proof.
  destruct (proj1 parse_subtitles_cues float_of_decimal "a/1.5/b/2/c")
    as (cues & H1 & H2 & _).
  - intros [|[|i]] t H.
    + vm_compute in H. inversion H; subst. reflexivity.
    + vm_compute in H. inversion H; subst. reflexivity.
    + apply lookup_lt_Some in H.
      change (length (split_on "/"%char "a/1.5/b/2/c")) with 5%nat in H. lia.
  - exists cues. split; [exact H1 | exact H2].
Defined.

(** C1 (as stated) fails: a time token the float conversion rejects makes
    the parser raise, although the transcript holds a complete pair. *)
Lemma parse_subtitles_rejects_time_token :
  parse_subtitles float_of_decimal "hi/x"
  = Raise (ValueError "could not convert string to float: 'x'")
  /\ length (split_on "/"%char "hi/x") = 2%nat.
Proof. split; vm_compute; reflexivity. Qed.

(** ** Start-time reconciliation *)

Lemma synthesize_length (k : nat) (last_time : float) :
  length (synthesize k last_time) = k.
Proof.
  revert last_time. induction k as [|k IH]; intros last_time; simpl; auto.
Qed.

(** Every synthesized value is its predecessor plus 3.0, the first one
    being [last_time] plus 3.0. *)
Lemma synthesize_lookup (k : nat) (last_time : float) (i : nat) (x : float) :
  synthesize k last_time !! i = Some x ->
  match i with
  | O => x = add last_time three
  | S j => exists y, synthesize k last_time !! j = Some y /\ x = add y three
  end.
Proof.
  revert last_time i. induction k as [|k IH]; intros last_time i H.
  - destruct i; discriminate.
  - destruct i as [|j]; simpl in H.
    + congruence.
    + specialize (IH _ _ H). destruct j as [|j'].
      * exists (add last_time three). split; [reflexivity | exact IH].
      * destruct IH as (y & Hy & Hx). exists y. split; [exact Hy | exact Hx].
Qed.

Lemma lookup_last_default {A : Type} (l : list A) (d : A) :
  l <> [] -> l !! (length l - 1)%nat = Some (List.last l d).
Proof.
  induction l as [|a [|b l] IH]; intros Hne.
  - congruence.
  - reflexivity.
  - change (List.last (a :: b :: l) d) with (List.last (b :: l) d).
    rewrite <- IH by discriminate. simpl.
    replace (length l - 0)%nat with (length l) by lia. reflexivity.
Qed.

Lemma reconcile_extend (ts : list float) (n : nat) :
  (length ts < n)%nat ->
  reconcile ts n
  = ts ++ synthesize (n - length ts) (List.last ts (of_Z 0)).
Proof.
  intros H. unfold reconcile.
  destruct (Nat.eqb_spec (length ts) n); [lia|].
  destruct (Nat.ltb_spec n (length ts)); [lia|]. reflexivity.
Qed.

(** C6.  When the number of start times differs from the image count, the
    reconciled list has one entry per image; excess start times are cut
    off; missing ones are appended, each being the entry before it plus
    3.0, and the first being 0 plus 3.0 when no start time was supplied.
    In particular 5 images with start times [0, 1, 2] give
    [0, 1, 2, 5, 8]. *)
Theorem reconcile_policy :
  (forall (ts : list float) (n : nat),
     length ts <> n ->
     length (reconcile ts n) = n /\
     ((n < length ts)%nat -> reconcile ts n = firstn n ts) /\
     ((length ts < n)%nat ->
      (forall i, (i < length ts)%nat -> reconcile ts n !! i = ts !! i) /\
      (forall i x, (length ts <= i)%nat -> reconcile ts n !! i = Some x ->
         match i with
         | O => x = add (of_Z 0) three
         | S j => exists y, reconcile ts n !! j = Some y /\ x = add y three
         end)))
  /\
  reconcile [of_Z 0; of_Z 1; of_Z 2] 5
  = [of_Z 0; of_Z 1; of_Z 2; of_Z 5; of_Z 8].
Proof.
  split; [|vm_compute; reflexivity].
  intros ts n Hne.
  split; [|split].
  - unfold reconcile.
    destruct (Nat.eqb_spec (length ts) n); [lia|].
    destruct (Nat.ltb_spec n (length ts)).
    + rewrite length_firstn. lia.
    + rewrite length_app, synthesize_length. lia.
  - intros Hlt. unfold reconcile.
    destruct (Nat.eqb_spec (length ts) n); [lia|].
    destruct (Nat.ltb_spec n (length ts)); [reflexivity | lia].
  - intros Hlt. rewrite (reconcile_extend ts n Hlt). split.
    + intros i Hi. apply lookup_app_l. exact Hi.
    + intros i x Hi Hx.
      rewrite lookup_app_r in Hx by exact Hi.
      apply synthesize_lookup in Hx.
      destruct (i - length ts)%nat as [|m] eqn:Hm.
      * destruct i as [|j].
        -- destruct ts; [exact Hx | simpl in Hi; lia].
        -- exists (List.last ts (of_Z 0)). split; [|exact Hx].
           assert (Hts : ts <> []) by (intros ->; simpl in *; lia).
           rewrite lookup_app_l by lia.
           replace j with (length ts - 1)%nat by lia.
           apply lookup_last_default, Hts.
      * destruct Hx as (y & Hy & Hx).
        destruct i as [|j]; [lia|].
        exists y. split; [|exact Hx].
        rewrite lookup_app_r by lia.
        replace (j - length ts)%nat with m by lia. exact Hy.
Qed.

Lemma reconcile_policy_witness :
  length (reconcile [of_Z 7] 3) = 3%nat.
Proof.
  apply (proj1 reconcile_policy [of_Z 7] 3%nat). simpl. lia.
Defined.

(** ** The job status store *)

Section JobFacts.

Variable P : platform.

Lemma save_lookup (w : world) (id : string) (st : JobStatus) (pr : Z)
    (err vp : option string) :
  jobs (save_job_status P w id st pr err vp) !! id
  = Some {| job_id := id; status := st; progress := pr;
            created_at := now P (clock w);
            updated_at := now P (S (clock w));
            error := err; video_path := vp |}.
Proof. unfold save_job_status. simpl. apply lookup_insert_eq. Qed.

Lemma save_lookup_ne (w : world) (id id' : string) (st : JobStatus) (pr : Z)
    (err vp : option string) :
  id <> id' ->
  jobs (save_job_status P w id st pr err vp) !! id' = jobs w !! id'.
Proof. intros H. unfold save_job_status. simpl. apply lookup_insert_ne, H. Qed.

Lemma save_tasks (w : world) (id : string) (st : JobStatus) (pr : Z)
    (err vp : option string) :
  tasks (save_job_status P w id st pr err vp) = tasks w.
Proof. reflexivity. Qed.

Lemma save_clock (w : world) (id : string) (st : JobStatus) (pr : Z)
    (err vp : option string) :
  clock (save_job_status P w id st pr err vp) = S (S (clock w)).
Proof. reflexivity. Qed.

End JobFacts.

(** C10.  A status write replaces the whole record of the job: the
    creation and the last-update timestamps are the two clock readings
    made by this write, the error message and the artifact location are
    the ones passed to it (null when none is passed), whatever the record
    held before; the records of the other jobs are untouched.  A second
    write therefore carries the creation timestamp of the second write. *)
Theorem save_job_status_replaces_record :
  forall (P : platform) (w : world) (id : string) (st : JobStatus) (pr : Z)
         (err vp : option string),
    let w' := save_job_status P w id st pr err vp in
    jobs w' !! id
    = Some {| job_id := id; status := st; progress := pr;
              created_at := now P (clock w);
              updated_at := now P (S (clock w));
              error := err; video_path := vp |}
    /\ clock w' = S (S (clock w))
    /\ (forall id', id <> id' -> jobs w' !! id' = jobs w !! id')
    /\ (forall st2 pr2,
          jobs (save_job_status P w' id st2 pr2 None None) !! id
          = Some {| job_id := id; status := st2; progress := pr2;
                    created_at := now P (S (S (clock w)));
                    updated_at := now P (S (S (S (clock w))));
                    error := None; video_path := None |}).
Proof.
  intros P w id st pr err vp w'.
  split; [apply save_lookup|].
  split; [reflexivity|].
  split; [intros id' H; apply save_lookup_ne, H|].
  intros st2 pr2. rewrite save_lookup. reflexivity.
Qed.

Lemma save_job_status_replaces_record_witness :
  jobs (save_job_status demo_platform
          (save_job_status demo_platform empty_world "j1" COMPLETED 100 None
             (Some "temp_files/j1/final_video.mp4"))
          "j2" PENDING 0 None None) !! "j1"
  = jobs (save_job_status demo_platform empty_world "j1" COMPLETED 100 None
            (Some "temp_files/j1/final_video.mp4")) !! "j1".
Proof.
  apply (save_job_status_replaces_record demo_platform
           (save_job_status demo_platform empty_world "j1" COMPLETED 100 None
              (Some "temp_files/j1/final_video.mp4"))
           "j2" PENDING 0 None None).
  discriminate.
Defined.

(** ** The job state machine *)

(** The status a record shows at each point of its background task. *)
Definition pc_status (pc : task_pc) (s : JobStatus) : Prop :=
  match pc with
  | Queued => s = PENDING
  | Started | Staged => s = PROCESSING
  | Finished => terminal s = true
  end.

(** Every background task is filed under the job it works for, and the
    record of that job, when there is one, shows the status of the point
    the task has reached. *)
Definition consistent (w : world) : Prop :=
  forall id t, tasks w !! id = Some t ->
    a_job_id (t_args t) = id /\
    forall r, jobs w !! id = Some r -> pc_status (t_pc t) (status r).

Section StateMachine.

Variable P : platform.

Lemma stage_submission_job_id (jid work_dir : string) (req : submission)
    (a : job_args) :
  stage_submission P jid work_dir req = Ok a -> a_job_id a = jid.
Proof.
  unfold stage_submission. intros H.
  destruct (omap id (all_images req)) eqn:E in H; [discriminate|].
  apply bind_ok in H. destruct H as (m & _ & H).
  apply bind_ok in H. destruct H as (c & _ & H).
  apply bind_ok in H. destruct H as (ts & _ & H).
  inversion H. reflexivity.
Qed.

(** What one step of a task writes. *)
Lemma task_step_effect (w : world) (t : task) :
  t_pc t <> Finished ->
  exists st pr err vp,
    fst (task_step P w t)
    = save_job_status P w (a_job_id (t_args t)) st pr err vp /\
    pc_status (snd (task_step P w t)) st /\
    (st = PROCESSING \/ terminal st = true) /\
    (t_pc t = Queued -> st = PROCESSING).
Proof.
  intros Hpc. unfold task_step. destruct (t_pc t); try congruence.
  - exists PROCESSING, 10, None, None. simpl. auto.
  - destruct (copy_fonts_to_workdir P (a_work_dir (t_args t))).
    + exists PROCESSING, 20, None, None. simpl. split; [|split; [|split]]; auto; try discriminate.
    + exists FAILED, 0, (Some (str_exn e)), None. simpl. split; [|split; [|split]]; auto; try discriminate.
  - destruct (call_build_video P (t_args t) _).
    + eexists COMPLETED, 100, None, (Some _). simpl. split; [|split; [|split]]; auto; try discriminate.
    + exists FAILED, 0, (Some (str_exn e)), None. simpl. split; [|split; [|split]]; auto; try discriminate.
Qed.

Lemma step_consistent (w w' : world) :
  consistent w -> step P w w' -> consistent w'.
Proof.
  intros Hc Hs. destruct Hs as [w id req [Hj Ht] | w id t Ht Hpc | w id].
  - (* submission *)
    unfold generate_video.
    destruct (stage_submission P id _ req) as [a|e] eqn:Hst; simpl.
    + intros id' t' Ht'. simpl in Ht'.
      destruct (decide (id = id')) as [<-|Hne].
      * rewrite lookup_insert_eq in Ht'. inversion Ht'; subst t'. simpl.
        split; [eapply stage_submission_job_id, Hst|].
        intros r Hr. rewrite lookup_insert_eq in Hr. inversion Hr. reflexivity.
      * rewrite lookup_insert_ne in Ht' by exact Hne.
        destruct (Hc id' t' Ht') as (Hid & Hr). split; [exact Hid|].
        intros r Hr'. simpl in Hr'.
        rewrite lookup_insert_ne in Hr' by exact Hne. auto.
    + intros id' t' Ht'. simpl in Ht'.
      destruct (Hc id' t' Ht') as (Hid & Hr). split; [exact Hid|].
      intros r Hr'. simpl in Hr'. auto.
  - (* one step of a task *)
    destruct (Hc id t Ht) as (Hid & Hrec).
    destruct (task_step_effect w t Hpc) as (st & pr & err & vp & Hw & Hps & _).
    unfold run_task_step. destruct (task_step P w t) as [w1 pc] eqn:Hts.
    simpl in Hw, Hps. subst w1. rewrite Hid.
    intros id' t' Ht'. simpl in Ht'.
    destruct (decide (id = id')) as [<-|Hne].
    * rewrite lookup_insert_eq in Ht'. inversion Ht'; subst t'. simpl.
      split; [exact Hid|]. intros r Hr. simpl in Hr.
      rewrite lookup_insert_eq in Hr.
      inversion Hr. simpl. exact Hps.
    * rewrite lookup_insert_ne in Ht' by exact Hne.
      destruct (Hc id' t' Ht') as (Hid' & Hr). split; [exact Hid'|].
      intros r Hr'. simpl in Hr'.
      rewrite lookup_insert_ne in Hr' by exact Hne. auto.
  - (* deletion *)
    unfold delete_job, get_job_status_data.
    destruct (jobs w !! id) eqn:Hj; simpl; [|exact Hc].
    intros id' t' Ht'. destruct (Hc id' t' Ht') as (Hid & Hr).
    split; [exact Hid|]. intros r Hr'. simpl in Hr'.
    apply lookup_delete_Some in Hr'. destruct Hr' as (_ & Hr'). auto.
Qed.

Lemma reachable_consistent (w : world) : reachable P w -> consistent w.
Proof.
  induction 1 as [w Hboot | w w' _ IH Hstep].
  - intros id t Ht. rewrite Hboot, lookup_empty in Ht. discriminate.
  - eapply step_consistent; eauto.
Qed.

(** What a step does to the record of a job that has one. *)
Lemma step_record (w w' : world) (id : string) (r : job_data) :
  consistent w -> step P w w' -> jobs w !! id = Some r ->
  jobs w' !! id = Some r
  \/ (w' = fst (delete_job w id) /\ jobs w' !! id = None)
  \/ (exists r', jobs w' !! id = Some r' /\ sm_next (status r) (status r')).
Proof.
  intros Hc Hs Hr. destruct Hs as [w id0 req [Hj Ht] | w id0 t Ht Hpc | w id0].
  - left. assert (Hne : id0 <> id) by congruence.
    unfold generate_video.
    destruct (stage_submission P id0 _ req) as [a|e]; simpl; [|exact Hr].
    rewrite lookup_insert_ne by exact Hne. exact Hr.
  - destruct (Hc id0 t Ht) as (Hid & Hrec).
    destruct (task_step_effect w t Hpc) as (st & pr & err & vp & Hw & Hps & Hst & Hq).
    unfold run_task_step. destruct (task_step P w t) as [w1 pc] eqn:Hts.
    simpl in Hw, Hps. subst w1. rewrite Hid. simpl.
    destruct (decide (id0 = id)) as [->|Hne].
    + right. right. rewrite lookup_insert_eq. eexists. split; [reflexivity|].
      simpl. specialize (Hrec r Hr).
      destruct (t_pc t) eqn:Hpct; simpl in Hrec; try congruence.
      * rewrite Hrec, (Hq eq_refl). constructor.
      * rewrite Hrec. destruct Hst as [->|Hst]; [constructor|].
        destruct st; try discriminate; constructor.
      * rewrite Hrec. destruct Hst as [->|Hst]; [constructor|].
        destruct st; try discriminate; constructor.
    + left. rewrite lookup_insert_ne by exact Hne. exact Hr.
  - destruct (decide (id0 = id)) as [->|Hne].
    + right. left. split; [reflexivity|].
      unfold delete_job, get_job_status_data. rewrite Hr. simpl.
      apply lookup_delete_eq.
    + left. unfold delete_job, get_job_status_data.
      destruct (jobs w !! id0); simpl; [|exact Hr].
      rewrite lookup_delete_ne by exact Hne. exact Hr.
Qed.

(** A record in a terminal state is out of reach of every task step. *)
Lemma step_terminal (w w' : world) (id : string) (r : job_data) :
  consistent w -> step P w w' -> jobs w !! id = Some r ->
  terminal (status r) = true ->
  jobs w' !! id = Some r
  \/ (w' = fst (delete_job w id) /\ jobs w' !! id = None).
Proof.
  intros Hc Hs Hr Hterm.
  destruct (step_record w w' id r Hc Hs Hr) as [H|[H|(r' & _ & Hn)]]; auto.
  inversion Hn as [E|E|E|E]; rewrite <- E in Hterm; discriminate.
Qed.

End StateMachine.

Lemma append_nonempty_r (s t : string) : t <> "" -> s +:+ t <> "".
Proof.
  intros Ht H. destruct s as [|a s].
  - change (t = "") in H. congruence.
  - change (String a (s +:+ t) = "") in H. discriminate.
Qed.

Section Orchestration.

Variable P : platform.

(** The background task of a job, stepped until it has returned. *)
Fixpoint run_task (n : nat) (w : world) (id : string) : world :=
  match n with
  | O => w
  | S n' =>
      match tasks w !! id with
      | Some t =>
          match t_pc t with
          | Finished => w
          | _ => run_task n' (run_task_step P w id t) id
          end
      | None => w
      end
  end.

Lemma run_task_unfold (n : nat) (w : world) (id : string) (t : task) :
  tasks w !! id = Some t -> t_pc t <> Finished ->
  run_task (S n) w id = run_task n (run_task_step P w id t) id.
Proof.
  intros Ht Hpc. cbn [run_task]. rewrite Ht.
  destruct (t_pc t); congruence.
Qed.

Lemma run_task_finished (n : nat) (w : world) (id : string) (t : task) :
  tasks w !! id = Some t -> t_pc t = Finished -> run_task n w id = w.
Proof.
  intros Ht Hpc. destruct n; cbn [run_task]; [reflexivity|].
  rewrite Ht, Hpc. reflexivity.
Qed.

Lemma run_task_step_tasks (w : world) (id : string) (t : task) :
  tasks (run_task_step P w id t) !! id
  = Some {| t_args := t_args t; t_pc := snd (task_step P w t) |}.
Proof.
  unfold run_task_step. destruct (task_step P w t) as [w1 pc]. simpl.
  apply lookup_insert_eq.
Qed.

Lemma run_task_step_jobs (w : world) (id : string) (t : task) :
  jobs (run_task_step P w id t) = jobs (fst (task_step P w t)) /\
  clock (run_task_step P w id t) = clock (fst (task_step P w t)).
Proof.
  unfold run_task_step. destruct (task_step P w t) as [w1 pc]. simpl. auto.
Qed.

Lemma save_congr (w w' : world) (id : string) (st : JobStatus) (pr : Z)
    (err vp : option string) :
  jobs w = jobs w' -> clock w = clock w' ->
  jobs (save_job_status P w id st pr err vp)
  = jobs (save_job_status P w' id st pr err vp) /\
  clock (save_job_status P w id st pr err vp)
  = clock (save_job_status P w' id st pr err vp).
Proof.
  intros Hj Hc. unfold save_job_status. cbn [jobs clock].
  rewrite Hj, Hc. split; reflexivity.
Qed.

(** Stepping a queued task to its end writes what [process_video_job]
    writes. *)
Lemma run_task_process_video_job (w : world) (a : job_args) :
  tasks w !! a_job_id a = Some {| t_args := a; t_pc := Queued |} ->
  jobs (run_task 3 w (a_job_id a)) = jobs (process_video_job P w a) /\
  clock (run_task 3 w (a_job_id a)) = clock (process_video_job P w a).
Proof.
  intros Ht. set (id := a_job_id a) in *.
  set (t0 := {| t_args := a; t_pc := Queued |}) in *.
  rewrite (run_task_unfold 2 w id t0 Ht) by discriminate.
  set (w1 := run_task_step P w id t0).
  pose proof (run_task_step_tasks w id t0) as Ht1. fold w1 in Ht1.
  destruct (run_task_step_jobs w id t0) as (Hj1 & Hc1). fold w1 in Hj1, Hc1.
  cbn in Ht1, Hj1, Hc1.
  set (t1 := {| t_args := a; t_pc := Started |}) in *.
  rewrite (run_task_unfold 1 w1 id t1 Ht1) by discriminate.
  set (w2 := run_task_step P w1 id t1).
  pose proof (run_task_step_tasks w1 id t1) as Ht2. fold w2 in Ht2.
  destruct (run_task_step_jobs w1 id t1) as (Hj2 & Hc2). fold w2 in Hj2, Hc2.
  unfold process_video_job. fold id.
  unfold task_step in Ht2, Hj2, Hc2. cbn [t_pc t_args t1] in Ht2, Hj2, Hc2.
  destruct (copy_fonts_to_workdir P (a_work_dir a)) as [u|e].
  - cbn [fst snd] in Ht2, Hj2, Hc2.
    set (t2 := {| t_args := a; t_pc := Staged |}) in *.
    rewrite (run_task_unfold 0 w2 id t2 Ht2) by discriminate.
    cbn [run_task].
    destruct (run_task_step_jobs w2 id t2) as (Hj3 & Hc3).
    rewrite Hj3, Hc3. unfold task_step. cbn [t_pc t_args t2].
    fold id.
    destruct (call_build_video P a _) as [v|e]; cbn [fst];
      apply save_congr; rewrite ?Hj2, ?Hc2; reflexivity.
  - cbn [fst snd] in Ht2, Hj2, Hc2.
    rewrite (run_task_finished 1 w2 id _ Ht2) by reflexivity.
    rewrite Hj2, Hc2. split; reflexivity.
Qed.

Lemma generate_video_accepted (w : world) (id : string) (req : submission)
    (fields : list (string * string)) :
  snd (generate_video P w id req) = JSONResponse fields ->
  exists a,
    stage_submission P id (path_join P TEMP_DIR id) req = Ok a /\
    jobs (fst (generate_video P w id req)) !! id
    = Some {| job_id := id; status := PENDING; progress := 0;
              created_at := now P (clock w);
              updated_at := now P (S (clock w));
              error := None; video_path := None |} /\
    tasks (fst (generate_video P w id req)) !! id
    = Some {| t_args := a; t_pc := Queued |}.
Proof.
  unfold generate_video.
  destruct (stage_submission P id _ req) as [a|e]; simpl; [|discriminate].
  intros _. exists a. split; [reflexivity|].
  split; apply lookup_insert_eq.
Qed.

Lemma process_video_job_success (w : world) (a : job_args)
    (u : unit) (v : list string * list string) :
  copy_fonts_to_workdir P (a_work_dir a) = Ok u ->
  call_build_video P a (path_join P (a_work_dir a) "final_video.mp4") = Ok v ->
  jobs (process_video_job P w a) !! a_job_id a
  = Some {| job_id := a_job_id a; status := COMPLETED; progress := 100;
            created_at := now P (clock w + 4);
            updated_at := now P (clock w + 5);
            error := None;
            video_path := Some (path_join P (a_work_dir a) "final_video.mp4") |}.
Proof.
  intros Hf Hb. unfold process_video_job. rewrite Hf, Hb.
  rewrite save_lookup. rewrite !save_clock.
  replace (clock w + 4)%nat with (S (S (S (S (clock w))))) by lia.
  replace (clock w + 5)%nat with (S (S (S (S (S (clock w)))))) by lia.
  reflexivity.
Qed.

End Orchestration.

(** C3.  The status record of a job follows the state machine
    PENDING -> PROCESSING -> COMPLETED or FAILED.
    (1) An accepted submission leaves the job recorded PENDING with
    progress 0 while its background task has not started.
    (2) When the fonts are staged and the render succeeds, the background
    task leaves the job COMPLETED with progress 100 and a non-empty
    artifact location; stepping the task write by write gives the same
    records.
    (3) In every state the service reaches, a move leaves the record of a
    job as it is, or is the deletion of that job, or changes the status
    along PENDING -> PROCESSING, PROCESSING -> PROCESSING,
    PROCESSING -> COMPLETED or PROCESSING -> FAILED; a COMPLETED or FAILED
    record is never rewritten. *)
Theorem job_state_machine :
  forall P : platform,
    (forall w id req fields,
       snd (generate_video P w id req) = JSONResponse fields ->
       let w' := fst (generate_video P w id req) in
       (exists r, jobs w' !! id = Some r /\ status r = PENDING /\ progress r = 0)
       /\ (exists t, tasks w' !! id = Some t /\ t_pc t = Queued))
    /\
    (forall w a u v,
       copy_fonts_to_workdir P (a_work_dir a) = Ok u ->
       call_build_video P a (path_join P (a_work_dir a) "final_video.mp4") = Ok v ->
       (exists r p,
          jobs (process_video_job P w a) !! a_job_id a = Some r /\
          status r = COMPLETED /\ progress r = 100 /\
          video_path r = Some p /\ p <> "")
       /\ (tasks w !! a_job_id a = Some {| t_args := a; t_pc := Queued |} ->
           jobs (run_task P 3 w (a_job_id a)) = jobs (process_video_job P w a)))
    /\
    (forall w w' id r,
       reachable P w -> step P w w' -> jobs w !! id = Some r ->
       (jobs w' !! id = Some r
        \/ (w' = fst (delete_job w id) /\ jobs w' !! id = None)
        \/ (exists r', jobs w' !! id = Some r' /\ sm_next (status r) (status r')))
       /\ (terminal (status r) = true ->
           jobs w' !! id = Some r
           \/ (w' = fst (delete_job w id) /\ jobs w' !! id = None))).
Proof.
  intros P. split; [|split].
  - intros w id req fields Hresp w'.
    destruct (generate_video_accepted P w id req fields Hresp) as (a & _ & Hj & Ht).
    split.
    + eexists. split; [exact Hj|]. split; reflexivity.
    + eexists. split; [exact Ht|]. reflexivity.
  - intros w a u v Hf Hb. split.
    + eexists. eexists. split; [apply (process_video_job_success P w a u v Hf Hb)|].
      simpl. split; [reflexivity|]. split; [reflexivity|]. split; [reflexivity|].
      unfold path_join. apply append_nonempty_r, append_nonempty_r. discriminate.
    + intros Ht. apply run_task_process_video_job, Ht.
  - intros w w' id r Hreach Hstep Hr.
    pose proof (reachable_consistent P w Hreach) as Hc.
    split.
    + apply (step_record P w w' id r Hc Hstep Hr).
    + intros Hterm. apply (step_terminal P w w' id r Hc Hstep Hr Hterm).
Qed.

Lemma job_state_machine_witness :
  exists r,
    jobs (fst (generate_video demo_platform empty_world "j1" (demo_submission "1")))
      !! "j1" = Some r
    /\ status r = PENDING /\ progress r = 0.
Proof.
  apply (proj1 (job_state_machine demo_platform) empty_world "j1"
           (demo_submission "1")
           [("job_id", "j1"); ("status", "pending");
            ("message", "Votre vidéo est en cours de génération")]).
  vm_compute. reflexivity.
Defined.

(** ** Submissions with an unknown music selector *)




(** ** The subtitle compiler *)

Lemma mapM_Forall2 {A B : Type} (f : A -> result B) (l : list A) :
  (forall a, In a l -> exists b, f a = Ok b) ->
  exists bs, mapM f l = Ok bs /\ Forall2 (fun a b => f a = Ok b) l bs.
Proof.
  induction l as [|a l IH]; intros H.
  - exists []. split; [reflexivity | constructor].
  - destruct (H a (or_introl eq_refl)) as (b & Hb).
    destruct IH as (bs & Hbs & HF); [intros x Hx; apply H; right; exact Hx|].
    exists (b :: bs). split.
    + simpl. rewrite Hb. simpl. rewrite Hbs. reflexivity.
    + constructor; assumption.
Qed.

Lemma windows_concat (l : list cue) : concat (windows l) = l.
Proof.
  assert (H : forall n l, (length l < n)%nat -> concat (windows l) = l).
  { induction n as [|n IH]; intros l0 Hn; [lia|].
    destruct l0 as [|a [|b [|c rest]]]; try reflexivity.
    change (windows (a :: b :: c :: rest)) with ([a; b; c] :: windows rest).
    simpl. rewrite IH by (simpl in Hn; lia). reflexivity. }
  apply (H (S (length l))). lia.
Qed.

Lemma enumerate_snd {A : Type} (l : list A) : map snd (enumerate l) = l.
Proof.
  unfold enumerate. generalize 0%nat.
  induction l as [|a l IH]; intros n; simpl; [reflexivity|].
  rewrite IH. reflexivity.
Qed.

(** The timestamps of a cue can be formatted. *)
Definition formattable (c : cue) : Prop :=
  is_ok (format_time_ass (start c)) = true /\
  is_ok (format_time_ass (end_ c)) = true.

(** C2 fails for the styles 2 and 7 (a slip of the code: the test
    [word == ' '] is made after the style decoration was put in front of
    the word, so it never holds).  For every cue whose text is a single
    space and whose timestamps can be formatted, the compiler writes a
    dialogue line in these two styles. *)
Theorem space_cue_emitted_in_styles_2_and_7 :
  forall (str_upper : string -> string) (color_encours : string)
         (caption_number : Z) (c : cue) (ts te : string),
    caption_number = 2 \/ caption_number = 7 ->
    word c = " " ->
    format_time_ass (start c) = Ok ts ->
    format_time_ass (end_ c) = Ok te ->
    exists text,
      single_lines str_upper caption_number c = Ok [dialogue_default ts te text]
      /\ dialogue_lines str_upper color_encours caption_number [c]
         = Ok [dialogue_default ts te text].
Proof.
  intros su ce cn c ts te [-> | ->] Hw Hs He.
  - exists ("{\t(0,100,\fs110)}" +:+ " ").
    assert (H1 : single_lines su 2 c
                 = Ok [dialogue_default ts te ("{\t(0,100,\fs110)}" +:+ " ")]).
    { unfold single_lines. cbn [Z.eqb Pos.eqb]. rewrite Hw.
      change (is_space ("{\t(0,100,\fs110)}" +:+ " ")) with false.
      cbv iota. rewrite Hs, He. reflexivity. }
    split; [exact H1|].
    unfold dialogue_lines, grouped_style. cbn [Z.eqb Pos.eqb orb mapM].
    rewrite H1. reflexivity.
  - exists ("{\blur10\t(0,100,\fs110)}" +:+ su " ").
    assert (H1 : single_lines su 7 c
                 = Ok [dialogue_default ts te
                         ("{\blur10\t(0,100,\fs110)}" +:+ su " ")]).
    { unfold single_lines. cbn [Z.eqb Pos.eqb]. rewrite Hw.
      change (is_space ("{\blur10\t(0,100,\fs110)}" +:+ su " ")) with false.
      cbv iota. rewrite Hs, He. reflexivity. }
    split; [exact H1|].
    unfold dialogue_lines, grouped_style. cbn [Z.eqb Pos.eqb orb mapM].
    rewrite H1. reflexivity.
Qed.

Lemma space_cue_emitted_in_styles_2_and_7_witness :
  exists text,
    single_lines ascii_upper 2 (Cue " " half one)
    = Ok [dialogue_default "0:00:00.50" "0:00:01.00" text]
    /\ dialogue_lines ascii_upper "" 2 [Cue " " half one]
       = Ok [dialogue_default "0:00:00.50" "0:00:01.00" text].
Proof.
  apply (space_cue_emitted_in_styles_2_and_7 ascii_upper "" 2 (Cue " " half one)).
  - left. reflexivity.
  - reflexivity.
  - vm_compute. reflexivity.
  - vm_compute. reflexivity.
Defined.

(** The two lines style 6 writes for one word of a window, character by
    character: the line of layer 0 in the [Box] style, whose text starts
    with the override that hides the fill, then the line of layer 1 in the
    [Default] style, with the same start and end. *)
Definition style6_pair (p : string * string * string * string) : list string :=
  let '(word_start, word_end, text_box, text) := p in
  ["Dialogue: 0," +:+ word_start +:+ "," +:+ word_end
   +:+ ",Box,,0,0,0,,{\1a&HFF&}" +:+ text_box
   +:+ String "010"%char EmptyString;
   "Dialogue: 1," +:+ word_start +:+ "," +:+ word_end
   +:+ ",Default,,0,0,0,," +:+ text
   +:+ String "010"%char EmptyString].

(** The pair [p] carries the formatted start and end of the cue [c]. *)
Definition timed_by (c : cue) (p : string * string * string * string) : Prop :=
  let '(word_start, word_end, _, _) := p in
  format_time_ass (start c) = Ok word_start /\
  format_time_ass (end_ c) = Ok word_end.

Section Style6.

Variable str_upper : string -> string.
Variable color_encours : string.

Lemma last_In {A : Type} (l : list A) (d : A) :
  l <> [] -> In (List.last l d) l.
Proof.
  induction l as [|a [|b l] IH]; intros H.
  - congruence.
  - left. reflexivity.
  - right. apply IH. discriminate.
Qed.

Lemma window_cue_lines_6 (group : list cue) (j : nat) (sub : cue) :
  (forall c, In c group -> formattable c) ->
  In sub group ->
  exists p,
    window_cue_lines str_upper color_encours 6 group (j, sub) = Ok (style6_pair p)
    /\ timed_by sub p.
Proof.
  intros Hall Hsub. unfold window_cue_lines.
  destruct group as [|g0 rest]; [destruct Hsub|].
  destruct (Hall g0 (or_introl eq_refl)) as (Hg0 & _).
  apply is_ok_true in Hg0. destruct Hg0 as (s0 & Hs0).
  destruct (Hall (List.last (g0 :: rest) g0)) as (_ & Hgl).
  { apply last_In. discriminate. }
  apply is_ok_true in Hgl. destruct Hgl as (sl & Hsl).
  destruct (Hall sub Hsub) as (Hws & Hwe).
  apply is_ok_true in Hws. destruct Hws as (ws & Hws).
  apply is_ok_true in Hwe. destruct Hwe as (we & Hwe).
  rewrite Hs0, Hsl. cbn [bind]. rewrite Hws, Hwe. cbn [bind Z.eqb Pos.eqb].
  eexists (ws, we, _, _). split; [reflexivity|]. split; assumption.
Qed.

Lemma window_cues_6 (group : list cue) (l : list (nat * cue)) :
  (forall c, In c group -> formattable c) ->
  (forall js, In js l -> In (snd js) group) ->
  exists ps,
    mapM (window_cue_lines str_upper color_encours 6 group) l
    = Ok (map style6_pair ps)
    /\ Forall2 timed_by (map snd l) ps.
Proof.
  intros Hall. induction l as [|[j sub] l IH]; intros Hl.
  - exists []. split; [reflexivity | constructor].
  - destruct (window_cue_lines_6 group j sub Hall (Hl (j, sub) (or_introl eq_refl)))
      as (p & Hp & Htp).
    destruct IH as (ps & Hps & HF); [intros js Hjs; apply Hl; right; exact Hjs|].
    exists (p :: ps). split.
    + cbn [mapM]. rewrite Hp. cbn [bind]. rewrite Hps. reflexivity.
    + constructor; assumption.
Qed.

Lemma window_lines_6 (window : list cue) :
  (forall c, In c window -> formattable c) ->
  exists ps,
    window_lines str_upper color_encours 6 window = Ok (concat (map style6_pair ps))
    /\ Forall2 timed_by
         (List.filter (fun s => negb (is_space (word s))) window) ps.
Proof.
  intros Hall. unfold window_lines.
  set (group := List.filter (fun s => negb (is_space (word s))) window).
  destruct (window_cues_6 group (enumerate group)) as (ps & Hps & HF).
  - intros c Hc. apply Hall. apply List.filter_In in Hc. apply Hc.
  - intros js Hjs. apply (List.in_map snd) in Hjs.
    rewrite enumerate_snd in Hjs. exact Hjs.
  - exists ps. rewrite Hps. split; [reflexivity|].
    rewrite enumerate_snd in HF. exact HF.
Qed.

Lemma windows_lines_6 (ws : list (list cue)) :
  (forall c, In c (concat ws) -> formattable c) ->
  exists ps,
    (let* ls := mapM (window_lines str_upper color_encours 6) ws in Ok (concat ls))
    = Ok (concat (map style6_pair ps))
    /\ Forall2 timed_by
         (List.filter (fun s => negb (is_space (word s))) (concat ws)) ps.
Proof.
  induction ws as [|w ws IH]; intros Hall.
  - exists []. split; [reflexivity | constructor].
  - destruct (window_lines_6 w) as (ps1 & H1 & HF1).
    { intros c Hc. apply Hall. simpl. apply List.in_or_app. left. exact Hc. }
    destruct IH as (ps2 & H2 & HF2).
    { intros c Hc. apply Hall. simpl. apply List.in_or_app. right. exact Hc. }
    exists (ps1 ++ ps2). split.
    + cbn [mapM]. rewrite H1. cbn [bind].
      destruct (mapM (window_lines str_upper color_encours 6) ws) as [ls|e];
        [|discriminate].
      cbn [bind] in H2 |- *. inversion H2 as [H2'].
      rewrite List.map_app, List.concat_app. simpl. rewrite H2'. reflexivity.
    + simpl. rewrite List.filter_app. apply Forall2_app; assumption.
Qed.

End Style6.

(** C8.  In caption style 6, when the timestamps of the cues can be
    formatted, the dialogue lines of the document are, for the cues that
    are not a bare space taken in order, a box-layer line
    [Dialogue: 0,<start>,<end>,Box,,0,0,0,,{\1a&HFF&}<box text>]
    immediately followed by its text-layer line
    [Dialogue: 1,<start>,<end>,Default,,0,0,0,,<text>], the two carrying
    the same start and end, namely the formatted start and end of that
    cue.  The lines written for the window [hi], [ ], [you] are given in
    full. *)
Theorem style6_box_then_text :
  (forall (str_upper : string -> string) (color_encours : string)
          (subtitles : list cue),
     (forall c, In c subtitles -> formattable c) ->
     exists ps : list (string * string * string * string),
       dialogue_lines str_upper color_encours 6 subtitles
       = Ok (concat (map style6_pair ps))
       /\ Forall2 timed_by
            (List.filter (fun s => negb (is_space (word s))) subtitles) ps)
  /\
  dialogue_lines ascii_upper "&H0000FFFF" 6
    [Cue "hi" zero half; Cue " " half one; Cue "you" one (of_Z 2)]
  = Ok ["Dialogue: 0,0:00:00.00,0:00:00.50,Box,,0,0,0,,{\1a&HFF&}{\bord7\3c&H0000FFFF&\3a&H00&}hi{\r} you"
        +:+ String "010"%char EmptyString;
        "Dialogue: 1,0:00:00.00,0:00:00.50,Default,,0,0,0,,hi you"
        +:+ String "010"%char EmptyString;
        "Dialogue: 0,0:00:01.00,0:00:02.00,Box,,0,0,0,,{\1a&HFF&}hi {\bord7\3c&H0000FFFF&\3a&H00&}you{\r}"
        +:+ String "010"%char EmptyString;
        "Dialogue: 1,0:00:01.00,0:00:02.00,Default,,0,0,0,,hi you"
        +:+ String "010"%char EmptyString].
Proof.
  split.
  - intros su ce subtitles Hall.
    destruct (windows_lines_6 su ce (windows subtitles)) as (ps & H & HF).
    + rewrite windows_concat. exact Hall.
    + exists ps. rewrite windows_concat in HF. split; [exact H | exact HF].
  - vm_compute. reflexivity.
Qed.

Lemma style6_box_then_text_witness :
  exists ps,
    dialogue_lines ascii_upper "&H0000FFFF" 6
      [Cue "hi" zero half; Cue " " half one; Cue "you" one (of_Z 2)]
    = Ok (concat (map style6_pair ps))
    /\ Forall2 timed_by [Cue "hi" zero half; Cue "you" one (of_Z 2)] ps.
Proof.
  apply (proj1 style6_box_then_text ascii_upper "&H0000FFFF"
           [Cue "hi" zero half; Cue " " half one; Cue "you" one (of_Z 2)]).
  intros c [<-|[<-|[<-|[]]]]; split; vm_compute; reflexivity.
Defined.

(** ** The command compiler *)

Lemma append_cons (a : ascii) (s t : string) :
  String a s +:+ t = String a (s +:+ t).
Proof. reflexivity. Qed.

Lemma append_assoc (s t u : string) : (s +:+ t) +:+ u = s +:+ (t +:+ u).
Proof.
  induction s as [|a s IH]; [reflexivity|].
  rewrite !append_cons, IH. reflexivity.
Qed.

(** [s] ends with [suffix]. *)
Definition ends_with (s suffix : string) : Prop :=
  exists body, s = body +:+ suffix.

Lemma ends_with_append (a s suffix : string) :
  ends_with s suffix -> ends_with (a +:+ s) suffix.
Proof.
  intros (body & ->). exists (a +:+ body). symmetry. apply append_assoc.
Qed.

Lemma ends_with_here (a suffix : string) : ends_with (a +:+ suffix) suffix.
Proof. exists a. reflexivity. Qed.

(** How ffmpeg reads its argument list: an option that takes a value
    consumes the argument after it, whatever that argument is; the other
    arguments are flags or the output file. *)
Definition takes_value (a : string) : bool :=
  existsb (String.eqb a)
    ["-loop"; "-t"; "-i"; "-filter_complex"; "-map"; "-c:v"; "-pix_fmt"; "-r"].

Fixpoint option_values_from (opt : string) (pending : option string)
    (argv : list string) : list string :=
  match argv with
  | [] => []
  | a :: rest =>
      match pending with
      | Some o =>
          (if String.eqb o opt then [a] else [])
          ++ option_values_from opt None rest
      | None =>
          if takes_value a then option_values_from opt (Some a) rest
          else option_values_from opt None rest
      end
  end.

(** The values given to the option [opt], in order. *)
Definition option_values (opt : string) (argv : list string) : list string :=
  option_values_from opt None argv.

(** What C7 says of a command compiled for [images]: background music is
    supplied when [background_music_path] is a non-empty path, and the
    volume of the music is the float of the literal [0.10], which is
    [7205759403792794 * 2 ^ -56], as [str_float] prints it. *)
Definition command_shape (str_float : float -> string) (images : list string)
    (audio : string) (background_music_path : option string)
    (subtitle_file_ffmpeg fonts_dir_ffmpeg : string) (cmd : list string) : Prop :=
  let n := length images in
  let music : list string :=
    match background_music_path with
    | Some (String c p) => [String c p]
    | Some EmptyString | None => []
    end in
  option_values "-i" cmd = images ++ [audio] ++ music
  /\
  exists stages : list string,
    length stages = n /\
    (forall i stage, stages !! i = Some stage ->
       exists body,
         stage = "[" +:+ str_nat i +:+ ":v]scale=1080:1920:" +:+ body
         /\ ends_with body ("[v" +:+ str_nat i +:+ "];")) /\
    option_values "-filter_complex" cmd
    = [ String.concat "" stages
        +:+ (String.concat "" (map (fun i => "[v" +:+ str_nat i +:+ "]") (seq 0 n))
             +:+ "concat=n=" +:+ str_nat n +:+ ":v=1:a=0[vid];")
        +:+ ("[vid]ass='" +:+ subtitle_file_ffmpeg +:+ "':fontsdir='"
             +:+ fonts_dir_ffmpeg +:+ "'[outv];")
        +:+ match music with
            | _ :: _ =>
                "[" +:+ str_nat n +:+ ":a]volume=1.0[voice];"
                +:+ "[" +:+ str_nat (n + 1) +:+ ":a]volume="
                +:+ str_float (S754_finite false 7205759403792794 (-56))
                +:+ "[music];"
                +:+ "[voice][music]amix=inputs=2:duration=shortest[audio_out]"
            | [] => "[" +:+ str_nat n +:+ ":a]volume=1.0[audio_out]"
            end ].

Lemma MUSIC_VOLUME_value :
  MUSIC_VOLUME = S754_finite false 7205759403792794 (-56).
Proof. vm_compute. reflexivity. Qed.

Section CommandFacts.

Variable str_float : float -> string.

Lemma chromatic_effect_label (i : nat) (is_chromatic : string) :
  ends_with (chromatic_effect i is_chromatic) ("[v" +:+ str_nat i +:+ "];").
Proof.
  unfold chromatic_effect. cbv zeta.
  destruct (String.eqb is_chromatic "oui").
  - repeat (lazymatch goal with
            | |- ends_with (_ +:+ str_nat _ +:+ "];") _ => fail
            | |- _ => apply ends_with_append
            end).
    exists "_4]hstack=inputs=5". reflexivity.
  - exists "null". reflexivity.
Qed.

Lemma animation_label (choice : preset) (duration width height : Z) (i : nat)
    (duration_per_image : float) (is_chromatic is_zoom_pan : string) :
  ends_with
    (get_random_animation str_float choice duration width height i
       duration_per_image is_chromatic is_zoom_pan)
    ("[v" +:+ str_nat i +:+ "];").
Proof.
  pose proof (chromatic_effect_label i is_chromatic) as H.
  unfold get_random_animation.
  destruct (String.eqb is_zoom_pan "non"); [|destruct choice];
    repeat apply ends_with_append; exact H.
Qed.

Lemma image_stage_shape (choices : nat -> preset)
    (is_chromatic_effect is_zoom_pan : string) (i : nat) (d : float)
    (stage : string) :
  image_stage str_float choices is_chromatic_effect is_zoom_pan (i, d) = Ok stage ->
  exists body,
    stage = "[" +:+ str_nat i +:+ ":v]scale=1080:1920:" +:+ body
    /\ ends_with body ("[v" +:+ str_nat i +:+ "];").
Proof.
  unfold image_stage. intros H. apply bind_ok in H.
  destruct H as (frames & _ & H). inversion H as [Hs]. clear H Hs.
  exists ("force_original_aspect_ratio=decrease,"
          +:+ "pad=1080:1920:(ow-iw)/2:(oh-ih)/2,format=yuv420p,"
          +:+ get_random_animation str_float (choices i) frames WIDTH HEIGHT i d
                is_chromatic_effect is_zoom_pan).
  split.
  - unfold scale_stage. rewrite !append_assoc. reflexivity.
  - do 2 apply ends_with_append. apply animation_label.
Qed.

End CommandFacts.

Lemma mapM_ok_Forall2 {A B : Type} (f : A -> result B) (l : list A)
    (bs : list B) :
  mapM f l = Ok bs -> Forall2 (fun a b => f a = Ok b) l bs.
Proof.
  revert bs. induction l as [|a l IH]; intros bs H.
  - inversion H. constructor.
  - cbn [mapM] in H. apply bind_ok in H. destruct H as (b & Hb & H).
    apply bind_ok in H. destruct H as (bs' & Hbs & H). inversion H.
    constructor; [exact Hb | apply IH, Hbs].
Qed.

Section CommandShape.

Variable str_float : float -> string.

Lemma scan_inputs (inputs : list (list string)) (l : list (nat * string))
    (durations : list float) (rest : list string) :
  Forall2 (fun (ii : nat * string) (input : list string) =>
             (let* d := index durations (fst ii) in
              Ok (image_input str_float d (snd ii))) = Ok input)
          l inputs ->
  option_values_from "-i" None (concat inputs ++ rest)
  = map snd l ++ option_values_from "-i" None rest
  /\ option_values_from "-filter_complex" None (concat inputs ++ rest)
     = option_values_from "-filter_complex" None rest.
Proof.
  induction 1 as [|[i img] input l inputs Hin _ IH].
  - split; reflexivity.
  - apply bind_ok in Hin. destruct Hin as (d & _ & Hin).
    inversion Hin as [Hi]. clear Hin Hi.
    destruct IH as (IH1 & IH2). split.
    + transitivity (img :: option_values_from "-i" None (concat inputs ++ rest));
        [reflexivity|].
      rewrite IH1. reflexivity.
    + transitivity (option_values_from "-filter_complex" None
                      (concat inputs ++ rest)); [reflexivity|].
      exact IH2.
Qed.

Definition output_options (output_path : string) : list string :=
  ["-map"; "[outv]"; "-map"; "[audio_out]"; "-c:v"; "libx264";
   "-pix_fmt"; "yuv420p"; "-r"; str_Z FPS; "-shortest"; output_path].

Lemma scan_output_options (opt output_path : string) :
  opt = "-i" \/ opt = "-filter_complex" ->
  option_values_from opt None (output_options output_path) = [].
Proof.
  intros [-> | ->]; unfold output_options; simpl;
    destruct (takes_value output_path); reflexivity.
Qed.

Lemma compile_command_shape (choices : nat -> preset) (images : list string)
    (audio : string) (durations : list float) (is_zoom_pan : string)
    (background_music_path : option string) (is_chromatic_effect : string)
    (subtitle_file_ffmpeg fonts_dir_ffmpeg output_path : string)
    (cmd : list string) :
  compile_command str_float choices images audio durations is_zoom_pan
    background_music_path is_chromatic_effect subtitle_file_ffmpeg
    fonts_dir_ffmpeg output_path = Ok cmd ->
  command_shape str_float images audio background_music_path
    subtitle_file_ffmpeg fonts_dir_ffmpeg cmd.
Proof.
  unfold compile_command. intros H.
  apply bind_ok in H. destruct H as (inputs & Hin & H).
  apply bind_ok in H. destruct H as (stages & Hst & H).
  injection H as <-.
  apply mapM_ok_Forall2 in Hin. apply mapM_ok_Forall2 in Hst.
  set (rest := "-i" :: audio :: _).
  destruct (scan_inputs inputs (enumerate images) durations rest Hin) as (S1 & S2).
  unfold command_shape. split.
  - change (option_values "-i" ("ffmpeg" :: "-y" :: concat inputs ++ rest))
      with (option_values_from "-i" None (concat inputs ++ rest)).
    rewrite S1, enumerate_snd. f_equal. unfold rest.
    destruct background_music_path as [[|c p]|].
    + transitivity
        (audio :: option_values_from "-i" None (output_options output_path));
        [reflexivity|].
      rewrite scan_output_options by (left; reflexivity). reflexivity.
    + transitivity
        (audio :: String c p
           :: option_values_from "-i" None (output_options output_path));
        [reflexivity|].
      rewrite scan_output_options by (left; reflexivity). reflexivity.
    + transitivity
        (audio :: option_values_from "-i" None (output_options output_path));
        [reflexivity|].
      rewrite scan_output_options by (left; reflexivity). reflexivity.
  - exists stages. split; [|split].
    + apply Forall2_length in Hst. rewrite length_seq in Hst. symmetry. exact Hst.
    + intros i stage Hi.
      destruct (Forall2_lookup_r _ _ _ _ _ Hst Hi) as (k & Hk & Hf).
      apply lookup_seq in Hk. destruct Hk as (-> & _). simpl in Hf.
      apply bind_ok in Hf. destruct Hf as (d & _ & Hf).
      eapply image_stage_shape. exact Hf.
    + change (option_values "-filter_complex"
                ("ffmpeg" :: "-y" :: concat inputs ++ rest))
        with (option_values_from "-filter_complex" None (concat inputs ++ rest)).
      rewrite S2. unfold rest, audio_stage. rewrite MUSIC_VOLUME_value.
      destruct background_music_path as [[|c p]|].
      * match goal with
        | |- option_values_from _ _ (_ :: _ :: _ ++ _ :: ?g :: _) = _ =>
            transitivity
              (g :: option_values_from "-filter_complex" None
                      (output_options output_path)); [reflexivity|]
        end.
        rewrite scan_output_options by (right; reflexivity). reflexivity.
      * match goal with
        | |- option_values_from _ _ (_ :: _ :: _ ++ _ :: ?g :: _) = _ =>
            transitivity
              (g :: option_values_from "-filter_complex" None
                      (output_options output_path)); [reflexivity|]
        end.
        rewrite scan_output_options by (right; reflexivity). reflexivity.
      * match goal with
        | |- option_values_from _ _ (_ :: _ :: _ ++ _ :: ?g :: _) = _ =>
            transitivity
              (g :: option_values_from "-filter_complex" None
                      (output_options output_path)); [reflexivity|]
        end.
        rewrite scan_output_options by (right; reflexivity). reflexivity.
Qed.

Lemma compile_command_total (choices : nat -> preset) (images : list string)
    (audio : string) (durations : list float) (is_zoom_pan : string)
    (background_music_path : option string) (is_chromatic_effect : string)
    (subtitle_file_ffmpeg fonts_dir_ffmpeg output_path : string) :
  length durations = length images ->
  (forall d, In d durations -> is_ok (py_int (mul d (of_Z FPS))) = true) ->
  exists cmd,
    compile_command str_float choices images audio durations is_zoom_pan
      background_music_path is_chromatic_effect subtitle_file_ffmpeg
      fonts_dir_ffmpeg output_path = Ok cmd.
Proof.
  intros Hlen Hok. unfold compile_command.
  assert (Hidx : forall i, (i < length images)%nat ->
                   exists d, index durations i = Ok d /\ In d durations).
  { intros i Hi. unfold index.
    destruct (lookup_lt_is_Some_2 durations i) as (d & Hd); [lia|].
    rewrite Hd. exists d. split; [reflexivity|].
    apply list_elem_of_In. eapply list_elem_of_lookup_2. exact Hd. }
  destruct (mapM_Forall2
              (fun ii : nat * string =>
                 let* d := index durations (fst ii) in
                 Ok (image_input str_float d (snd ii)))
              (enumerate images)) as (inputs & Hin & _).
  { intros [i img] Hii. unfold enumerate in Hii.
    apply List.in_combine_l in Hii. apply List.in_seq in Hii.
    destruct (Hidx i) as (d & Hd & _); [lia|].
    simpl. rewrite Hd. eexists. reflexivity. }
  destruct (mapM_Forall2
              (fun i : nat =>
                 let* d := index durations i in
                 image_stage str_float choices is_chromatic_effect is_zoom_pan (i, d))
              (seq 0 (length images))) as (stages & Hst & _).
  { intros i Hi. apply List.in_seq in Hi.
    destruct (Hidx i) as (d & Hd & Hind); [lia|].
    rewrite Hd. cbn [bind]. unfold image_stage.
    specialize (Hok d Hind). apply is_ok_true in Hok.
    destruct Hok as (frames & Hfr). rewrite Hfr. eexists. reflexivity. }
  rewrite Hin. cbn [bind]. rewrite Hst. cbn [bind]. eexists. reflexivity.
Qed.

End CommandShape.

Lemma image_durations_length (n : nat) (image_start_times : list float)
    (audio_duration : float) (ds : list float) :
  image_durations n image_start_times audio_duration = Ok ds -> length ds = n.
Proof.
  unfold image_durations. intros H. apply mapM_ok_Forall2 in H.
  apply Forall2_length in H. rewrite length_seq in H. symmetry. exact H.
Qed.

(** C7.  A command compiled for N images names, as [-i] inputs and in this
    order, the N images, the narration and, exactly when background music
    is supplied (a non-empty path), the music; its filter graph is made of
    N image stages, the [i]-th starting with the scale of input [i] and
    ending with the label [[v i]], one concat stage naming the labels
    [[v0]] ... [[v N-1]] in index order with [n=N], the subtitle stage, and
    an audio stage on input N alone at volume 1.0 or on the inputs N
    (volume 1.0) and N + 1 (the volume the literal 0.10 denotes) mixed with
    [duration=shortest].  The compilation succeeds when there is a
    duration per image whose frame count is finite, and every command
    [build_video] runs has this shape.  With the digits Python prints, the
    music stage reads [volume=0.1]: the commands compiled for two images
    with music and for one image without are written out. *)
Theorem compiled_command_shape :
  forall (str_float : float -> string),
    (forall (choices : nat -> preset) (images : list string) (audio : string)
            (durations : list float) (is_zoom_pan : string)
            (background_music_path : option string)
            (is_chromatic_effect : string)
            (subtitle_file_ffmpeg fonts_dir_ffmpeg output_path : string),
       length durations = length images ->
       (forall d, In d durations -> is_ok (py_int (mul d (of_Z FPS))) = true) ->
       exists cmd,
         compile_command str_float choices images audio durations is_zoom_pan
           background_music_path is_chromatic_effect subtitle_file_ffmpeg
           fonts_dir_ffmpeg output_path = Ok cmd
         /\ command_shape str_float images audio background_music_path
              subtitle_file_ffmpeg fonts_dir_ffmpeg cmd)
    /\
    (forall (py_float : string -> result float) (str_upper : string -> string)
            (os_path_join : string -> string -> string)
            (get_audio_duration : string -> result float)
            (run_ffmpeg : list string -> result unit)
            (choices : nat -> preset) (images : list string)
            (audio subtitles_string : string) (image_start_times : list float)
            (caption_number : Z) (color_stt color_encours is_zoom_pan : string)
            (background_music_path : option string)
            (is_chromatic_effect output_path work_dir : string)
            (document cmd : list string),
       build_video py_float str_float str_upper os_path_join
         get_audio_duration run_ffmpeg choices images audio subtitles_string
         image_start_times caption_number color_stt color_encours is_zoom_pan
         background_music_path is_chromatic_effect output_path work_dir
       = Ok (document, cmd) ->
       command_shape str_float images audio background_music_path
         (ffmpeg_path (os_path_join work_dir "subtitles.ass"))
         (ffmpeg_path work_dir) cmd)
    /\
    compile_command float_repr (fun _ => PanHorizontal)
      ["a.png"; "b.png"] "voice.mp3" [of_Z 3; div (of_Z 9) (of_Z 2)] "non"
      (Some "music.mp3") "non" "w/subtitles.ass" "w" "out.mp4"
    = Ok ["ffmpeg"; "-y";
          "-loop"; "1"; "-t"; "3.0"; "-i"; "a.png";
          "-loop"; "1"; "-t"; "4.5"; "-i"; "b.png";
          "-i"; "voice.mp3";
          "-i"; "music.mp3";
          "-filter_complex";
          "[0:v]scale=1080:1920:force_original_aspect_ratio=decrease,"
          +:+ "pad=1080:1920:(ow-iw)/2:(oh-ih)/2,format=yuv420p,"
          +:+ "trim=duration=3.0,null[v0];"
          +:+ "[1:v]scale=1080:1920:force_original_aspect_ratio=decrease,"
          +:+ "pad=1080:1920:(ow-iw)/2:(oh-ih)/2,format=yuv420p,"
          +:+ "trim=duration=4.5,null[v1];"
          +:+ "[v0][v1]concat=n=2:v=1:a=0[vid];"
          +:+ "[vid]ass='w/subtitles.ass':fontsdir='w'[outv];"
          +:+ "[2:a]volume=1.0[voice];"
          +:+ "[3:a]volume=0.1[music];"
          +:+ "[voice][music]amix=inputs=2:duration=shortest[audio_out]";
          "-map"; "[outv]"; "-map"; "[audio_out]"; "-c:v"; "libx264";
          "-pix_fmt"; "yuv420p"; "-r"; "60"; "-shortest"; "out.mp4"]
    /\
    compile_command float_repr (fun _ => PanHorizontal)
      ["a.png"] "voice.mp3" [of_Z 3] "non" None "non" "w/subtitles.ass" "w"
      "out.mp4"
    = Ok ["ffmpeg"; "-y";
          "-loop"; "1"; "-t"; "3.0"; "-i"; "a.png";
          "-i"; "voice.mp3";
          "-filter_complex";
          "[0:v]scale=1080:1920:force_original_aspect_ratio=decrease,"
          +:+ "pad=1080:1920:(ow-iw)/2:(oh-ih)/2,format=yuv420p,"
          +:+ "trim=duration=3.0,null[v0];"
          +:+ "[v0]concat=n=1:v=1:a=0[vid];"
          +:+ "[vid]ass='w/subtitles.ass':fontsdir='w'[outv];"
          +:+ "[1:a]volume=1.0[audio_out]";
          "-map"; "[outv]"; "-map"; "[audio_out]"; "-c:v"; "libx264";
          "-pix_fmt"; "yuv420p"; "-r"; "60"; "-shortest"; "out.mp4"].
Proof.
  intros sf. split; [|split; [|split]].
  - intros choices images audio durations zoom music chroma sub fonts out Hlen Hok.
    destruct (compile_command_total sf choices images audio durations zoom music
                chroma sub fonts out Hlen Hok) as (cmd & Hcmd).
    exists cmd. split; [exact Hcmd|].
    eapply compile_command_shape. exact Hcmd.
  - intros pf su join probe run choices images audio subs starts cn c1 c2 zoom
           music chroma out wd document cmd H.
    unfold build_video in H.
    apply bind_ok in H. destruct H as (cues & _ & H).
    apply bind_ok in H. destruct H as (doc & _ & H).
    apply bind_ok in H. destruct H as (dur & _ & H).
    apply bind_ok in H. destruct H as (ds & _ & H).
    apply bind_ok in H. destruct H as (cmd' & Hcmd & H).
    apply bind_ok in H. destruct H as (u & _ & H).
    injection H as _ <-.
    eapply compile_command_shape. exact Hcmd.
  - vm_compute. reflexivity.
  - vm_compute. reflexivity.
Qed.

Lemma compiled_command_shape_witness :
  exists cmd,
    compile_command float_repr (fun _ => PanHorizontal)
      ["a.png"; "b.png"] "voice.mp3" [of_Z 3; of_Z 4] "oui"
      (Some "music.mp3") "oui" "w/subtitles.ass" "w" "out.mp4" = Ok cmd
    /\ command_shape float_repr ["a.png"; "b.png"] "voice.mp3"
         (Some "music.mp3") "w/subtitles.ass" "w" cmd.
Proof.
  apply (proj1 (compiled_command_shape float_repr)).
  - reflexivity.
  - intros d [<-|[<-|[]]]; vm_compute; reflexivity.
Defined.

(** * Further properties of the code *)

(** ** Signs of rounded results *)

Section Rounding.

Lemma iter_pos_invariant {A : Type} (f : A -> A) (Q : A -> Prop) :
  (forall x, Q x -> Q (f x)) ->
  forall (p : positive) (x : A), Q x -> Q (SpecFloat.iter_pos f p x).
Proof.
  intros Hf. induction p as [p IH|p IH|]; intros x Hx; simpl; auto.
Qed.

Lemma shr_1_nonneg (mrs : shr_record) : 0 <= shr_m mrs -> 0 <= shr_m (shr_1 mrs).
Proof.
  destruct mrs as [m r s]. simpl. intros Hm.
  destruct m as [|[p|p|]|p]; simpl; lia.
Qed.

Lemma shr_nonneg (mrs : shr_record) (e n : Z) :
  0 <= shr_m mrs -> 0 <= shr_m (fst (shr mrs e n)).
Proof.
  intros Hm. unfold shr. destruct n as [|p|p]; simpl; auto.
  apply iter_pos_invariant; [apply shr_1_nonneg | exact Hm].
Qed.

Lemma shr_fexp_nonneg (m e : Z) (l : location) :
  0 <= m -> 0 <= shr_m (fst (shr_fexp prec emax m e l)).
Proof.
  intros Hm. unfold shr_fexp. apply shr_nonneg.
  destruct l as [|[| |]]; simpl; exact Hm.
Qed.

Lemma round_nearest_even_nonneg (m : Z) (l : location) :
  0 <= m -> 0 <= round_nearest_even m l.
Proof.
  intros Hm. unfold round_nearest_even.
  destruct l as [|[| |]]; try destruct (Z.even m); lia.
Qed.

(** A float that is not negative and not a NaN: a zero, or a finite
    value or an infinity with the sign bit clear. *)
Definition signless (x : float) : Prop :=
  match x with
  | S754_zero _ => True
  | S754_finite s _ _ | S754_infinity s => s = false
  | S754_nan => False
  end.

Lemma signless_nonneg (x : float) : signless x -> leb zero x = true.
Proof.
  destruct x as [s|s| |s m e]; simpl; intros H; try subst s; try reflexivity.
  destruct H.
Qed.

Lemma binary_round_aux_signless (m e : Z) (l : location) :
  0 <= m -> signless (binary_round_aux prec emax false m e l).
Proof.
  intros Hm. unfold binary_round_aux.
  pose proof (shr_fexp_nonneg m e l Hm) as H1.
  destruct (shr_fexp prec emax m e l) as [mrs' e'] eqn:E1. simpl in H1.
  pose proof (shr_fexp_nonneg
                (round_nearest_even (shr_m mrs') (loc_of_shr_record mrs'))
                e' loc_Exact (round_nearest_even_nonneg _ _ H1)) as H2.
  destruct (shr_fexp prec emax _ e' loc_Exact) as [mrs'' e''] eqn:E2.
  simpl in H2.
  destruct (shr_m mrs'') as [|p|p]; simpl; [exact I| |lia].
  destruct (e'' <=? emax - prec); reflexivity.
Qed.

Lemma binary_normalize_signless (m e : Z) :
  0 <= m -> signless (binary_normalize prec emax m e false).
Proof.
  intros Hm. unfold binary_normalize. destruct m as [|p|p]; [exact I| |lia].
  unfold binary_round.
  destruct (shl_align p e _) as [mz ez].
  apply binary_round_aux_signless. lia.
Qed.

Lemma pos_iter_xO (m d : positive) :
  Zpos (Pos.iter xO m d) = Zpos m * 2 ^ Zpos d.
Proof.
  induction d as [|d IH] using Pos.peano_ind.
  - simpl. lia.
  - rewrite Pos.iter_succ, Pos2Z.inj_xO, IH, Pos2Z.inj_succ, Z.pow_succ_r by lia.
    lia.
Qed.

Lemma shl_align_value (m : positive) (e e' : Z) :
  e' <= e -> Zpos (fst (shl_align m e e')) = Zpos m * 2 ^ (e - e').
Proof.
  intros He. unfold shl_align.
  destruct (e' - e) as [|d|d] eqn:Hd; simpl.
  - replace (e - e') with 0 by lia. lia.
  - lia.
  - rewrite pos_iter_xO. f_equal. f_equal. lia.
Qed.

Lemma digits2_pos_size (m : positive) : digits2_pos m = Pos.size m.
Proof. induction m; simpl; congruence. Qed.

Lemma digits2_bounds (m : positive) :
  2 ^ (Zpos (digits2_pos m) - 1) <= Zpos m < 2 ^ Zpos (digits2_pos m).
Proof.
  rewrite digits2_pos_size. split.
  - pose proof (Pos.size_le m) as H.
    assert (H' : 2 ^ Zpos (Pos.size m) <= 2 * Zpos m).
    { change (2 * Zpos m) with (Zpos m~0).
      change 2 with (Zpos 2) at 1. rewrite <- Pos2Z.inj_pow.
      apply Pos2Z.pos_le_pos. exact H. }
    replace (Zpos (Pos.size m)) with (Z.succ (Zpos (Pos.size m) - 1)) in H' by lia.
    rewrite Z.pow_succ_r in H' by lia. lia.
  - pose proof (Pos.size_gt m) as H.
    change 2 with (Zpos 2). rewrite <- Pos2Z.inj_pow.
    apply Pos2Z.pos_lt_pos. exact H.
Qed.

(** Of two canonical mantissas, the one with the smaller exponent is the
    smaller number. *)
Lemma canonical_exponent_order (m1 m2 : positive) (e1 e2 : Z) :
  canonical_mantissa prec emax m1 e1 = true ->
  canonical_mantissa prec emax m2 e2 = true ->
  e1 < e2 ->
  Zpos m1 < Zpos m2 * 2 ^ (e2 - e1).
Proof.
  unfold canonical_mantissa, fexp, SpecFloat.emin, prec, emax.
  intros H1 H2 He. apply Z.eqb_eq in H1, H2.
  pose proof (digits2_bounds m1) as (_ & B1).
  pose proof (digits2_bounds m2) as (B2 & _).
  assert (D1 : Zpos (digits2_pos m1) <= 53) by lia.
  assert (D2 : Zpos (digits2_pos m2) = 53) by lia.
  rewrite D2 in B2.
  assert (Zpos m1 < 2 ^ 53).
  { eapply Z.lt_le_trans; [exact B1|]. apply Z.pow_le_mono_r; lia. }
  assert (2 ^ 1 <= 2 ^ (e2 - e1)) by (apply Z.pow_le_mono_r; lia).
  change (2 ^ (53 - 1)) with 4503599627370496 in B2.
  change (2 ^ 53) with 9007199254740992 in *.
  change (2 ^ 1) with 2 in *.
  nia.
Qed.

End Rounding.


Lemma compare_cont_Eq_le (m1 m2 : positive) :
  PosDef.Pos.compare_cont Eq m1 m2 <> Gt -> Zpos m1 <= Zpos m2.
Proof.
  intros H. change (PosDef.Pos.compare_cont Eq m1 m2) with (Pos.compare m1 m2) in H.
  apply Pos.compare_le_iff in H. apply Pos2Z.pos_le_pos. exact H.
Qed.

Lemma compare_cont_Eq_ge (m1 m2 : positive) :
  PosDef.Pos.compare_cont Eq m1 m2 <> Lt -> Zpos m2 <= Zpos m1.
Proof.
  intros H. change (PosDef.Pos.compare_cont Eq m1 m2) with (Pos.compare m1 m2) in H.
  apply Pos.compare_ge_iff in H.
  apply Pos2Z.pos_le_pos. exact H.
Qed.

Lemma valid_canonical (s : bool) (m : positive) (e : Z) :
  valid (S754_finite s m e) = true -> canonical_mantissa prec emax m e = true.
Proof.
  unfold valid, valid_binary, bounded. intros H.
  apply andb_true_iff in H. apply H.
Qed.

(** The aligned difference of two finite floats in increasing order. *)
Lemma aligned_difference_nonneg (sa sb : bool) (ma mb : positive) (ea eb : Z) :
  valid (S754_finite sa ma ea) = true ->
  valid (S754_finite sb mb eb) = true ->
  leb (S754_finite sa ma ea) (S754_finite sb mb eb) = true ->
  0 <= cond_Zopp sb (Zpos (fst (shl_align mb eb (Z.min eb ea))))
       - cond_Zopp sa (Zpos (fst (shl_align ma ea (Z.min eb ea)))).
Proof.
  intros Va Vb Hle.
  apply valid_canonical in Va, Vb.
  rewrite !shl_align_value by lia.
  assert (Pa : 0 < Zpos ma * 2 ^ (ea - Z.min eb ea))
    by (apply Z.mul_pos_pos; [lia | apply Z.pow_pos_nonneg; lia]).
  assert (Pb : 0 < Zpos mb * 2 ^ (eb - Z.min eb ea))
    by (apply Z.mul_pos_pos; [lia | apply Z.pow_pos_nonneg; lia]).
  unfold leb, SFleb, SFcompare in Hle.
  destruct sa, sb; simpl cond_Zopp; try lia; try discriminate.
  - (* both negative *)
    destruct (Z.compare_spec ea eb) as [E|E|E]; try discriminate.
    + subst eb. rewrite Z.min_id, Z.sub_diag. simpl.
      assert (Zpos mb <= Zpos ma).
      { apply compare_cont_Eq_ge. intros C. rewrite C in Hle. discriminate. }
      lia.
    + rewrite Z.min_l by lia. rewrite Z.sub_diag, Z.mul_1_r.
      pose proof (canonical_exponent_order mb ma eb ea Vb Va E). lia.
  - (* both positive *)
    destruct (Z.compare_spec ea eb) as [E|E|E]; try discriminate.
    + subst eb. rewrite Z.min_id, Z.sub_diag. simpl.
      assert (Zpos ma <= Zpos mb).
      { apply compare_cont_Eq_le. intros C. rewrite C in Hle. discriminate. }
      lia.
    + rewrite Z.min_r by lia. rewrite Z.sub_diag, Z.mul_1_r.
      pose proof (canonical_exponent_order ma mb ea eb Va Vb E). lia.
Qed.

(** Subtracting the smaller of two finite floats from the larger never
    gives a negative result. *)
Lemma sub_nonneg (a b : float) :
  valid a = true -> valid b = true ->
  is_finite a = true -> is_finite b = true ->
  leb a b = true ->
  signless (sub b a).
Proof.
  intros Va Vb Fa Fb Hle.
  destruct a as [sa|sa| |sa ma ea]; try discriminate;
    destruct b as [sb|sb| |sb mb eb]; try discriminate.
  - destruct sa, sb; exact I.
  - simpl. destruct sb; [discriminate | reflexivity].
  - simpl. destruct sa; [reflexivity | discriminate].
  - unfold sub, SFsub. cbv zeta.
    apply binary_normalize_signless.
    apply aligned_difference_nonneg; assumption.
Qed.

(** ** Display durations *)

Lemma index_ok_inv {A : Type} (l : list A) (i : nat) (a : A) :
  index l i = Ok a -> l !! i = Some a.
Proof. unfold index. destruct (l !! i); intros H; inversion H; reflexivity. Qed.

Lemma index_in_range {A : Type} (l : list A) (i : nat) :
  (i < length l)%nat -> exists a, index l i = Ok a /\ l !! i = Some a.
Proof.
  intros H. destruct (lookup_lt_is_Some_2 l i H) as (a & Ha).
  exists a. unfold index. rewrite Ha. auto.
Qed.

Lemma index_out_of_range {A : Type} (l : list A) (i : nat) :
  (length l <= i)%nat -> index l i = Raise (IndexError "list index out of range").
Proof.
  intros H. unfold index. rewrite (lookup_ge_None_2 l i H). reflexivity.
Qed.

(** A loop whose passes can only raise [e] raises [e] as soon as one pass
    does. *)
Lemma mapM_raise {A B : Type} (f : A -> result B) (l : list A) (e : exn) :
  (forall a, In a l -> is_ok (f a) = true \/ f a = Raise e) ->
  (exists a, In a l /\ f a = Raise e) ->
  mapM f l = Raise e.
Proof.
  induction l as [|a l IH]; intros Hall (x & Hx & Hfx); [destruct Hx|].
  cbn [mapM]. destruct (Hall a (or_introl eq_refl)) as [Hok | Hr].
  - apply is_ok_true in Hok. destruct Hok as (b & Hb). rewrite Hb. cbn [bind].
    rewrite IH; [reflexivity | |].
    + intros y Hy. apply Hall. right. exact Hy.
    + destruct Hx as [<- | Hx]; [congruence|]. exists x. auto.
  - rewrite Hr. reflexivity.
Qed.

Lemma image_duration_cases (n : nat) (ts : list float) (audio : float) (i : nat) :
  is_ok (image_duration n ts audio i) = true
  \/ image_duration n ts audio i = Raise (IndexError "list index out of range").
Proof.
  unfold image_duration, index.
  destruct (S i <? n)%nat.
  - destruct (ts !! S i); [|right; reflexivity].
    destruct (ts !! i); [left | right]; reflexivity.
  - destruct (ts !! i); [left | right]; reflexivity.
Qed.

Lemma image_duration_defined (n : nat) (ts : list float) (audio : float) (i : nat) :
  (i < n)%nat -> (n <= length ts)%nat ->
  exists d, image_duration n ts audio i = Ok d.
Proof.
  intros Hi Hn. unfold image_duration.
  destruct (index_in_range ts i) as (this & Hthis & _); [lia|].
  destruct (Nat.ltb_spec (S i) n).
  - destruct (index_in_range ts (S i)) as (next & Hnext & _); [lia|].
    rewrite Hnext, Hthis. eexists. reflexivity.
  - rewrite Hthis. eexists. reflexivity.
Qed.

Lemma image_durations_defined (n : nat) (ts : list float) (audio : float) :
  (n <= length ts)%nat ->
  exists ds, image_durations n ts audio = Ok ds /\ length ds = n.
Proof.
  intros Hn.
  destruct (mapM_Forall2 (image_duration n ts audio) (seq 0 n)) as (ds & Hds & HF).
  - intros i Hi. apply List.in_seq in Hi. apply image_duration_defined; lia.
  - exists ds. split; [exact Hds|].
    apply Forall2_length in HF. rewrite length_seq in HF. auto.
Qed.

Lemma image_durations_short (n : nat) (ts : list float) (audio : float) :
  (length ts < n)%nat ->
  image_durations n ts audio = Raise (IndexError "list index out of range").
Proof.
  intros Hn. unfold image_durations. apply mapM_raise.
  - intros i _. apply image_duration_cases.
  - exists (n - 1)%nat. split; [apply List.in_seq; lia|].
    unfold image_duration.
    replace (S (n - 1) <? n)%nat with false
      by (symmetry; apply Nat.ltb_ge; lia).
    rewrite index_out_of_range by lia. reflexivity.
Qed.

Lemma reconcile_length (ts : list float) (n : nat) : length (reconcile ts n) = n.
Proof.
  unfold reconcile.
  destruct (Nat.eqb_spec (length ts) n); [assumption|].
  destruct (Nat.ltb_spec n (length ts)).
  - rewrite length_firstn. lia.
  - rewrite length_app, synthesize_length. lia.
Qed.

(** X1.  The loop that computes the display durations goes out of range
    exactly when there are fewer start times than images: it then raises
    IndexError, and otherwise it returns one duration per image. *)
Theorem image_durations_index_error :
  forall (n : nat) (ts : list float) (audio : float),
    (image_durations n ts audio = Raise (IndexError "list index out of range")
     <-> (length ts < n)%nat)
    /\ ((n <= length ts)%nat ->
        exists ds, image_durations n ts audio = Ok ds /\ length ds = n).
Proof.
  intros n ts audio. split; [split|].
  - intros H. destruct (Nat.lt_ge_cases (length ts) n) as [Hlt|Hge]; [exact Hlt|].
    destruct (image_durations_defined n ts audio Hge) as (ds & Hds & _).
    congruence.
  - apply image_durations_short.
  - apply image_durations_defined.
Qed.

Lemma image_durations_index_error_witness :
  image_durations 3 [of_Z 0; of_Z 4] (of_Z 10)
  = Raise (IndexError "list index out of range").
Proof.
  apply (proj1 (image_durations_index_error 3 [of_Z 0; of_Z 4] (of_Z 10))).
  simpl. lia.
Defined.

(** After the reconciliation of [generate_video] the duration loop of
    [build_video] never goes out of range: whatever start times were
    supplied, it returns one duration per image. *)
Lemma reconciled_durations_defined :
  forall (ts : list float) (n : nat) (audio : float),
    exists ds,
      image_durations n (reconcile ts n) audio = Ok ds /\ length ds = n.
Proof.
  intros ts n audio. apply image_durations_defined.
  rewrite reconcile_length. lia.
Qed.

Lemma image_durations_lookup (n : nat) (ts : list float) (audio : float)
    (ds : list float) (i : nat) (d : float) :
  image_durations n ts audio = Ok ds -> ds !! i = Some d ->
  (i < n)%nat /\ image_duration n ts audio i = Ok d.
Proof.
  unfold image_durations. intros H Hd. apply mapM_ok_Forall2 in H.
  destruct (Forall2_lookup_r _ _ _ _ _ H Hd) as (k & Hk & Hf).
  apply lookup_seq in Hk. destruct Hk as (-> & Hlt). simpl in Hf. auto.
Qed.

(** X2.  When the start times are finite and in non-decreasing order and
    the last image starts no later than the narration ends, no display
    duration is negative. *)
Theorem ordered_start_times_nonneg_durations :
  forall (n : nat) (ts : list float) (audio : float) (ds : list float),
    image_durations n ts audio = Ok ds ->
    (forall t, In t ts -> valid t = true /\ is_finite t = true) ->
    valid audio = true -> is_finite audio = true ->
    (forall i x y, ts !! i = Some x -> ts !! S i = Some y -> leb x y = true) ->
    (forall x, ts !! (n - 1)%nat = Some x -> leb x audio = true) ->
    forall d, In d ds -> leb zero d = true.
Proof.
  intros n ts audio ds Hds Hts Va Fa Hord Hlast d Hd.
  apply list_elem_of_In, list_elem_of_lookup_1 in Hd. destruct Hd as (i & Hi).
  destruct (image_durations_lookup n ts audio ds i d Hds Hi) as (Hlt & Hdur).
  assert (Hin : forall k x, ts !! k = Some x -> valid x = true /\ is_finite x = true).
  { intros k x Hx. apply Hts, list_elem_of_In. eapply list_elem_of_lookup_2, Hx. }
  apply signless_nonneg.
  unfold image_duration in Hdur. destruct (Nat.ltb_spec (S i) n).
  - apply bind_ok in Hdur. destruct Hdur as (next & Hnext & Hdur).
    apply bind_ok in Hdur. destruct Hdur as (this & Hthis & Hdur).
    injection Hdur as <-.
    apply index_ok_inv in Hnext, Hthis.
    destruct (Hin _ _ Hnext) as (Vn & Fn). destruct (Hin _ _ Hthis) as (Vt & Ft).
    apply sub_nonneg; auto. eapply Hord; eassumption.
  - apply bind_ok in Hdur. destruct Hdur as (this & Hthis & Hdur).
    injection Hdur as <-.
    apply index_ok_inv in Hthis.
    destruct (Hin _ _ Hthis) as (Vt & Ft).
    apply sub_nonneg; auto. apply Hlast.
    replace (n - 1)%nat with i by lia. exact Hthis.
Qed.

Lemma ordered_start_times_nonneg_durations_witness :
  leb zero (of_Z 8) = true.
Proof.
  apply (ordered_start_times_nonneg_durations 2 [of_Z 0; of_Z 2] (of_Z 10)
           [of_Z 2; of_Z 8]).
  - vm_compute. reflexivity.
  - intros t [<-|[<-|[]]]; split; vm_compute; reflexivity.
  - vm_compute. reflexivity.
  - reflexivity.
  - intros [|[|i]] x y Hx Hy; simpl in Hx, Hy; try discriminate.
    injection Hx as <-. injection Hy as <-. vm_compute. reflexivity.
  - intros x Hx. simpl in Hx. injection Hx as <-. vm_compute. reflexivity.
  - right. left. reflexivity.
Defined.


(** ** The timing parser: rejected time tokens *)

Lemma parse_pairs_first_rejected (pf : string -> result float)
    (parts : list string) :
  forall (k : nat) (t : string) (e : exn),
    parts !! (2 * k + 1)%nat = Some t ->
    pf t = Raise e ->
    (forall i t', (i < k)%nat -> parts !! (2 * i + 1)%nat = Some t' ->
                  is_ok (pf t') = true) ->
    parse_pairs pf parts = Raise e.
Proof.
  induction parts as [|a|a b l IH] using list_pair_ind; intros k t e Hk He Hbefore.
  - discriminate.
  - replace (2 * k + 1)%nat with (S (2 * k)) in Hk by lia. discriminate.
  - cbn [parse_pairs]. destruct k as [|k].
    + simpl in Hk. injection Hk as ->. rewrite He. reflexivity.
    + assert (Hb : is_ok (pf b) = true) by (apply (Hbefore 0%nat); [lia | reflexivity]).
      apply is_ok_true in Hb. destruct Hb as (x & Hx). rewrite Hx. cbn [bind].
      rewrite (IH k t e); [reflexivity | | exact He |].
      * replace (2 * S k + 1)%nat with (S (S (2 * k + 1))) in Hk by lia. exact Hk.
      * intros i t' Hi Ht'. apply (Hbefore (S i)); [lia|].
        replace (2 * S i + 1)%nat with (S (S (2 * i + 1))) by lia. exact Ht'.
Qed.

(** X3.  When the float conversion rejects a time token, the parser raises
    the exception of the first rejected one: no cue is returned, not even
    for the pairs that come before it. *)
Theorem parse_subtitles_first_rejected_token :
  forall (pf : string -> result float) (s : string) (k : nat) (t : string)
         (e : exn),
    let parts := split_on "/"%char s in
    parts !! (2 * k + 1)%nat = Some t ->
    pf t = Raise e ->
    (forall i t', (i < k)%nat -> parts !! (2 * i + 1)%nat = Some t' ->
                  is_ok (pf t') = true) ->
    parse_subtitles pf s = Raise e.
Proof.
  intros pf s k t e parts Hk He Hbefore. unfold parse_subtitles. fold parts.
  rewrite (parse_pairs_first_rejected pf parts k t e Hk He Hbefore). reflexivity.
Qed.

Lemma parse_subtitles_first_rejected_token_witness :
  parse_subtitles float_of_decimal "a/1.5/b/x/c/y"
  = Raise (ValueError "could not convert string to float: 'x'").
Proof.
  apply (parse_subtitles_first_rejected_token float_of_decimal "a/1.5/b/x/c/y"
           1 "x").
  - reflexivity.
  - reflexivity.
  - intros [|i] t' Hi Ht'; [|lia].
    vm_compute in Ht'. injection Ht' as <-. reflexivity.
Defined.

(** ** The subtitle compiler: styles and lines *)

Lemma style_line_out_of_range (caption_number : Z) (color_stt : string) :
  caption_number < 1 \/ 7 < caption_number ->
  style_line caption_number color_stt = None.
Proof.
  intros H. destruct caption_number as [|p|p]; try reflexivity.
  destruct p as [[[p|p|]|[p|p|]|]|[[p|p|]|[p|p|]|]|]; try reflexivity; lia.
Qed.

(** X4.  A caption style outside 1..7 makes the compiler raise
    UnboundLocalError for the variable [style], whatever the cues are. *)
Theorem create_ass_file_unknown_style :
  forall (str_upper : string -> string) (color_stt color_encours : string)
         (caption_number : Z) (subtitles : list cue),
    caption_number < 1 \/ 7 < caption_number ->
    create_ass_file str_upper color_stt color_encours caption_number subtitles
    = Raise (UnboundLocalError
               "cannot access local variable 'style' where it is not associated with a value").
Proof.
  intros su c1 c2 cn subs H. unfold create_ass_file.
  rewrite (style_line_out_of_range cn c1 H). reflexivity.
Qed.

Lemma create_ass_file_unknown_style_witness :
  create_ass_file ascii_upper "&H00FFFFFF" "&H0000FFFF" 8 [Cue "hi" zero one]
  = Raise (UnboundLocalError
             "cannot access local variable 'style' where it is not associated with a value").
Proof.
  apply (create_ass_file_unknown_style ascii_upper "&H00FFFFFF" "&H0000FFFF" 8).
  right. lia.
Defined.

(** The line is, character by character, a dialogue line of layer 0 in
    the [Default] style carrying the formatted start and end of the cue. *)
Definition timed_default_line (c : cue) (line : string) : Prop :=
  exists word_start word_end text,
    format_time_ass (start c) = Ok word_start /\
    format_time_ass (end_ c) = Ok word_end /\
    line = "Dialogue: 0," +:+ word_start +:+ "," +:+ word_end
           +:+ ",Default,,0,0,0,," +:+ text
           +:+ String "010"%char EmptyString.

Section DefaultLines.

Variable str_upper : string -> string.
Variable color_encours : string.

Lemma window_cue_lines_345 (caption_number : Z) (group : list cue) (j : nat)
    (sub : cue) :
  caption_number = 3 \/ caption_number = 4 \/ caption_number = 5 ->
  (forall c, In c group -> formattable c) ->
  In sub group ->
  exists line,
    window_cue_lines str_upper color_encours caption_number group (j, sub)
    = Ok [line]
    /\ timed_default_line sub line.
Proof.
  intros Hcn Hall Hsub. unfold window_cue_lines.
  destruct group as [|g0 rest]; [destruct Hsub|].
  destruct (Hall g0 (or_introl eq_refl)) as (Hg0 & _).
  apply is_ok_true in Hg0. destruct Hg0 as (s0 & Hs0).
  destruct (Hall (List.last (g0 :: rest) g0)) as (_ & Hgl).
  { apply last_In. discriminate. }
  apply is_ok_true in Hgl. destruct Hgl as (sl & Hsl).
  destruct (Hall sub Hsub) as (Hws & Hwe).
  apply is_ok_true in Hws. destruct Hws as (ws & Hws).
  apply is_ok_true in Hwe. destruct Hwe as (we & Hwe).
  rewrite Hs0, Hsl. cbn [bind]. rewrite Hws, Hwe. cbn [bind].
  assert (H6 : (caption_number =? 6) = false)
    by (destruct Hcn as [->|[->| ->]]; reflexivity).
  rewrite H6. eexists. split; [reflexivity|].
  exists ws, we. eexists. split; [exact Hws|]. split; [exact Hwe | reflexivity].
Qed.

Lemma window_cues_345 (caption_number : Z) (group : list cue)
    (l : list (nat * cue)) :
  caption_number = 3 \/ caption_number = 4 \/ caption_number = 5 ->
  (forall c, In c group -> formattable c) ->
  (forall js, In js l -> In (snd js) group) ->
  exists lines,
    (let* ls := mapM (window_cue_lines str_upper color_encours caption_number group) l
     in Ok (concat ls)) = Ok lines
    /\ Forall2 timed_default_line (map snd l) lines.
Proof.
  intros Hcn Hall. induction l as [|[j sub] l IH]; intros Hl.
  - exists []. split; [reflexivity | constructor].
  - destruct (window_cue_lines_345 caption_number group j sub Hcn Hall
                (Hl (j, sub) (or_introl eq_refl))) as (line & Hline & Ht).
    destruct IH as (lines & Hlines & HF); [intros js Hjs; apply Hl; right; exact Hjs|].
    exists (line :: lines). split.
    + cbn [mapM]. rewrite Hline. cbn [bind].
      destruct (mapM _ l) as [ls|e]; [|discriminate].
      cbn [bind] in Hlines |- *. injection Hlines as <-. reflexivity.
    + constructor; assumption.
Qed.

Lemma window_lines_345 (caption_number : Z) (window : list cue) :
  caption_number = 3 \/ caption_number = 4 \/ caption_number = 5 ->
  (forall c, In c window -> formattable c) ->
  exists lines,
    window_lines str_upper color_encours caption_number window = Ok lines
    /\ Forall2 timed_default_line
         (List.filter (fun s => negb (is_space (word s))) window) lines.
Proof.
  intros Hcn Hall. unfold window_lines.
  set (group := List.filter (fun s => negb (is_space (word s))) window).
  destruct (window_cues_345 caption_number group (enumerate group) Hcn)
    as (lines & Hlines & HF).
  - intros c Hc. apply Hall. apply List.filter_In in Hc. apply Hc.
  - intros js Hjs. apply (List.in_map snd) in Hjs.
    rewrite enumerate_snd in Hjs. exact Hjs.
  - exists lines. split; [exact Hlines|].
    rewrite enumerate_snd in HF. exact HF.
Qed.

Lemma windows_lines_345 (caption_number : Z) (ws : list (list cue)) :
  caption_number = 3 \/ caption_number = 4 \/ caption_number = 5 ->
  (forall c, In c (concat ws) -> formattable c) ->
  exists lines,
    (let* ls := mapM (window_lines str_upper color_encours caption_number) ws
     in Ok (concat ls)) = Ok lines
    /\ Forall2 timed_default_line
         (List.filter (fun s => negb (is_space (word s))) (concat ws)) lines.
Proof.
  intros Hcn. induction ws as [|w ws IH]; intros Hall.
  - exists []. split; [reflexivity | constructor].
  - destruct (window_lines_345 caption_number w Hcn) as (l1 & H1 & HF1).
    { intros c Hc. apply Hall. simpl. apply List.in_or_app. left. exact Hc. }
    destruct IH as (l2 & H2 & HF2).
    { intros c Hc. apply Hall. simpl. apply List.in_or_app. right. exact Hc. }
    exists (l1 ++ l2). split.
    + cbn [mapM]. rewrite H1. cbn [bind].
      destruct (mapM _ ws) as [ls|e]; [|discriminate].
      cbn [bind] in H2 |- *. injection H2 as <-. reflexivity.
    + simpl. rewrite List.filter_app. apply Forall2_app; assumption.
Qed.

(** Whether the one-cue-at-a-time styles write a line for the cue. *)
Definition kept_single (caption_number : Z) (c : cue) : bool :=
  if caption_number =? 1 then negb (is_space (str_upper (word c))) else true.

Lemma decorated_not_space (a : ascii) (s t : string) :
  a <> " "%char -> is_space (String a s +:+ t) = false.
Proof.
  intros Ha. rewrite append_cons. unfold is_space.
  apply String.eqb_neq. intros H. injection H as H _. contradiction.
Qed.

Lemma single_lines_127 (caption_number : Z) (c : cue) :
  caption_number = 1 \/ caption_number = 2 \/ caption_number = 7 ->
  formattable c ->
  if kept_single caption_number c
  then exists line,
         single_lines str_upper caption_number c = Ok [line]
         /\ timed_default_line c line
  else single_lines str_upper caption_number c = Ok [].
Proof.
  intros Hcn (Hs & He).
  apply is_ok_true in Hs. destruct Hs as (ws & Hws).
  apply is_ok_true in He. destruct He as (we & Hwe).
  unfold single_lines, kept_single.
  destruct Hcn as [->|[->| ->]]; cbn [Z.eqb Pos.eqb].
  - destruct (is_space (str_upper (word c))); cbn [negb]; [reflexivity|].
    rewrite Hws, Hwe. cbn [bind]. eexists. split; [reflexivity|].
    exists ws, we. eexists. auto.
  - rewrite decorated_not_space by discriminate.
    rewrite Hws, Hwe. cbn [bind]. eexists. split; [reflexivity|].
    exists ws, we. eexists. auto.
  - rewrite decorated_not_space by discriminate.
    rewrite Hws, Hwe. cbn [bind]. eexists. split; [reflexivity|].
    exists ws, we. eexists. auto.
Qed.

Lemma singles_lines_127 (caption_number : Z) (subtitles : list cue) :
  caption_number = 1 \/ caption_number = 2 \/ caption_number = 7 ->
  (forall c, In c subtitles -> formattable c) ->
  exists lines,
    (let* ls := mapM (single_lines str_upper caption_number) subtitles
     in Ok (concat ls)) = Ok lines
    /\ Forall2 timed_default_line
         (List.filter (kept_single caption_number) subtitles) lines.
Proof.
  intros Hcn. induction subtitles as [|c l IH]; intros Hall.
  - exists []. split; [reflexivity | constructor].
  - pose proof (single_lines_127 caption_number c Hcn (Hall c (or_introl eq_refl)))
      as Hc.
    destruct IH as (lines & Hlines & HF); [intros x Hx; apply Hall; right; exact Hx|].
    destruct (mapM _ l) as [ls|e] eqn:Hm; [|discriminate].
    cbn [bind] in Hlines. injection Hlines as <-.
    cbn [mapM List.filter]. destruct (kept_single caption_number c).
    + destruct Hc as (line & Hline & Ht). rewrite Hline. cbn [bind].
      rewrite Hm. cbn [bind]. exists (line :: concat ls).
      split; [reflexivity|]. constructor; assumption.
    + rewrite Hc. cbn [bind]. rewrite Hm. cbn [bind].
      exists (concat ls). split; [reflexivity | exact HF].
Qed.

End DefaultLines.

(** X5.  In the caption styles 3, 4 and 5, when the timestamps of the cues
    can be formatted, the compiler writes exactly one dialogue line per
    cue that is not a bare space, in cue order, of the form
    [Dialogue: 0,<start>,<end>,Default,,0,0,0,,<text>] with the formatted
    start and end of that cue.  The lines written in style 4 for the cues
    [hi], [ ], [you], [all] are given in full. *)
Theorem grouped_styles_one_line_per_cue :
  (forall (str_upper : string -> string) (color_encours : string)
          (caption_number : Z) (subtitles : list cue),
     caption_number = 3 \/ caption_number = 4 \/ caption_number = 5 ->
     (forall c, In c subtitles -> formattable c) ->
     exists lines,
       dialogue_lines str_upper color_encours caption_number subtitles = Ok lines
       /\ Forall2 timed_default_line
            (List.filter (fun s => negb (is_space (word s))) subtitles) lines)
  /\
  dialogue_lines ascii_upper "&H0000FFFF" 4
    [Cue "hi" zero half; Cue " " half one; Cue "you" one (of_Z 2);
     Cue "all" (of_Z 2) (of_Z 3)]
  = Ok ["Dialogue: 0,0:00:00.00,0:00:00.50,Default,,0,0,0,,{\blur10\c&H0000FFFF&}HI{\r} {\blur10}YOU"
        +:+ String "010"%char EmptyString;
        "Dialogue: 0,0:00:01.00,0:00:02.00,Default,,0,0,0,,{\blur10}HI {\blur10\c&H0000FFFF&}YOU{\r}"
        +:+ String "010"%char EmptyString;
        "Dialogue: 0,0:00:02.00,0:00:03.00,Default,,0,0,0,,{\blur10\c&H0000FFFF&}ALL{\r}"
        +:+ String "010"%char EmptyString].
Proof.
  split.
  - intros su ce cn subtitles Hcn Hall.
    destruct (windows_lines_345 su ce cn (windows subtitles) Hcn)
      as (lines & H & HF).
    + rewrite windows_concat. exact Hall.
    + exists lines. rewrite windows_concat in HF. split; [|exact HF].
      unfold dialogue_lines, grouped_style.
      destruct Hcn as [->|[->| ->]]; exact H.
  - vm_compute. reflexivity.
Qed.

Lemma grouped_styles_one_line_per_cue_witness :
  exists lines,
    dialogue_lines ascii_upper "&H0000FFFF" 4
      [Cue "hi" zero half; Cue " " half one; Cue "you" one (of_Z 2);
       Cue "all" (of_Z 2) (of_Z 3)]
    = Ok lines
    /\ Forall2 timed_default_line
         [Cue "hi" zero half; Cue "you" one (of_Z 2); Cue "all" (of_Z 2) (of_Z 3)]
         lines.
Proof.
  apply (proj1 grouped_styles_one_line_per_cue ascii_upper "&H0000FFFF" 4
           [Cue "hi" zero half; Cue " " half one; Cue "you" one (of_Z 2);
            Cue "all" (of_Z 2) (of_Z 3)]).
  - right. left. reflexivity.
  - intros c [<-|[<-|[<-|[<-|[]]]]]; split; vm_compute; reflexivity.
Defined.

(** X6.  In the caption styles shown one cue at a time, when the timestamps
    can be formatted, style 1 writes one line per cue whose upper-cased
    word is not a bare space, and the styles 2 and 7 write one line per
    cue, bare spaces included; the lines come in cue order and have the
    form [Dialogue: 0,<start>,<end>,Default,,0,0,0,,<text>] with the
    formatted start and end of their cue.  The lines written in the styles
    1 and 2 for the cues [hi], [ ], [you] are given in full. *)
Theorem single_styles_lines :
  (forall (str_upper : string -> string) (color_encours : string)
          (caption_number : Z) (subtitles : list cue),
     caption_number = 1 \/ caption_number = 2 \/ caption_number = 7 ->
     (forall c, In c subtitles -> formattable c) ->
     exists lines,
       dialogue_lines str_upper color_encours caption_number subtitles = Ok lines
       /\ Forall2 timed_default_line
            (List.filter (kept_single str_upper caption_number) subtitles) lines
       /\ (caption_number <> 1 -> length lines = length subtitles))
  /\
  dialogue_lines ascii_upper "&H0000FFFF" 1
    [Cue "hi" zero half; Cue " " half one; Cue "you" one (of_Z 2)]
  = Ok ["Dialogue: 0,0:00:00.00,0:00:00.50,Default,,0,0,0,,HI"
        +:+ String "010"%char EmptyString;
        "Dialogue: 0,0:00:01.00,0:00:02.00,Default,,0,0,0,,YOU"
        +:+ String "010"%char EmptyString]
  /\
  dialogue_lines ascii_upper "&H0000FFFF" 2
    [Cue "hi" zero half; Cue " " half one; Cue "you" one (of_Z 2)]
  = Ok ["Dialogue: 0,0:00:00.00,0:00:00.50,Default,,0,0,0,,{\t(0,100,\fs110)}hi"
        +:+ String "010"%char EmptyString;
        "Dialogue: 0,0:00:00.50,0:00:01.00,Default,,0,0,0,,{\t(0,100,\fs110)} "
        +:+ String "010"%char EmptyString;
        "Dialogue: 0,0:00:01.00,0:00:02.00,Default,,0,0,0,,{\t(0,100,\fs110)}you"
        +:+ String "010"%char EmptyString].
Proof.
  split; [|split; vm_compute; reflexivity].
  intros su ce cn subtitles Hcn Hall.
  destruct (singles_lines_127 su cn subtitles Hcn Hall) as (lines & H & HF).
  exists lines. split; [|split; [exact HF|]].
  - unfold dialogue_lines, grouped_style.
    destruct Hcn as [->|[->| ->]]; exact H.
  - intros H1. apply Forall2_length in HF. rewrite <- HF.
    f_equal. clear HF H Hall. unfold kept_single.
    replace (cn =? 1) with false by (symmetry; apply Z.eqb_neq; exact H1).
    induction subtitles as [|c l IH]; [reflexivity|]. simpl. f_equal. exact IH.
Qed.

Lemma single_styles_lines_witness :
  exists lines,
    dialogue_lines ascii_upper "&H0000FFFF" 1
      [Cue "hi" zero half; Cue " " half one; Cue "you" one (of_Z 2)]
    = Ok lines
    /\ Forall2 timed_default_line
         [Cue "hi" zero half; Cue "you" one (of_Z 2)] lines.
Proof.
  destruct (proj1 single_styles_lines ascii_upper "&H0000FFFF" 1
              [Cue "hi" zero half; Cue " " half one; Cue "you" one (of_Z 2)])
    as (lines & H & HF & _).
  - left. reflexivity.
  - intros c [<-|[<-|[<-|[]]]]; split; vm_compute; reflexivity.
  - exists lines. split; [exact H | exact HF].
Defined.


(** ** The timestamp formatter *)

Lemma format_time_ass_not_finite_raise (x : float) :
  is_finite x = false ->
  format_time_ass x
  = Raise (ValueError "cannot convert float NaN to integer").
Proof.
  intros H. destruct x as [s|s| |s m e]; try discriminate.
  - destruct s; vm_compute; reflexivity.
  - vm_compute. reflexivity.
Qed.

(** X7.  A timestamp that is a NaN or an infinity cannot be formatted: the
    floor division gives a NaN, and its conversion to [int] raises
    ValueError. *)
Theorem format_time_ass_not_finite :
  forall x : float,
    is_finite x = false ->
    format_time_ass x
    = Raise (ValueError "cannot convert float NaN to integer").
Proof. exact format_time_ass_not_finite_raise. Qed.

Lemma format_time_ass_not_finite_witness :
  format_time_ass (div one zero)
  = Raise (ValueError "cannot convert float NaN to integer").
Proof.
  apply (format_time_ass_not_finite (div one zero)). vm_compute. reflexivity.
Defined.

(** The text [H:MM:SS.CC] for [n] whole seconds and [cs] hundredths. *)
Definition digit_char (d : Z) : ascii := ascii_of_nat (48 + Z.to_nat d).

Definition two_digits (n : Z) : string :=
  String (digit_char (n / 10)) (String (digit_char (n mod 10)) EmptyString).

Definition clock_text (n cs : Z) : string :=
  str_Z (n / 3600) +:+ ":" +:+ two_digits (n / 60 mod 60) +:+ ":"
  +:+ two_digits (n mod 60) +:+ "." +:+ two_digits cs.

Definition formats_quarter (k : Z) : bool :=
  match format_time_ass (div (of_Z k) (of_Z 4)) with
  | Ok s => String.eqb s (clock_text (k / 4) (25 * (k mod 4)))
  | Raise _ => false
  end.

(** [p] holds of [k], [k + 1], ..., [k + fuel - 1]. *)
Fixpoint all_from (fuel : nat) (k : Z) (p : Z -> bool) : bool :=
  match fuel with
  | O => true
  | S fuel' => p k && all_from fuel' (k + 1) p
  end.

Lemma all_from_spec (p : Z -> bool) (fuel : nat) :
  forall k, all_from fuel k p = true ->
  forall j, k <= j < k + Z.of_nat fuel -> p j = true.
Proof.
  induction fuel as [|fuel IH]; intros k H j Hj; [lia|].
  cbn [all_from] in H. apply andb_true_iff in H. destruct H as (Hk & H).
  destruct (Z.eq_dec j k) as [->|Hne]; [exact Hk|].
  apply (IH (k + 1) H). lia.
Qed.

Lemma formats_quarter_all :
  all_from (Z.to_nat 7200) 0 formats_quarter = true.
Proof. vm_cast_no_check (eq_refl true). Qed.

(** X8.  Every multiple of a quarter of a second below thirty minutes
    is formatted exactly: [k / 4] seconds give the hours, minutes and
    seconds of [k / 4] and the hundredths 00, 25, 50 or 75. *)
Theorem format_time_ass_quarter_seconds :
  forall k : Z,
    0 <= k < 7200 ->
    format_time_ass (div (of_Z k) (of_Z 4))
    = Ok (clock_text (k / 4) (25 * (k mod 4))).
Proof.
  intros k Hk.
  pose proof (all_from_spec formats_quarter _ 0 formats_quarter_all k) as H.
  rewrite Z2Nat.id in H by lia. specialize (H Hk).
  unfold formats_quarter in H.
  destruct (format_time_ass (div (of_Z k) (of_Z 4))) as [s|e]; [|discriminate].
  apply String.eqb_eq in H. congruence.
Qed.

Lemma format_time_ass_quarter_seconds_witness :
  format_time_ass (div (of_Z 7151) (of_Z 4)) = Ok "0:29:47.75".
Proof.
  apply (format_time_ass_quarter_seconds 7151). lia.
Defined.


(** ** Cues without a finite time *)

Lemma bind_not_ok {A B : Type} (r : result A) (k : A -> result B) :
  is_ok r = false -> is_ok (bind r k) = false.
Proof. destruct r; [discriminate | reflexivity]. Qed.

Lemma bind_not_ok_r {A B : Type} (r : result A) (k : A -> result B) :
  (forall a, is_ok (k a) = false) -> is_ok (bind r k) = false.
Proof. intros H. destruct r; [apply H | reflexivity]. Qed.

Lemma mapM_not_ok {A B : Type} (f : A -> result B) (l : list A) (a : A) :
  In a l -> is_ok (f a) = false -> is_ok (mapM f l) = false.
Proof.
  induction l as [|x l IH]; intros Hin Ha; [destruct Hin|].
  cbn [mapM]. destruct Hin as [->|Hin].
  - apply bind_not_ok, Ha.
  - apply bind_not_ok_r. intros b. apply bind_not_ok, IH; assumption.
Qed.

Lemma enumerate_In {A : Type} (l : list A) (a : A) :
  In a l -> exists j, In (j, a) (enumerate l).
Proof.
  unfold enumerate. generalize 0%nat.
  induction l as [|x l IH]; intros n Hin; [destruct Hin|].
  destruct Hin as [->|Hin].
  - exists n. left. reflexivity.
  - destruct (IH (S n) Hin) as (j & Hj). exists j. right. exact Hj.
Qed.

(** The cue has a start or an end that is a NaN or an infinity. *)
Definition untimed (c : cue) : Prop :=
  is_finite (start c) = false \/ is_finite (end_ c) = false.

Lemma untimed_not_formatted {A : Type} (c : cue)
    (k : string -> string -> result A) :
  untimed c ->
  is_ok (let* word_start := format_time_ass (start c) in
         let* word_end := format_time_ass (end_ c) in
         k word_start word_end) = false.
Proof.
  intros [H|H].
  - rewrite (format_time_ass_not_finite_raise (start c) H). reflexivity.
  - apply bind_not_ok_r. intros ws.
    rewrite (format_time_ass_not_finite_raise (end_ c) H). reflexivity.
Qed.

Section UntimedCues.

Variable str_upper : string -> string.
Variable color_encours : string.

Lemma window_cue_lines_untimed (caption_number : Z) (group : list cue)
    (j : nat) (c : cue) :
  In c group -> untimed c ->
  is_ok (window_cue_lines str_upper color_encours caption_number group (j, c))
  = false.
Proof.
  intros Hin Hc. unfold window_cue_lines.
  destruct group as [|g0 rest]; [destruct Hin|].
  apply bind_not_ok_r. intros start_time.
  apply bind_not_ok_r. intros end_time.
  apply untimed_not_formatted, Hc.
Qed.

Lemma window_lines_untimed (caption_number : Z) (window : list cue) (c : cue) :
  In c window -> is_space (word c) = false -> untimed c ->
  is_ok (window_lines str_upper color_encours caption_number window) = false.
Proof.
  intros Hin Hsp Hc. unfold window_lines.
  set (group := List.filter (fun s => negb (is_space (word s))) window).
  assert (Hg : In c group).
  { apply List.filter_In. split; [exact Hin|]. rewrite Hsp. reflexivity. }
  destruct (enumerate_In group c Hg) as (j & Hj).
  apply bind_not_ok. apply (mapM_not_ok _ _ (j, c) Hj).
  apply window_cue_lines_untimed; assumption.
Qed.

Lemma single_lines_untimed (caption_number : Z) (c : cue) :
  kept_single str_upper caption_number c = true -> untimed c ->
  is_ok (single_lines str_upper caption_number c) = false.
Proof.
  intros Hk Hc. unfold single_lines, kept_single in *.
  destruct (caption_number =? 1).
  - apply negb_true_iff in Hk. rewrite Hk.
    apply untimed_not_formatted, Hc.
  - destruct (caption_number =? 2).
    + rewrite decorated_not_space by discriminate.
      apply untimed_not_formatted, Hc.
    + destruct (caption_number =? 7); [|reflexivity].
      rewrite decorated_not_space by discriminate.
      apply untimed_not_formatted, Hc.
Qed.

(** Whether the compiler writes lines for the cue. *)
Definition written (caption_number : Z) (c : cue) : bool :=
  if grouped_style caption_number then negb (is_space (word c))
  else kept_single str_upper caption_number c.

Lemma dialogue_lines_untimed (caption_number : Z) (subtitles : list cue)
    (c : cue) :
  In c subtitles -> written caption_number c = true -> untimed c ->
  is_ok (dialogue_lines str_upper color_encours caption_number subtitles)
  = false.
Proof.
  intros Hin Hw Hc. unfold dialogue_lines, written in *.
  destruct (grouped_style caption_number).
  - apply bind_not_ok.
    rewrite <- (windows_concat subtitles) in Hin.
    apply List.in_concat in Hin. destruct Hin as (w & Hw1 & Hw2).
    apply (mapM_not_ok _ _ w Hw1).
    apply (window_lines_untimed caption_number w c Hw2); [|exact Hc].
    apply negb_true_iff. exact Hw.
  - apply bind_not_ok. apply (mapM_not_ok _ _ c Hin).
    apply single_lines_untimed; assumption.
Qed.

End UntimedCues.

(** X9.  The compiler raises, and writes no complete document, as soon as
    one cue it would write a line for has a start or an end that is a NaN
    or an infinity -- values the float conversion of the parser
    accepts. *)
Theorem create_ass_file_untimed_cue :
  forall (str_upper : string -> string) (color_stt color_encours : string)
         (caption_number : Z) (subtitles : list cue) (c : cue),
    In c subtitles ->
    written str_upper caption_number c = true ->
    untimed c ->
    is_ok (create_ass_file str_upper color_stt color_encours caption_number
             subtitles) = false.
Proof.
  intros su c1 c2 cn subtitles c Hin Hw Hc. unfold create_ass_file.
  destruct (style_line cn c1); [|reflexivity].
  apply bind_not_ok. eapply dialogue_lines_untimed; eassumption.
Qed.

Lemma create_ass_file_untimed_cue_witness :
  is_ok (create_ass_file ascii_upper "&H00FFFFFF" "&H0000FFFF" 5
           [Cue "hi" zero one; Cue "you" one S754_nan]) = false.
Proof.
  apply (create_ass_file_untimed_cue ascii_upper "&H00FFFFFF" "&H0000FFFF" 5
           [Cue "hi" zero one; Cue "you" one S754_nan] (Cue "you" one S754_nan)).
  - right. left. reflexivity.
  - reflexivity.
  - right. reflexivity.
Defined.


(** ** The background task *)

Section BackgroundTask.

Variable P : platform.

Lemma process_video_job_frame (w : world) (a : job_args) :
  (forall id', id' <> a_job_id a ->
     jobs (process_video_job P w a) !! id' = jobs w !! id')
  /\ tasks (process_video_job P w a) = tasks w
  /\ work_dirs (process_video_job P w a) = work_dirs w.
Proof.
  unfold process_video_job.
  destruct (copy_fonts_to_workdir P (a_work_dir a)) as [u|e];
    [destruct (call_build_video P a _) as [v|e]|];
    (split; [|split; reflexivity]);
    intros id' Hne; rewrite !save_lookup_ne by congruence; reflexivity.
Qed.

Lemma process_video_job_record (w : world) (a : job_args) :
  let output_path := path_join P (a_work_dir a) "final_video.mp4" in
  exists r,
    jobs (process_video_job P w a) !! a_job_id a = Some r /\
    job_id r = a_job_id a /\
    ((status r = COMPLETED /\ progress r = 100 /\ error r = None /\
      video_path r = Some output_path /\
      is_ok (copy_fonts_to_workdir P (a_work_dir a)) = true /\
      is_ok (call_build_video P a output_path) = true)
     \/
     (status r = FAILED /\ progress r = 0 /\ video_path r = None /\
      exists e, error r = Some (str_exn e) /\
        (copy_fonts_to_workdir P (a_work_dir a) = Raise e \/
         (is_ok (copy_fonts_to_workdir P (a_work_dir a)) = true /\
          call_build_video P a output_path = Raise e)))).
Proof.
  intros output_path. unfold process_video_job. fold output_path.
  destruct (copy_fonts_to_workdir P (a_work_dir a)) as [u|e].
  - destruct (call_build_video P a output_path) as [v|e].
    + eexists. split; [apply save_lookup|]. split; [reflexivity|].
      left. simpl. auto 10.
    + eexists. split; [apply save_lookup|]. split; [reflexivity|].
      right. simpl. split; [reflexivity|]. split; [reflexivity|].
      split; [reflexivity|]. exists e. auto.
  - eexists. split; [apply save_lookup|]. split; [reflexivity|].
    right. simpl. split; [reflexivity|]. split; [reflexivity|].
    split; [reflexivity|]. exists e. auto.
Qed.

End BackgroundTask.

(** X10.  The background task always leaves its job in a terminal state:
    COMPLETED with progress 100, no error and the location of
    final_video.mp4 in the working directory, exactly when the fonts were
    staged and the render succeeded; otherwise FAILED with progress 0, no
    artifact location and the text of the exception as error.  It touches
    no other job's record, no background task and no working directory (a
    failed job keeps its files). *)
Theorem process_video_job_outcome :
  forall (P : platform) (w : world) (a : job_args),
    let w' := process_video_job P w a in
    let output_path := path_join P (a_work_dir a) "final_video.mp4" in
    (exists r,
       jobs w' !! a_job_id a = Some r /\
       job_id r = a_job_id a /\
       ((status r = COMPLETED /\ progress r = 100 /\ error r = None /\
         video_path r = Some output_path /\
         is_ok (copy_fonts_to_workdir P (a_work_dir a)) = true /\
         is_ok (call_build_video P a output_path) = true)
        \/
        (status r = FAILED /\ progress r = 0 /\ video_path r = None /\
         exists e, error r = Some (str_exn e) /\
           (copy_fonts_to_workdir P (a_work_dir a) = Raise e \/
            (is_ok (copy_fonts_to_workdir P (a_work_dir a)) = true /\
             call_build_video P a output_path = Raise e)))))
    /\ (forall id', id' <> a_job_id a -> jobs w' !! id' = jobs w !! id')
    /\ tasks w' = tasks w
    /\ work_dirs w' = work_dirs w.
Proof.
  intros P w a w' output_path. split.
  - apply process_video_job_record.
  - apply process_video_job_frame.
Qed.

Lemma process_video_job_outcome_witness :
  jobs (process_video_job demo_platform
          (save_job_status demo_platform empty_world "j0" PENDING 0 None None)
          {| a_job_id := "j1"; a_image_paths := ["temp_files/j1/image_0.png"];
             a_audio_path := "temp_files/j1/audio.mp3";
             a_subtitles_string := "hi/0.0/there/0.5";
             a_start_times := [zero]; a_caption_number_int := 6;
             a_color_stt := "&H00FFFFFF"; a_color_encours := "&H0000FFFF";
             a_is_zoom_pan := "oui"; a_background_music_path := None;
             a_is_chromatic_effect := "non"; a_work_dir := "temp_files/j1" |})
    !! "j0"
  = jobs (save_job_status demo_platform empty_world "j0" PENDING 0 None None)
      !! "j0".
Proof.
  apply (process_video_job_outcome demo_platform
           (save_job_status demo_platform empty_world "j0" PENDING 0 None None)).
  discriminate.
Defined.

(** ** Jobs with an unknown caption style *)








(** ** Submissions *)

Section Submissions.

Variable P : platform.

Lemma generate_video_rejected (w : world) (jid : string) (req : submission)
    (code : Z) (detail : string) :
  snd (generate_video P w jid req) = HTTPException code detail ->
  exists e,
    stage_submission P jid (path_join P TEMP_DIR jid) req = Raise e /\
    code = 400 /\ detail = str_exn e /\
    fst (generate_video P w jid req)
    = {| jobs := jobs w; work_dirs := (work_dirs w ∪ {[jid]}) ∖ {[jid]};
         tasks := tasks w; clock := clock w |}.
Proof.
  unfold generate_video.
  destruct (stage_submission P jid _ req) as [a|e]; simpl; [discriminate|].
  intros H. injection H as <- <-. exists e. auto.
Qed.

Lemma stage_submission_no_image (jid work_dir : string) (req : submission) :
  omap id (all_images req) = [] ->
  stage_submission P jid work_dir req
  = Raise (ValueError "Aucune image n'a été uploadée").
Proof. unfold stage_submission. intros ->. reflexivity. Qed.

Lemma enumerate_length {A : Type} (l : list A) : length (enumerate l) = length l.
Proof. unfold enumerate. rewrite length_combine, length_seq. lia. Qed.

Lemma enumerate_lookup {A : Type} (l : list A) (i : nat) (ia : nat * A) :
  enumerate l !! i = Some ia -> fst ia = i /\ l !! i = Some (snd ia).
Proof.
  unfold enumerate.
  assert (H : forall n i, combine (seq n (length l)) l !! i = Some ia ->
                fst ia = (n + i)%nat /\ l !! i = Some (snd ia)).
  { induction l as [|x l IH]; intros n k Hk; [destruct k; discriminate|].
    destruct k as [|k]; simpl in Hk.
    - injection Hk as <-. simpl. split; [lia | reflexivity].
    - destruct (IH (S n) k Hk) as (H1 & H2). split; [lia | exact H2]. }
  intros Hi. apply (H 0%nat i Hi).
Qed.

Lemma stage_submission_args (jid work_dir : string) (req : submission)
    (a : job_args) :
  stage_submission P jid work_dir req = Ok a ->
  a_job_id a = jid /\ a_work_dir a = work_dir /\
  omap id (all_images req) <> [] /\
  length (a_image_paths a) = length (omap id (all_images req)) /\
  (forall i p, a_image_paths a !! i = Some p ->
     exists u, omap id (all_images req) !! i = Some u /\
       p = path_join P work_dir
             ("image_" +:+ str_nat i +:+ path_suffix P (filename u))) /\
  a_audio_path a
  = path_join P work_dir ("audio" +:+ path_suffix P (filename (audio req))) /\
  length (a_start_times a) = length (a_image_paths a) /\
  ((background_music req = "0" /\ a_background_music_path a = None) \/
   (exists music_filename,
      dict_get BACKGROUND_MUSIC_MAP (background_music req) = Some music_filename /\
      a_background_music_path a = Some (path_join P (BASE_DIR P) music_filename))).
Proof.
  unfold stage_submission. intros H.
  destruct (omap id (all_images req)) as [|u0 us] eqn:E; [discriminate|].
  assert (Hne : u0 :: us <> []) by discriminate.
  revert H Hne. generalize (u0 :: us). intros ups H Hne.
  apply bind_ok in H. destruct H as (m & Hm & H).
  apply bind_ok in H. destruct H as (c & _ & H).
  apply bind_ok in H. destruct H as (ts & _ & H).
  injection H as <-. cbn [a_job_id a_work_dir a_image_paths a_audio_path
                          a_start_times a_background_music_path].
  split; [reflexivity|]. split; [reflexivity|]. split; [exact Hne|].
  split; [rewrite length_map, enumerate_length; reflexivity|].
  split.
  { intros i p Hp. rewrite list_lookup_fmap in Hp.
    destruct (enumerate ups !! i) as [[j u]|] eqn:Hi; [|discriminate].
    apply enumerate_lookup in Hi. destruct Hi as (Hj & Hu). simpl in Hj, Hu.
    subst j. simpl in Hp. injection Hp as <-. exists u. auto. }
  split; [reflexivity|].
  split; [apply reconcile_length|].
  destruct (String.eqb_spec (background_music req) "0") as [E0|E0].
  - left. split; [exact E0|]. congruence.
  - right. destruct (dict_get BACKGROUND_MUSIC_MAP (background_music req))
      as [name|]; [|discriminate].
    destruct (String.eqb name ""); [discriminate|].
    exists name. split; [reflexivity|]. congruence.
Qed.

End Submissions.

(** X12.  A submission that is rejected is rejected with status 400 and the
    text of the exception as detail, and leaves nothing behind: no status
    record is written, no background task is queued, the clock is not
    read, and the working directory made for it is removed. *)
Theorem generate_video_rejection_leaves_nothing :
  forall (P : platform) (w : world) (jid : string) (req : submission)
         (code : Z) (detail : string),
    snd (generate_video P w jid req) = HTTPException code detail ->
    let w' := fst (generate_video P w jid req) in
    code = 400 /\
    (exists e, stage_submission P jid (path_join P TEMP_DIR jid) req = Raise e
               /\ detail = str_exn e) /\
    jobs w' = jobs w /\ tasks w' = tasks w /\ clock w' = clock w /\
    (jid ∉ work_dirs w') /\
    (forall d, d <> jid -> (d ∈ work_dirs w' <-> d ∈ work_dirs w)).
Proof.
  intros P w jid req code detail H w'.
  destruct (generate_video_rejected P w jid req code detail H)
    as (e & Hst & Hc & Hd & Hw).
  subst w'. rewrite Hw. simpl.
  split; [exact Hc|]. split; [exists e; auto|].
  split; [reflexivity|]. split; [reflexivity|]. split; [reflexivity|].
  split; [set_solver|]. intros d Hne. set_solver.
Qed.

Lemma generate_video_rejection_leaves_nothing_witness :
  jobs (fst (generate_video demo_platform empty_world "j1"
               {| all_images := [Some (Upload "a.png")];
                  audio := Upload "voice.mp3";
                  background_music := "0";
                  subtitles_string := "hi/0.0";
                  image_start_times := "0, soon";
                  caption_number := "1";
                  color_stt := "&H00FFFFFF";
                  color_encours := "&H0000FFFF";
                  is_zoom_pan := "non";
                  is_chromatic_effect := "non" |}))
  = jobs empty_world.
Proof.
  apply (generate_video_rejection_leaves_nothing demo_platform empty_world "j1"
           {| all_images := [Some (Upload "a.png")];
              audio := Upload "voice.mp3";
              background_music := "0";
              subtitles_string := "hi/0.0";
              image_start_times := "0, soon";
              caption_number := "1";
              color_stt := "&H00FFFFFF";
              color_encours := "&H0000FFFF";
              is_zoom_pan := "non";
              is_chromatic_effect := "non" |}
           400 "could not convert string to float: 'soon'").
  vm_compute. reflexivity.
Defined.

(** X13.  A submission without any image is rejected with status 400 and
    the detail "Aucune image n'a été uploadée", whatever its other fields
    are: the images are checked before the music selector, the caption
    number and the start times. *)
Theorem generate_video_no_image :
  forall (P : platform) (w : world) (jid : string) (req : submission),
    Forall (fun image => image = None) (all_images req) ->
    snd (generate_video P w jid req)
    = HTTPException 400 "Aucune image n'a été uploadée".
Proof.
  intros P w jid req Hnone. unfold generate_video.
  rewrite stage_submission_no_image; [reflexivity|].
  induction Hnone as [|o l Ho _ IH]; [reflexivity|].
  subst o. simpl. exact IH.
Qed.

Lemma generate_video_no_image_witness :
  snd (generate_video demo_platform empty_world "j1"
         {| all_images := [None; None];
            audio := Upload "voice.mp3";
            background_music := "9";
            subtitles_string := "hi/0.0";
            image_start_times := "soon";
            caption_number := "one";
            color_stt := "";
            color_encours := "";
            is_zoom_pan := "non";
            is_chromatic_effect := "non" |})
  = HTTPException 400 "Aucune image n'a été uploadée".
Proof.
  apply (generate_video_no_image demo_platform empty_world "j1").
  simpl. repeat constructor.
Defined.

(** X14.  An accepted submission queues a background task whose arguments
    are consistent: one image path per uploaded image, named by its rank
    in the working directory of the job; as many start times as images,
    so that the duration loop of the render never goes out of range; no
    music for the selector "0" and otherwise the catalog file in the
    directory of the module.  The working directory exists and the answer
    names the job as pending. *)
Theorem generate_video_accepted_arguments :
  forall (P : platform) (w : world) (jid : string) (req : submission)
         (fields : list (string * string)),
    snd (generate_video P w jid req) = JSONResponse fields ->
    let w' := fst (generate_video P w jid req) in
    let work_dir := path_join P TEMP_DIR jid in
    fields = [("job_id", jid); ("status", "pending");
              ("message", "Votre vidéo est en cours de génération")] /\
    jid ∈ work_dirs w' /\
    exists a,
      tasks w' !! jid = Some {| t_args := a; t_pc := Queued |} /\
      a_job_id a = jid /\ a_work_dir a = work_dir /\
      (0 < length (a_image_paths a))%nat /\
      length (a_image_paths a) = length (omap id (all_images req)) /\
      (forall i p, a_image_paths a !! i = Some p ->
         exists u, omap id (all_images req) !! i = Some u /\
           p = path_join P work_dir
                 ("image_" +:+ str_nat i +:+ path_suffix P (filename u))) /\
      length (a_start_times a) = length (a_image_paths a) /\
      (forall audio_duration,
         is_ok (image_durations (length (a_image_paths a)) (a_start_times a)
                  audio_duration) = true) /\
      ((background_music req = "0" /\ a_background_music_path a = None) \/
       (exists music_filename,
          dict_get BACKGROUND_MUSIC_MAP (background_music req)
          = Some music_filename /\
          a_background_music_path a
          = Some (path_join P (BASE_DIR P) music_filename))).
Proof.
  intros P w jid req fields H w' work_dir.
  destruct (generate_video_accepted P w jid req fields H) as (a & Hst & _ & Ht).
  fold w' in Ht. fold work_dir in Hst.
  destruct (stage_submission_args P jid work_dir req a Hst)
    as (Hid & Hwd & Hne & Hlen & Hpaths & _ & Hts & Hmusic).
  split; [|split].
  - unfold generate_video in H. fold work_dir in H. rewrite Hst in H.
    simpl in H. congruence.
  - subst w'. unfold generate_video. fold work_dir. rewrite Hst. simpl.
    set_solver.
  - exists a. split; [exact Ht|]. split; [exact Hid|]. split; [exact Hwd|].
    split.
    { rewrite Hlen. destruct (omap id (all_images req)); [congruence|simpl; lia]. }
    split; [exact Hlen|]. split; [exact Hpaths|]. split; [exact Hts|].
    split; [|exact Hmusic].
    intros audio_duration.
    destruct (image_durations_defined (length (a_image_paths a))
                (a_start_times a) audio_duration) as (ds & Hds & _); [lia|].
    rewrite Hds. reflexivity.
Qed.

Lemma generate_video_accepted_arguments_witness :
  "j1" ∈ work_dirs
           (fst (generate_video demo_platform empty_world "j1"
                   (demo_submission "2"))).
Proof.
  apply (generate_video_accepted_arguments demo_platform empty_world "j1"
           (demo_submission "2")
           [("job_id", "j1"); ("status", "pending");
            ("message", "Votre vidéo est en cours de génération")]).
  vm_compute. reflexivity.
Defined.


(** ** Deletion *)

(** X15.  Deleting a job that has a status record removes the record and
    the working directory and answers with the success message; for an
    identifier without record the answer is 404 and nothing changes, so a
    second deletion of the same job is answered 404.  In both cases the
    other jobs keep their records and directories, and no background task
    is touched. *)
Theorem delete_job_effect :
  forall (w : world) (jid : string),
    let w' := fst (delete_job w jid) in
    (is_Some (jobs w !! jid) ->
     snd (delete_job w jid) = JSONResponse [("message", "Job supprimé avec succès")]
     /\ jobs w' !! jid = None /\ (jid ∉ work_dirs w')
     /\ delete_job w' jid = (w', HTTPException 404 "Job non trouvé"))
    /\ (jobs w !! jid = None ->
        delete_job w jid = (w, HTTPException 404 "Job non trouvé"))
    /\ (forall id', id' <> jid ->
          jobs w' !! id' = jobs w !! id'
          /\ (id' ∈ work_dirs w' <-> id' ∈ work_dirs w))
    /\ tasks w' = tasks w /\ clock w' = clock w.
Proof.
  intros w jid w'. subst w'. unfold delete_job, get_job_status_data.
  destruct (jobs w !! jid) as [r|] eqn:Hr; cbn [fst snd jobs work_dirs tasks clock].
  - split; [|split; [discriminate|split; [|split; reflexivity]]].
    + intros _. split; [reflexivity|].
      split; [apply lookup_delete_eq|]. split; [set_solver|].
      rewrite lookup_delete_eq. reflexivity.
    + intros id' Hne. split.
      * apply lookup_delete_ne. congruence.
      * set_solver.
  - split; [intros (r & Hr'); discriminate|].
    split; [reflexivity|]. split; [|split; reflexivity].
    intros id' _. split; [reflexivity | tauto].
Qed.

Lemma delete_job_effect_witness :
  jobs (fst (delete_job
               (save_job_status demo_platform empty_world "j1" FAILED 0
                  (Some "boom") None) "j1")) !! "j1" = None.
Proof.
  apply (delete_job_effect
           (save_job_status demo_platform empty_world "j1" FAILED 0
              (Some "boom") None) "j1").
  eexists. apply save_lookup.
Defined.

(** X16.  Deleting a job does not cancel its background task: in a state
    the service reaches, a task that has not returned is still there
    after the deletion of its job, and its next status write creates the
    record anew, in a state other than PENDING. *)
Theorem delete_job_does_not_cancel_task :
  forall (P : platform) (w : world) (jid : string) (t : task),
    reachable P w ->
    tasks w !! jid = Some t ->
    t_pc t <> Finished ->
    let w1 := fst (delete_job w jid) in
    jobs w1 !! jid = None /\
    tasks w1 !! jid = Some t /\
    step P w1 (run_task_step P w1 jid t) /\
    exists r,
      jobs (run_task_step P w1 jid t) !! jid = Some r /\
      job_id r = jid /\ status r <> PENDING.
Proof.
  intros P w jid t Hreach Ht Hpc w1.
  destruct (reachable_consistent P w Hreach jid t Ht) as (Hid & _).
  assert (Hj1 : jobs w1 !! jid = None).
  { subst w1. unfold delete_job, get_job_status_data.
    destruct (jobs w !! jid) eqn:Hr; simpl; [apply lookup_delete_eq | exact Hr]. }
  assert (Ht1 : tasks w1 !! jid = Some t).
  { subst w1. unfold delete_job, get_job_status_data.
    destruct (jobs w !! jid); exact Ht. }
  split; [exact Hj1|]. split; [exact Ht1|].
  split; [apply step_task; assumption|].
  destruct (task_step_effect P w1 t Hpc) as (st & pr & err & vp & Hw & _ & Hst & _).
  destruct (run_task_step_jobs P w1 jid t) as (Hjobs & _).
  rewrite Hjobs, Hw, Hid. eexists. split; [apply save_lookup|].
  split; [reflexivity|]. simpl.
  destruct Hst as [->|Hst]; [discriminate|].
  intros ->. discriminate.
Qed.

Lemma delete_job_does_not_cancel_task_witness :
  jobs (fst (delete_job
               (fst (generate_video demo_platform empty_world "j1"
                       (demo_submission "1"))) "j1")) !! "j1" = None.
Proof.
  destruct (tasks (fst (generate_video demo_platform empty_world "j1"
                          (demo_submission "1"))) !! "j1") as [t|] eqn:Ht.
  - apply (delete_job_does_not_cancel_task demo_platform
             (fst (generate_video demo_platform empty_world "j1"
                     (demo_submission "1"))) "j1" t).
    + apply (reachable_step demo_platform empty_world).
      * apply reachable_boot. reflexivity.
      * apply step_submit. split; reflexivity.
    + exact Ht.
    + vm_compute in Ht. injection Ht as <-. discriminate.
  - vm_compute in Ht. discriminate.
Defined.

(** ** The status and download endpoints *)

Lemma status_value_completed (s : JobStatus) :
  String.eqb (JobStatus_value s) (JobStatus_value COMPLETED)
  = match s with COMPLETED => true | _ => false end.
Proof. destruct s; reflexivity. Qed.

(** X17.  The status endpoint offers a download address exactly when the
    download endpoint delivers the file: both answer 404 for an unknown
    job; for a known one the address is /job/<id>/download when the job is
    COMPLETED and its artifact exists, and the download then serves that
    artifact; otherwise the address is null and the download is refused,
    with 400 when the job is not COMPLETED and 404 when the artifact is
    missing. *)
Theorem status_and_download_agree :
  forall (path_exists : string -> bool) (w : world) (jid : string),
    match get_job_status_endpoint path_exists w jid,
          download_video path_exists w jid with
    | HTTPError c1 d1, HTTPError c2 d2 =>
        jobs w !! jid = None /\ c1 = 404 /\ c2 = 404 /\
        d1 = "Job non trouvé" /\ d2 = "Job non trouvé"
    | Reply c, Reply f =>
        jobs w !! jid = Some (sc_job_data c) /\
        status (sc_job_data c) = COMPLETED /\
        sc_video_url c = Some ("/job/" +:+ jid +:+ "/download") /\
        video_path (sc_job_data c) = Some (fr_path f) /\
        path_exists (fr_path f) = true /\
        fr_media_type f = "video/mp4" /\ fr_filename f = "generated_video.mp4"
    | Reply c, HTTPError code detail =>
        jobs w !! jid = Some (sc_job_data c) /\
        sc_video_url c = None /\
        ((status (sc_job_data c) <> COMPLETED /\ code = 400 /\
          detail = "La vidéo n'est pas encore prête. Statut actuel: "
                   +:+ JobStatus_value (status (sc_job_data c)))
         \/ (status (sc_job_data c) = COMPLETED /\ code = 404 /\
             detail = "Fichier vidéo non trouvé"))
    | HTTPError _ _, Reply _ => False
    end.
Proof.
  intros path_exists w jid.
  unfold get_job_status_endpoint, download_video, get_job_status_data.
  destruct (jobs w !! jid) as [r|] eqn:Hr; [|auto 10].
  rewrite status_value_completed.
  destruct (status r) eqn:Hs; cbn [negb];
    try (split; [reflexivity|]; split; [reflexivity|]; left;
         cbn [sc_job_data]; rewrite Hs; split; [discriminate|];
         split; reflexivity).
  destruct (supplied (video_path r)) as [p|] eqn:Hp.
  - destruct (path_exists p) eqn:He.
    + cbn [sc_job_data sc_video_url fr_path fr_media_type fr_filename].
      split; [reflexivity|]. split; [exact Hs|]. split; [reflexivity|].
      split; [|auto].
      unfold supplied in Hp. destruct (video_path r) as [q|]; [|discriminate].
      destruct (String.eqb q ""); [discriminate | congruence].
    + cbn [sc_job_data sc_video_url]. split; [reflexivity|].
      split; [reflexivity|]. right. auto.
  - cbn [sc_job_data sc_video_url]. split; [reflexivity|].
    split; [reflexivity|]. right. auto.
Qed.

Section DownloadStates.

Variable path_exists : string -> bool.

Lemma download_of_record (w : world) (jid : string) (r : job_data) :
  jobs w !! jid = Some r ->
  download_video path_exists w jid
  = match status r with
    | COMPLETED =>
        match supplied (video_path r) with
        | Some p =>
            if path_exists p
            then Reply {| fr_path := p; fr_media_type := "video/mp4";
                          fr_filename := "generated_video.mp4" |}
            else HTTPError 404 "Fichier vidéo non trouvé"
        | None => HTTPError 404 "Fichier vidéo non trouvé"
        end
    | s => HTTPError 400 ("La vidéo n'est pas encore prête. Statut actuel: "
                          +:+ JobStatus_value s)
    end.
Proof.
  intros Hr. unfold download_video, get_job_status_data. rewrite Hr.
  rewrite status_value_completed. destruct (status r); reflexivity.
Qed.

End DownloadStates.

(** X18.  What the download endpoint answers along the life of a job: 400
    with the status "pending" right after the submission was accepted; the
    file final_video.mp4 of the working directory once the background
    task has run with success and the file exists; 400 with the status
    "failed" when the task has failed; 404 after the job was deleted. *)
Theorem download_along_job_life :
  forall (P : platform) (path_exists : string -> bool),
    (forall w jid req fields,
       snd (generate_video P w jid req) = JSONResponse fields ->
       download_video path_exists (fst (generate_video P w jid req)) jid
       = HTTPError 400 "La vidéo n'est pas encore prête. Statut actuel: pending")
    /\
    (forall w a,
       let output_path := path_join P (a_work_dir a) "final_video.mp4" in
       let w' := process_video_job P w a in
       (is_ok (copy_fonts_to_workdir P (a_work_dir a)) = true ->
        is_ok (call_build_video P a output_path) = true ->
        path_exists output_path = true ->
        download_video path_exists w' (a_job_id a)
        = Reply {| fr_path := output_path; fr_media_type := "video/mp4";
                   fr_filename := "generated_video.mp4" |})
       /\
       (is_ok (copy_fonts_to_workdir P (a_work_dir a)) = false
        \/ is_ok (call_build_video P a output_path) = false ->
        download_video path_exists w' (a_job_id a)
        = HTTPError 400 "La vidéo n'est pas encore prête. Statut actuel: failed"))
    /\
    (forall w jid,
       download_video path_exists (fst (delete_job w jid)) jid
       = HTTPError 404 "Job non trouvé").
Proof.
  intros P path_exists. split; [|split].
  - intros w jid req fields H.
    destruct (generate_video_accepted P w jid req fields H) as (a & _ & Hj & _).
    rewrite (download_of_record path_exists _ jid _ Hj). reflexivity.
  - intros w a output_path w'.
    destruct (process_video_job_record P w a) as (r & Hr & _ & Hcase).
    fold w' in Hr. fold output_path in Hcase.
    rewrite (download_of_record path_exists _ _ _ Hr). split.
    + intros Hf Hb He.
      destruct Hcase as [(Hs & _ & _ & Hv & _) | (_ & _ & _ & e & _ & [Hc | (_ & Hc)])].
      * rewrite Hs, Hv. unfold supplied.
        replace (String.eqb output_path "") with false.
        -- rewrite He. reflexivity.
        -- symmetry. apply String.eqb_neq. unfold output_path, path_join.
           apply append_nonempty_r, append_nonempty_r. discriminate.
      * rewrite Hc in Hf. discriminate.
      * rewrite Hc in Hb. discriminate.
    + intros Hfail.
      destruct Hcase as [(_ & _ & _ & _ & Hf & Hb) | (Hs & _)].
      * destruct Hfail as [Hx | Hx]; congruence.
      * rewrite Hs. reflexivity.
  - intros w jid. unfold download_video, get_job_status_data, delete_job,
      get_job_status_data.
    destruct (jobs w !! jid) eqn:Hr; simpl.
    + rewrite lookup_delete_eq. reflexivity.
    + rewrite Hr. reflexivity.
Qed.

Lemma download_along_job_life_witness :
  download_video (fun _ => true)
    (fst (generate_video demo_platform empty_world "j1" (demo_submission "1")))
    "j1"
  = HTTPError 400 "La vidéo n'est pas encore prête. Statut actuel: pending".
Proof.
  apply (proj1 (download_along_job_life demo_platform (fun _ => true))
           empty_world "j1" (demo_submission "1")
           [("job_id", "j1"); ("status", "pending");
            ("message", "Votre vidéo est en cours de génération")]).
  vm_compute. reflexivity.
Defined.


(** ** Invariants of the status store *)

(** Every status record carries the identifier it is filed under. *)
Definition well_keyed (w : world) : Prop :=
  forall id r, jobs w !! id = Some r -> job_id r = id.

Section StoreInvariants.

Variable P : platform.

Lemma save_well_keyed (w : world) (id : string) (st : JobStatus) (pr : Z)
    (err vp : option string) :
  well_keyed w -> well_keyed (save_job_status P w id st pr err vp).
Proof.
  intros Hk id' r Hr. destruct (decide (id = id')) as [<-|Hne].
  - rewrite save_lookup in Hr. injection Hr as <-. reflexivity.
  - rewrite save_lookup_ne in Hr by exact Hne. apply Hk, Hr.
Qed.

Lemma step_well_keyed (w w' : world) :
  consistent w -> well_keyed w -> step P w w' -> well_keyed w'.
Proof.
  intros Hc Hk Hs. destruct Hs as [w jid req _ | w jid t Ht Hpc | w jid].
  - unfold generate_video.
    destruct (stage_submission P jid _ req) as [a|e]; cbn [fst].
    + intros id r Hr. cbn [jobs] in Hr.
      eapply save_well_keyed; [|exact Hr].
      intros id' r' Hr'. apply Hk, Hr'.
    + intros id r Hr. apply Hk, Hr.
  - destruct (Hc jid t Ht) as (Hid & _).
    destruct (task_step_effect P w t Hpc) as (st & pr & err & vp & Hw & _).
    destruct (run_task_step_jobs P w jid t) as (Hjobs & _).
    intros id r Hr. rewrite Hjobs, Hw in Hr.
    eapply save_well_keyed; [exact Hk | exact Hr].
  - unfold delete_job, get_job_status_data.
    destruct (jobs w !! jid); cbn [fst]; [|exact Hk].
    intros id r Hr. cbn [jobs] in Hr.
    apply lookup_delete_Some in Hr. apply Hk, Hr.
Qed.

Lemma run_well_keyed (w0 w : world) :
  rtc (step P) w0 w -> consistent w0 -> well_keyed w0 ->
  consistent w /\ well_keyed w.
Proof.
  induction 1 as [w|w0 w1 w Hs _ IH]; intros Hc Hk; [auto|].
  apply IH.
  - eapply step_consistent; eassumption.
  - eapply step_well_keyed; eassumption.
Qed.

(** The task of a queued job after three steps. *)
Lemma run_task_returns (w : world) (a : job_args) :
  tasks w !! a_job_id a = Some {| t_args := a; t_pc := Queued |} ->
  tasks (run_task P 3 w (a_job_id a)) !! a_job_id a
  = Some {| t_args := a; t_pc := Finished |}.
Proof.
  intros Ht. set (id := a_job_id a) in *.
  set (t0 := {| t_args := a; t_pc := Queued |}) in *.
  rewrite (run_task_unfold P 2 w id t0 Ht) by discriminate.
  set (w1 := run_task_step P w id t0).
  pose proof (run_task_step_tasks P w id t0) as Ht1. fold w1 in Ht1.
  cbn in Ht1.
  set (t1 := {| t_args := a; t_pc := Started |}) in *.
  rewrite (run_task_unfold P 1 w1 id t1 Ht1) by discriminate.
  set (w2 := run_task_step P w1 id t1).
  pose proof (run_task_step_tasks P w1 id t1) as Ht2. fold w2 in Ht2.
  unfold task_step in Ht2. cbn [t_pc t_args t1] in Ht2.
  destruct (copy_fonts_to_workdir P (a_work_dir a)) as [u|e].
  - cbn [snd] in Ht2.
    set (t2 := {| t_args := a; t_pc := Staged |}) in *.
    rewrite (run_task_unfold P 0 w2 id t2 Ht2) by discriminate.
    cbn [run_task].
    rewrite (run_task_step_tasks P w2 id t2).
    unfold task_step. cbn [t_pc t_args t2].
    destruct (call_build_video P a _); reflexivity.
  - cbn [snd] in Ht2.
    rewrite (run_task_finished P 1 w2 id _ Ht2) by reflexivity.
    exact Ht2.
Qed.

End StoreInvariants.

(** X19.  Every status record carries the identifier it is filed under: when
    the service starts with no background task and a store of which this
    holds, it holds in every state the service goes through, whatever
    submissions, task steps and deletions are made. *)
Theorem status_records_well_keyed :
  forall (P : platform) (w0 w : world),
    tasks w0 = ∅ ->
    well_keyed w0 ->
    rtc (step P) w0 w ->
    well_keyed w.
Proof.
  intros P w0 w Hboot Hk Hrun.
  apply (run_well_keyed P w0 w Hrun); [|exact Hk].
  intros id t Ht. rewrite Hboot, lookup_empty in Ht. discriminate.
Qed.

Lemma status_records_well_keyed_witness :
  match jobs (fst (generate_video demo_platform empty_world "j1"
                     (demo_submission "1"))) !! "j1" with
  | Some r => job_id r = "j1"
  | None => True
  end.
Proof.
  destruct (jobs (fst (generate_video demo_platform empty_world "j1"
                         (demo_submission "1"))) !! "j1") as [r|] eqn:Hr;
    [|exact I].
  apply (status_records_well_keyed demo_platform empty_world
           (fst (generate_video demo_platform empty_world "j1"
                   (demo_submission "1")))).
  - reflexivity.
  - intros id r' Hr'. simpl in Hr'. rewrite lookup_empty in Hr'. discriminate.
  - apply rtc_once. apply step_submit. split; reflexivity.
  - exact Hr.
Defined.

(** X20.  The background task of an accepted job returns after at most
    three steps: the task is then marked as returned, the record of the
    job is the one [process_video_job] leaves, in a terminal state, and
    further steps change nothing. *)
Theorem background_task_returns :
  forall (P : platform) (w : world) (a : job_args),
    tasks w !! a_job_id a = Some {| t_args := a; t_pc := Queued |} ->
    let w' := run_task P 3 w (a_job_id a) in
    tasks w' !! a_job_id a = Some {| t_args := a; t_pc := Finished |} /\
    jobs w' = jobs (process_video_job P w a) /\
    (exists r, jobs w' !! a_job_id a = Some r /\ terminal (status r) = true) /\
    (forall n, run_task P n w' (a_job_id a) = w').
Proof.
  intros P w a Ht w'.
  pose proof (run_task_returns P w a Ht) as Hret. fold w' in Hret.
  destruct (run_task_process_video_job P w a Ht) as (Hjobs & _). fold w' in Hjobs.
  split; [exact Hret|]. split; [exact Hjobs|]. split.
  - rewrite Hjobs.
    destruct (process_video_job_record P w a) as (r & Hr & _ & Hcase).
    exists r. split; [exact Hr|].
    destruct Hcase as [(Hs & _) | (Hs & _)]; rewrite Hs; reflexivity.
  - intros n. eapply run_task_finished; [exact Hret | reflexivity].
Qed.

(** A job as [generate_video] queues it. *)
Definition demo_args : job_args :=
  {| a_job_id := "j1";
     a_image_paths := ["temp_files/j1/image_0.png"];
     a_audio_path := "temp_files/j1/audio.mp3";
     a_subtitles_string := "hi/0.0/there/0.5";
     a_start_times := [zero];
     a_caption_number_int := 6;
     a_color_stt := "&H00FFFFFF";
     a_color_encours := "&H0000FFFF";
     a_is_zoom_pan := "oui";
     a_background_music_path := None;
     a_is_chromatic_effect := "non";
     a_work_dir := "temp_files/j1" |}.

Definition demo_queued_world : world :=
  {| jobs := ∅; work_dirs := {["j1"]};
     tasks := {["j1" := {| t_args := demo_args; t_pc := Queued |}]};
     clock := 0 |}.

Lemma background_task_returns_witness :
  tasks (run_task demo_platform 3 demo_queued_world "j1") !! "j1"
  = Some {| t_args := demo_args; t_pc := Finished |}.
Proof.
  apply (background_task_returns demo_platform demo_queued_world demo_args).
  reflexivity.
Defined.

(** ** The command compiler: flags and non-finite durations *)

Lemma mapM_ext {A B : Type} (f g : A -> result B) (l : list A) :
  (forall a, f a = g a) -> mapM f l = mapM g l.
Proof.
  intros H. induction l as [|a l IH]; [reflexivity|].
  cbn [mapM]. rewrite H, IH. reflexivity.
Qed.

Section Flags.

Variable str_float : float -> string.

Lemma image_stage_no_zoom (choices choices' : nat -> preset)
    (is_chromatic_effect : string) (idur : nat * float) :
  image_stage str_float choices is_chromatic_effect "non" idur
  = image_stage str_float choices' is_chromatic_effect "non" idur.
Proof. destruct idur as [i d]. reflexivity. Qed.


Lemma compile_command_stage_ext (choices choices' : nat -> preset)
    (images : list string) (audio : string) (durations : list float)
    (zoom zoom' : string) (music : option string) (chroma chroma' : string)
    (subtitle_file_ffmpeg fonts_dir_ffmpeg output_path : string) :
  (forall idur,
     image_stage str_float choices chroma zoom idur
     = image_stage str_float choices' chroma' zoom' idur) ->
  compile_command str_float choices images audio durations zoom music chroma
    subtitle_file_ffmpeg fonts_dir_ffmpeg output_path
  = compile_command str_float choices' images audio durations zoom' music
      chroma' subtitle_file_ffmpeg fonts_dir_ffmpeg output_path.
Proof.
  intros H. unfold compile_command.
  rewrite (mapM_ext
             (fun i : nat =>
                let* d := index durations i in
                image_stage str_float choices chroma zoom (i, d))
             (fun i : nat =>
                let* d := index durations i in
                image_stage str_float choices' chroma' zoom' (i, d))).
  - reflexivity.
  - intros i. destruct (index durations i); [apply H | reflexivity].
Qed.

End Flags.

(** X21.  With the zoom flag "non" the compiled command does not depend on
    the random draws: whatever presets [random.choice] returns, the
    command is the same, and so is the outcome of [build_video]. *)
Theorem no_zoom_command_ignores_random_draws :
  forall (str_float : float -> string) (choices choices' : nat -> preset),
    (forall images audio durations music chroma sub fonts out,
       compile_command str_float choices images audio durations "non" music
         chroma sub fonts out
       = compile_command str_float choices' images audio durations "non" music
           chroma sub fonts out)
    /\
    (forall py_float str_upper os_path_join get_audio_duration run_ffmpeg
            images audio subtitles_string image_start_times caption_number
            color_stt color_encours music chroma out work_dir,
       build_video py_float str_float str_upper os_path_join
         get_audio_duration run_ffmpeg choices images audio subtitles_string
         image_start_times caption_number color_stt color_encours "non" music
         chroma out work_dir
       = build_video py_float str_float str_upper os_path_join
           get_audio_duration run_ffmpeg choices' images audio
           subtitles_string image_start_times caption_number color_stt
           color_encours "non" music chroma out work_dir).
Proof.
  intros sf choices choices'.
  assert (H : forall images audio durations music chroma sub fonts out,
             compile_command sf choices images audio durations "non" music
               chroma sub fonts out
             = compile_command sf choices' images audio durations "non" music
                 chroma sub fonts out).
  { intros. apply compile_command_stage_ext. intros idur.
    apply image_stage_no_zoom. }
  split; [exact H|].
  intros pf su join probe run images narration subs ts cn c1 c2 music chroma
         out wd.
  unfold build_video.
  destruct (parse_subtitles pf subs); [|reflexivity].
  cbn [bind]. destruct (create_ass_file _ _ _ _ _); [|reflexivity].
  cbn [bind]. destruct (probe narration); [|reflexivity].
  cbn [bind]. destruct (image_durations _ _ _); [|reflexivity].
  cbn [bind]. rewrite H. reflexivity.
Qed.



Lemma sub_not_finite_r (x y : float) :
  is_finite y = false -> is_finite (sub x y) = false.
Proof.
  intros H. destruct y as [sy|sy| |sy my ey]; try discriminate;
    destruct x as [sx|sx| |sx mx ex]; try reflexivity;
    destruct sx, sy; reflexivity.
Qed.

Lemma frames_not_finite (d : float) :
  is_finite d = false -> is_ok (py_int (mul d (of_Z FPS))) = false.
Proof.
  intros H. destruct d as [s|s| |s m e]; try discriminate; reflexivity.
Qed.

Section NonFiniteDurations.

Variable str_float : float -> string.

Lemma compile_command_not_finite (choices : nat -> preset)
    (images : list string) (audio : string) (durations : list float)
    (zoom : string) (music : option string) (chroma sub fonts out : string)
    (i : nat) (d : float) :
  (i < length images)%nat ->
  durations !! i = Some d ->
  is_finite d = false ->
  is_ok (compile_command str_float choices images audio durations zoom music
           chroma sub fonts out) = false.
Proof.
  intros Hi Hd Hnf. unfold compile_command.
  apply bind_not_ok_r. intros inputs. apply bind_not_ok.
  apply (mapM_not_ok _ _ i); [apply List.in_seq; lia|].
  unfold index. rewrite Hd. cbn [bind]. unfold image_stage.
  apply bind_not_ok, frames_not_finite, Hnf.
Qed.

End NonFiniteDurations.

(** X23.  A start time that is a NaN or an infinity -- values the float
    conversion accepts -- makes the render of its job fail: when it is the
    start time of one of the images, [build_video] raises, at the latest
    when the frame count of that image is computed, and ffmpeg is given no
    command. *)
Theorem non_finite_start_time_fails_render :
  forall (py_float : string -> result float) (str_float : float -> string)
         (str_upper : string -> string)
         (os_path_join : string -> string -> string)
         (get_audio_duration : string -> result float)
         (run_ffmpeg : list string -> result unit)
         (choices : nat -> preset) (images : list string)
         (audio subtitles_string : string) (image_start_times : list float)
         (caption_number : Z) (color_stt color_encours is_zoom_pan : string)
         (background_music_path : option string)
         (is_chromatic_effect output_path work_dir : string)
         (i : nat) (t : float),
    (i < length images)%nat ->
    image_start_times !! i = Some t ->
    is_finite t = false ->
    is_ok (build_video py_float str_float str_upper os_path_join
             get_audio_duration run_ffmpeg choices images audio
             subtitles_string image_start_times caption_number color_stt
             color_encours is_zoom_pan background_music_path
             is_chromatic_effect output_path work_dir) = false.
Proof.
  intros pf sf su join probe run choices images audio subs ts cn c1 c2 zoom
         music chroma out wd i t Hi Ht Hnf.
  unfold build_video.
  apply bind_not_ok_r. intros cues.
  apply bind_not_ok_r. intros document.
  apply bind_not_ok_r. intros audio_duration.
  destruct (image_durations (length images) ts audio_duration) as [ds|e] eqn:Hds;
    [|reflexivity].
  cbn [bind]. apply bind_not_ok.
  pose proof (image_durations_length _ _ _ _ Hds) as Hlen.
  destruct (lookup_lt_is_Some_2 ds i) as (d & Hd); [lia|].
  apply (compile_command_not_finite sf choices images audio ds zoom music
           chroma _ _ out i d Hi Hd).
  destruct (image_durations_lookup _ _ _ _ _ _ Hds Hd) as (_ & Hdur).
  unfold image_duration in Hdur. destruct (S i <? length images)%nat.
  - apply bind_ok in Hdur. destruct Hdur as (next & _ & Hdur).
    apply bind_ok in Hdur. destruct Hdur as (this & Hthis & Hdur).
    injection Hdur as <-. apply index_ok_inv in Hthis.
    apply sub_not_finite_r. congruence.
  - apply bind_ok in Hdur. destruct Hdur as (this & Hthis & Hdur).
    injection Hdur as <-. apply index_ok_inv in Hthis.
    apply sub_not_finite_r. congruence.
Qed.

Lemma non_finite_start_time_fails_render_witness :
  is_ok (build_video float_of_decimal float_repr ascii_upper
           (fun a b => a +:+ "/" +:+ b) (fun _ => Ok (of_Z 10))
           (fun _ => Ok tt) (fun _ => ZoomIn) ["a.png"; "b.png"] "voice.mp3"
           "hi/0.0" [zero; S754_infinity false] 1 "&H00FFFFFF" "&H0000FFFF"
           "non" None "non" "w/final_video.mp4" "w") = false.
Proof.
  apply (non_finite_start_time_fails_render float_of_decimal float_repr
           ascii_upper (fun a b => a +:+ "/" +:+ b) (fun _ => Ok (of_Z 10))
           (fun _ => Ok tt) (fun _ => ZoomIn) ["a.png"; "b.png"] "voice.mp3"
           "hi/0.0" [zero; S754_infinity false] 1 "&H00FFFFFF" "&H0000FFFF"
           "non" None "non" "w/final_video.mp4" "w" 1 (S754_infinity false)).
  - simpl. lia.
  - reflexivity.
  - reflexivity.
Defined.


(** ** Reading the transcript back *)

Lemma split_on_cons (sep c : ascii) (s : string) :
  split_on sep (String c s)
  = if Ascii.eqb c sep then EmptyString :: split_on sep s
    else match split_on sep s with
         | [] => [String c EmptyString]
         | w :: ws => String c w :: ws
         end.
Proof. reflexivity. Qed.

Lemma split_on_nonempty (sep : ascii) (s : string) : split_on sep s <> [].
Proof.
  destruct s as [|c s]; [discriminate|]. rewrite split_on_cons.
  destruct (Ascii.eqb c sep); [discriminate|].
  destruct (split_on sep s); discriminate.
Qed.

Lemma join_cons (sep x : string) (l : list string) :
  l <> [] -> join sep (x :: l) = x +:+ sep +:+ join sep l.
Proof. intros H. destruct l; [congruence | reflexivity]. Qed.

Lemma join_cons_char (sep : string) (c : ascii) (w : string) (ws : list string) :
  join sep (String c w :: ws) = String c (join sep (w :: ws)).
Proof. destruct ws; reflexivity. Qed.

(** Joining the tokens of a split gives the string back. *)
Lemma split_on_join (sep : ascii) (s : string) :
  join (String sep EmptyString) (split_on sep s) = s.
Proof.
  induction s as [|c s IH]; [reflexivity|].
  rewrite split_on_cons. destruct (Ascii.eqb_spec c sep) as [->|Hne].
  - rewrite join_cons by apply split_on_nonempty. rewrite IH. reflexivity.
  - pose proof (split_on_nonempty sep s) as Hn.
    destruct (split_on sep s) as [|w ws]; [congruence|].
    rewrite join_cons_char, IH. reflexivity.
Qed.

(** The character does not occur in the string. *)
Definition free_of (c : ascii) (s : string) : Prop :=
  ~ In c (list_ascii_of_string s).

Lemma split_on_free (sep : ascii) (s : string) :
  Forall (free_of sep) (split_on sep s).
Proof.
  induction s as [|c s IH].
  - constructor; [intros []|constructor].
  - rewrite split_on_cons. destruct (Ascii.eqb_spec c sep) as [->|Hne].
    + constructor; [intros []|exact IH].
    + destruct (split_on sep s) as [|w ws].
      * constructor; [|constructor]. intros [H|[]]. congruence.
      * inversion IH as [|? ? Hw Hws]; subst.
        constructor; [|exact Hws].
        intros [H|H]; [congruence | exact (Hw H)].
Qed.

(** The tokens [w0; t0; w1; t1; ...] of the words and the time tokens. *)
Fixpoint interleave (words times : list string) : list string :=
  match words, times with
  | w :: words', t :: times' => w :: t :: interleave words' times'
  | _, _ => []
  end.

Section ReadBack.

Variable pf : string -> result float.

Lemma parse_pairs_tokens (parts : list string) :
  forall cs, parse_pairs pf parts = Ok cs ->
  exists times rest,
    Forall2 (fun c t => pf t = Ok (start c)) cs times /\
    (length rest <= 1)%nat /\
    parts = interleave (map word cs) times ++ rest.
Proof.
  induction parts as [|a|a b l IH] using list_pair_ind; intros cs H.
  - injection H as <-. exists [], []. split; [constructor|]. split; [simpl; lia|].
    reflexivity.
  - injection H as <-. exists [], [a]. split; [constructor|].
    split; [simpl; lia|]. reflexivity.
  - cbn [parse_pairs] in H. apply bind_ok in H. destruct H as (x & Hx & H).
    apply bind_ok in H. destruct H as (cs' & Hcs' & H). injection H as <-.
    destruct (IH cs' Hcs') as (times & rest & HF & Hrest & Hparts).
    exists (b :: times), rest. split; [constructor; [exact Hx | exact HF]|].
    split; [exact Hrest|]. simpl. rewrite <- Hparts. reflexivity.
Qed.

Lemma fill_ends_words (cs : list cue) :
  map word (fill_ends cs) = map word cs /\ map start (fill_ends cs) = map start cs.
Proof.
  induction cs as [|c [|c' rest] IH]; [auto | auto |].
  destruct IH as (IH1 & IH2).
  change (fill_ends (c :: c' :: rest))
    with (set_end c (start c') :: fill_ends (c' :: rest)).
  cbn [map]. rewrite IH1, IH2. auto.
Qed.

Lemma pad_last_words (cs : list cue) :
  map word (pad_last cs) = map word cs /\ map start (pad_last cs) = map start cs.
Proof.
  induction cs as [|c [|c' rest] IH]; [auto | auto |].
  destruct IH as (IH1 & IH2).
  change (pad_last (c :: c' :: rest)) with (c :: pad_last (c' :: rest)).
  cbn [map]. rewrite IH1, IH2. auto.
Qed.

Lemma Forall2_same_starts (cs cs' : list cue) (times : list string) :
  map start cs' = map start cs ->
  Forall2 (fun c t => pf t = Ok (start c)) cs times ->
  Forall2 (fun c t => pf t = Ok (start c)) cs' times.
Proof.
  intros Hs HF. revert cs' Hs.
  induction HF as [|c t cs times Hc _ IH]; intros cs' Hs.
  - destruct cs'; [constructor | discriminate].
  - destruct cs' as [|c' cs']; [discriminate|].
    injection Hs as Hs1 Hs2. constructor; [congruence | apply IH, Hs2].
Qed.

End ReadBack.

(** X24.  The transcript can be read back from the cues: when the parser
    returns, the words of the cues, each followed by a time token that the
    float conversion maps to the start of the cue, and at most one
    trailing token without partner, joined with [/], are the transcript;
    no word contains a [/]. *)
Theorem parse_subtitles_read_back :
  forall (pf : string -> result float) (s : string) (cues : list cue),
    parse_subtitles pf s = Ok cues ->
    exists times rest,
      Forall2 (fun c t => pf t = Ok (start c)) cues times /\
      (length rest <= 1)%nat /\
      s = join "/" (interleave (map word cues) times ++ rest) /\
      Forall (fun c => free_of "/"%char (word c)) cues.
Proof.
  intros pf s cues H. unfold parse_subtitles in H.
  apply bind_ok in H. destruct H as (cs & Hcs & H). injection H as <-.
  destruct (parse_pairs_tokens pf _ cs Hcs) as (times & rest & HF & Hrest & Hparts).
  destruct (fill_ends_words cs) as (Hw1 & Hs1).
  destruct (pad_last_words (fill_ends cs)) as (Hw2 & Hs2).
  exists times, rest. split; [|split; [exact Hrest|split]].
  - eapply Forall2_same_starts; [|exact HF]. congruence.
  - rewrite Hw2, Hw1, <- Hparts. symmetry. apply split_on_join.
  - assert (Hfree : Forall (free_of "/"%char) (map word cs)).
    { pose proof (split_on_free "/"%char s) as Hall. rewrite Hparts in Hall.
      apply Forall_app in Hall. destruct Hall as (Hall & _).
      clear - Hall HF. revert Hall.
      induction HF as [|c t cs times _ _ IH]; intros Hall; [constructor|].
      simpl in Hall. inversion Hall as [|? ? Hc Hrest]; subst.
      inversion Hrest as [|? ? _ Hrest']; subst.
      constructor; [exact Hc | apply IH, Hrest']. }
    rewrite <- Hw1, <- Hw2 in Hfree.
    apply (proj1 (List.Forall_map _ _ _)) in Hfree. exact Hfree.
Qed.

Lemma parse_subtitles_read_back_witness :
  exists times rest,
    Forall2 (fun c t => float_of_decimal t = Ok (start c))
      [Cue "a" (decimal_to_float false 15 1) (decimal_to_float false 2 0);
       Cue "b" (decimal_to_float false 2 0)
         (add (decimal_to_float false 2 0) one)] times /\
    (length rest <= 1)%nat /\
    "a/1.5/b/2/c"
    = join "/" (interleave
                  (map word
                     [Cue "a" (decimal_to_float false 15 1)
                        (decimal_to_float false 2 0);
                      Cue "b" (decimal_to_float false 2 0)
                        (add (decimal_to_float false 2 0) one)])
                  times ++ rest) /\
    Forall (fun c => free_of "/"%char (word c))
      [Cue "a" (decimal_to_float false 15 1) (decimal_to_float false 2 0);
       Cue "b" (decimal_to_float false 2 0)
         (add (decimal_to_float false 2 0) one)].
Proof.
  apply (parse_subtitles_read_back float_of_decimal "a/1.5/b/2/c").
  vm_compute. reflexivity.
Defined.

(** ** The windows of the grouped styles *)

(** X25.  The windows the grouped styles work on are the slices
    [subtitles[3 k : 3 k + 3]] of the [while] loop: window [k] exists when
    [3 k] is below the number of cues and holds the cues from [3 k] up to
    [3 k + 3], cut at the end of the list. *)
Theorem windows_are_slices :
  forall (subtitles : list cue) (k : nat),
    windows subtitles !! k
    = if (3 * k <? length subtitles)%nat
      then Some (firstn 3 (skipn (3 * k) subtitles))
      else None.
Proof.
  intros subtitles k. revert subtitles.
  induction k as [|k IH]; intros subtitles.
  - destruct subtitles as [|a [|b [|c rest]]]; reflexivity.
  - destruct subtitles as [|a [|b [|c rest]]];
      try (destruct (Nat.ltb_spec (3 * S k) (length (A := cue) []));
           [simpl in *; lia | reflexivity]);
      try (destruct (Nat.ltb_spec (3 * S k) (length [a]));
           [simpl in *; lia | reflexivity]);
      try (destruct (Nat.ltb_spec (3 * S k) (length [a; b]));
           [simpl in *; lia | reflexivity]).
    change (windows (a :: b :: c :: rest)) with ([a; b; c] :: windows rest).
    change (([a; b; c] :: windows rest) !! S k) with (windows rest !! k).
    rewrite IH.
    replace (3 * S k)%nat with (S (S (S (3 * k)))) by lia.
    cbn [length skipn].
    destruct (Nat.ltb_spec (3 * k) (length rest));
      destruct (Nat.ltb_spec (S (S (S (3 * k)))) (S (S (S (length rest)))));
      try lia; reflexivity.
Qed.

(** ** The paths handed to ffmpeg *)

(** What the two replacements of [build_video] do to one character. *)
Definition escape_char (a : ascii) : string :=
  if Ascii.eqb a "\"%char then "/"
  else if Ascii.eqb a ":"%char then "\:"
  else String a EmptyString.

Fixpoint escape (p : string) : string :=
  match p with
  | EmptyString => EmptyString
  | String a p' => escape_char a +:+ escape p'
  end.

Lemma replace_char_cons (c : ascii) (by_ : string) (a : ascii) (s : string) :
  replace_char c by_ (String a s)
  = if Ascii.eqb a c then by_ +:+ replace_char c by_ s
    else String a (replace_char c by_ s).
Proof. reflexivity. Qed.

Lemma ffmpeg_path_escape (p : string) : ffmpeg_path p = escape p.
Proof.
  unfold ffmpeg_path. induction p as [|a p IH]; [reflexivity|].
  cbn [escape]. rewrite <- IH. unfold escape_char.
  rewrite (replace_char_cons "\"%char).
  destruct (Ascii.eqb_spec a "\"%char) as [->|Hb].
  - reflexivity.
  - rewrite (replace_char_cons ":"%char).
    destruct (Ascii.eqb a ":"%char); reflexivity.
Qed.

Lemma escape_app (p q : string) : escape (p +:+ q) = escape p +:+ escape q.
Proof.
  induction p as [|a p IH]; [reflexivity|].
  rewrite append_cons. cbn [escape]. rewrite IH, append_assoc. reflexivity.
Qed.

(** X26.  The two replacements that make a path fit for the filter graph
    amount to one pass over the path in which a backslash becomes a slash,
    a colon gets a backslash in front of it and every other character is
    kept; the pass goes through concatenation, so that the subtitle file
    named in the filter graph of a job is the fonts directory named there
    followed by the separator and subtitles.ass. *)
Theorem ffmpeg_path_single_pass :
  forall P : platform,
    (forall p, ffmpeg_path p = escape p) /\
    (forall p q, ffmpeg_path (p +:+ q) = ffmpeg_path p +:+ ffmpeg_path q) /\
    (forall work_dir,
       ffmpeg_path (path_join P work_dir "subtitles.ass")
       = ffmpeg_path work_dir +:+ ffmpeg_path (os_sep P) +:+ "subtitles.ass").
Proof.
  intros P. split; [exact ffmpeg_path_escape|]. split.
  - intros p q. rewrite !ffmpeg_path_escape. apply escape_app.
  - intros work_dir. unfold path_join. rewrite !ffmpeg_path_escape, !escape_app.
    reflexivity.
Qed.

(** ** The start-time tokens *)

(** No white-space character starts at any position of [t]. *)
Fixpoint no_ws (t : string) : bool :=
  match t with
  | EmptyString => true
  | String c t' => (ws_width t =? 0)%nat && no_ws t'
  end.

(** The same for the positions of [word] when [rest] follows it. *)
Fixpoint no_ws_before (word rest : string) : bool :=
  match word with
  | EmptyString => true
  | String c word' =>
      (ws_width (word +:+ rest) =? 0)%nat && no_ws_before word' rest
  end.

Lemma ws_width_prefix (a b : string) :
  ws_width (a +:+ b) = 0%nat -> ws_width a = 0%nat.
Proof.
  destruct a as [|c [|c1 [|c2 a]]]; [reflexivity| | |].
  - rewrite append_cons. unfold ws_width.
    destruct (ws1 (nat_of_ascii c)); [discriminate | reflexivity].
  - rewrite !append_cons. unfold ws_width.
    destruct (ws1 (nat_of_ascii c)); [discriminate|].
    destruct (ws2 (nat_of_ascii c) (nat_of_ascii c1)); [discriminate | reflexivity].
  - rewrite !append_cons. unfold ws_width. intros H. exact H.
Qed.

Lemma no_ws_before_no_ws (word rest : string) :
  no_ws_before word rest = true -> no_ws word = true.
Proof.
  induction word as [|c word IH]; [reflexivity|].
  cbn [no_ws_before no_ws]. intros H. apply andb_true_iff in H.
  destruct H as (H1 & H2). apply Nat.eqb_eq in H1.
  apply ws_width_prefix in H1. rewrite H1, (IH H2). reflexivity.
Qed.

Lemma no_ws_before_snoc (word : string) (c : ascii) (s : string) :
  no_ws_before word (String c s) = true ->
  ws_width (String c s) = 0%nat ->
  no_ws_before (word +:+ String c EmptyString) s = true.
Proof.
  intros H Hc. induction word as [|a word IH].
  - change (no_ws_before (String c EmptyString) s = true).
    cbn [no_ws_before]. change (String c EmptyString +:+ s) with (String c s).
    rewrite Hc. reflexivity.
  - cbn [no_ws_before] in H. apply andb_true_iff in H. destruct H as (H1 & H2).
    rewrite append_cons. cbn [no_ws_before].
    rewrite <- append_cons, append_assoc.
    change (String c EmptyString +:+ s) with (String c s).
    rewrite H1, (IH H2). reflexivity.
Qed.

(** The tokens of [s.split()] are not empty and hold no white space. *)
Lemma split_ws_from_tokens (s : string) :
  forall (skip : nat) (word : string),
    (skip = 0%nat -> no_ws_before word s = true) ->
    (skip <> 0%nat -> word = EmptyString) ->
    Forall (fun t => t <> "" /\ no_ws t = true) (split_ws_from skip word s).
Proof.
  assert (Hword : forall word rest,
            no_ws_before word rest = true ->
            Forall (fun t => t <> "" /\ no_ws t = true)
                   (if String.eqb word "" then [] else [word])).
  { intros word rest H. destruct (String.eqb_spec word "") as [E|E];
      constructor; [|constructor].
    split; [exact E|]. eapply no_ws_before_no_ws. exact H. }
  induction s as [|c s IH]; intros skip word H0 H1.
  - cbn [split_ws_from]. destruct skip as [|k].
    + apply (Hword word EmptyString). apply H0. reflexivity.
    + rewrite H1 by discriminate. constructor.
  - cbn [split_ws_from]. destruct skip as [|k].
    + specialize (H0 eq_refl).
      destruct (ws_width (String c s)) as [|k] eqn:Hc.
      * apply IH; [|congruence]. intros _. apply no_ws_before_snoc; assumption.
      * apply Forall_app. split; [apply (Hword word (String c s)); exact H0|].
        apply IH; [reflexivity | reflexivity].
    + apply IH; [|intros _; apply H1; discriminate].
      intros _. rewrite H1 by discriminate. reflexivity.
Qed.

Lemma split_ws_tokens (s : string) :
  Forall (fun t => t <> "" /\ no_ws t = true) (split_ws s).
Proof.
  apply split_ws_from_tokens; [reflexivity | congruence].
Qed.

Lemma lstrip_no_ws (t : string) : no_ws t = true -> lstrip t = t.
Proof.
  destruct t as [|c t]; [reflexivity|]. cbn [no_ws]. intros H.
  apply andb_true_iff in H. destruct H as (H & _). apply Nat.eqb_eq in H.
  unfold lstrip. cbn [lstrip_from]. rewrite H. reflexivity.
Qed.

Lemma rstrip_no_ws (t : string) : no_ws t = true -> rstrip t = t.
Proof.
  induction t as [|c t IH]; [reflexivity|]. intros H.
  cbn [rstrip]. unfold blank. rewrite (lstrip_no_ws _ H).
  change (String.eqb (String c t) "") with false. cbv iota.
  cbn [no_ws] in H. apply andb_true_iff in H. destruct H as (_ & H).
  rewrite (IH H). reflexivity.
Qed.

Lemma strip_no_ws (t : string) : no_ws t = true -> strip t = t.
Proof.
  intros H. unfold strip. rewrite (lstrip_no_ws t H). apply rstrip_no_ws, H.
Qed.

(** X27.  In the comprehension that reads the start times, the calls of
    [strip] change nothing and the filter drops nothing: the strings
    handed to [float] are the tokens of the split, none of which is empty
    or holds white space.  White space is Unicode white space: a comma, a
    tabulation and a no-break space (U+00A0, the bytes 194 and 160) all
    separate two start times. *)
Theorem start_time_tokens_are_split_tokens :
  (forall image_start_times : string,
     start_time_tokens image_start_times
     = split_ws (replace_char ","%char " " image_start_times)
     /\ Forall (fun t => t <> "" /\ no_ws t = true)
          (start_time_tokens image_start_times))
  /\ start_time_tokens
       ("0" +:+ String "194"%char (String "160"%char "1.5")
        +:+ ", 3" +:+ String "009"%char "4.5 ")
     = ["0"; "1.5"; "3"; "4.5"].
Proof.
  split; [|vm_compute; reflexivity].
  intros s. unfold start_time_tokens.
  pose proof (split_ws_tokens (replace_char ","%char " " s)) as H.
  assert (E : map strip
                (List.filter (fun x => negb (String.eqb (strip x) ""))
                   (split_ws (replace_char ","%char " " s)))
              = split_ws (replace_char ","%char " " s)).
  { induction H as [|t l (Ht1 & Ht2) _ IH]; [reflexivity|].
    cbn [List.filter]. rewrite (strip_no_ws t Ht2).
    replace (String.eqb t "") with false
      by (symmetry; apply String.eqb_neq; exact Ht1).
    cbn [negb map]. rewrite (strip_no_ws t Ht2), IH. reflexivity. }
  rewrite E. split; [reflexivity | exact H].
Qed.


(** ** Negative timestamps *)

Definition formats_negative (n : Z) : bool :=
  match format_time_ass (of_Z (- n)) with
  | Ok s =>
      String.eqb s ("-1:" +:+ two_digits ((3600 - n) / 60 mod 60) +:+ ":"
                    +:+ two_digits ((3600 - n) mod 60) +:+ ".00")
  | Raise _ => false
  end.

Lemma formats_negative_all :
  all_from (Z.to_nat 600) 1 formats_negative = true.
Proof. vm_cast_no_check (eq_refl true). Qed.

(** X28.  The formatter does not reject negative times: floor division and
    modulo round toward minus infinity, so that for a whole number [n] of
    seconds between 1 and 600 the time [- n] is written with the hour
    field -1 followed by the minutes and seconds of [3600 - n]. *)
Theorem format_time_ass_negative_seconds :
  forall n : Z,
    1 <= n <= 600 ->
    format_time_ass (of_Z (- n))
    = Ok ("-1:" +:+ two_digits ((3600 - n) / 60 mod 60) +:+ ":"
          +:+ two_digits ((3600 - n) mod 60) +:+ ".00").
Proof.
  intros n Hn.
  pose proof (all_from_spec formats_negative _ 1 formats_negative_all n) as H.
  rewrite Z2Nat.id in H by lia.
  assert (Hr : 1 <= n < 1 + 600) by lia. specialize (H Hr).
  unfold formats_negative in H.
  destruct (format_time_ass (of_Z (- n))) as [s|e]; [|discriminate].
  apply String.eqb_eq in H. congruence.
Qed.

Lemma format_time_ass_negative_seconds_witness :
  format_time_ass (of_Z (- 1)) = Ok "-1:59:59.00".
Proof.
  apply (format_time_ass_negative_seconds 1). lia.
Defined.


(** ** The sign of a difference *)

Section DifferenceSign.

Lemma shr_1_half (mrs : shr_record) :
  0 <= shr_m mrs -> shr_m (shr_1 mrs) = shr_m mrs / 2.
Proof.
  destruct mrs as [m r s]. simpl. intros Hm.
  destruct m as [|[p|p|]|p]; cbn [shr_m]; try lia.
  - reflexivity.
  - apply (Z.div_unique (Z.pos p~1) 2 (Z.pos p) 1); lia.
  - apply (Z.div_unique (Z.pos p~0) 2 (Z.pos p) 0); lia.
  - reflexivity.
Qed.

Lemma iter_shr_1_quotient (p : positive) :
  forall mrs, 0 <= shr_m mrs ->
    shr_m (SpecFloat.iter_pos shr_1 p mrs) = shr_m mrs / 2 ^ Zpos p.
Proof.
  induction p as [p IH|p IH|]; intros mrs Hm; cbn [SpecFloat.iter_pos].
  - rewrite IH by (apply iter_pos_invariant;
                   [apply shr_1_nonneg | apply shr_1_nonneg, Hm]).
    rewrite IH by (apply shr_1_nonneg, Hm).
    rewrite shr_1_half by exact Hm.
    rewrite !Z.div_div by (try apply Z.pow_pos_nonneg; lia).
    f_equal. replace (Z.pos p~1) with (1 + Z.pos p + Z.pos p) by lia.
    rewrite !Z.pow_add_r by lia. change (2 ^ 1) with 2. lia.
  - rewrite IH by (apply iter_pos_invariant; [apply shr_1_nonneg | exact Hm]).
    rewrite IH by exact Hm.
    rewrite !Z.div_div by (try apply Z.pow_pos_nonneg; lia).
    f_equal. replace (Z.pos p~0) with (Z.pos p + Z.pos p) by lia.
    rewrite Z.pow_add_r by lia. reflexivity.
  - rewrite shr_1_half by exact Hm. reflexivity.
Qed.

Lemma shr_record_of_loc_m (m : Z) (l : location) :
  shr_m (shr_record_of_loc m l) = m.
Proof. destruct l as [|[| |]]; reflexivity. Qed.

(** Shifting a positive mantissa to its canonical exponent leaves at
    least one bit of it. *)
Lemma shr_fexp_pos (m e : Z) (l : location) :
  0 < m -> SpecFloat.emin prec emax <= e ->
  0 < shr_m (fst (shr_fexp prec emax m e l))
  /\ SpecFloat.emin prec emax <= snd (shr_fexp prec emax m e l).
Proof.
  intros Hm He. unfold shr_fexp, shr.
  destruct (fexp prec emax (Zdigits2 m + e) - e) as [|q|q] eqn:Hn;
    cbn [fst snd]; try (rewrite shr_record_of_loc_m; split; assumption).
  split; [|lia].
  rewrite iter_shr_1_quotient by (rewrite shr_record_of_loc_m; lia).
  rewrite shr_record_of_loc_m.
  destruct m as [|p|p]; try lia. cbn [Zdigits2] in Hn.
  pose proof (digits2_bounds p) as (Hlow & _).
  unfold fexp, SpecFloat.emin, prec, emax in *.
  assert (Hq : Z.pos q = Z.pos (digits2_pos p) - 53) by lia.
  assert (Hpow : 2 ^ (Z.pos (digits2_pos p) - 1) = 2 ^ 52 * 2 ^ Z.pos q).
  { rewrite <- Z.pow_add_r by lia. f_equal. lia. }
  assert (Hge : 2 ^ 52 <= Z.pos p / 2 ^ Z.pos q).
  { apply Z.div_le_lower_bound; [apply Z.pow_pos_nonneg; lia|]. lia. }
  change (2 ^ 52) with 4503599627370496 in Hge. lia.
Qed.

Lemma round_nearest_even_pos (m : Z) (l : location) :
  0 < m -> 0 < round_nearest_even m l.
Proof.
  intros Hm. unfold round_nearest_even.
  destruct l as [|[| |]]; try destruct (IntDef.Z.even m); lia.
Qed.

(** A finite value or an infinity with the sign [s]. *)
Definition signed (s : bool) (x : float) : Prop :=
  match x with
  | S754_finite s' _ _ | S754_infinity s' => s' = s
  | _ => False
  end.

Lemma binary_round_aux_signed (s : bool) (m e : Z) (l : location) :
  0 < m -> SpecFloat.emin prec emax <= e ->
  signed s (binary_round_aux prec emax s m e l).
Proof.
  intros Hm He. unfold binary_round_aux.
  destruct (shr_fexp_pos m e l Hm He) as (H1 & E1).
  destruct (shr_fexp prec emax m e l) as [mrs' e'] eqn:S1. cbn [fst snd] in H1, E1.
  destruct (shr_fexp_pos (round_nearest_even (shr_m mrs') (loc_of_shr_record mrs'))
              e' loc_Exact (round_nearest_even_pos _ _ H1) E1) as (H2 & _).
  destruct (shr_fexp prec emax _ e' loc_Exact) as [mrs'' e''] eqn:S2.
  cbn [fst] in H2.
  destruct (shr_m mrs'') as [|p|p]; try lia.
  destruct (e'' <=? emax - prec); reflexivity.
Qed.

Lemma binary_round_signed (s : bool) (p : positive) (e : Z) :
  SpecFloat.emin prec emax <= e ->
  signed s (binary_round prec emax s p e).
Proof.
  intros He. unfold binary_round.
  destruct (shl_align p e (fexp prec emax (Z.pos (digits2_pos p) + e)))
    as [mz ez] eqn:Hs.
  apply binary_round_aux_signed; [lia|].
  unfold shl_align in Hs.
  destruct (fexp prec emax (Z.pos (digits2_pos p) + e) - e) eqn:Hd;
    injection Hs as _ <-; try exact He.
  unfold fexp. lia.
Qed.

Lemma binary_normalize_signed (m e : Z) :
  m <> 0 -> SpecFloat.emin prec emax <= e ->
  signed (m <? 0) (binary_normalize prec emax m e false).
Proof.
  intros Hm He. unfold binary_normalize.
  destruct m as [|p|p]; [congruence| |]; apply binary_round_signed, He.
Qed.

Lemma valid_exponent (s : bool) (m : positive) (e : Z) :
  valid (S754_finite s m e) = true -> SpecFloat.emin prec emax <= e.
Proof.
  intros H. apply valid_canonical in H.
  unfold canonical_mantissa, fexp in H. apply Z.eqb_eq in H. lia.
Qed.

Lemma compare_cont_Eq_lt (m1 m2 : positive) :
  PosDef.Pos.compare_cont Eq m1 m2 = Lt -> Zpos m1 < Zpos m2.
Proof.
  intros H. change (PosDef.Pos.compare_cont Eq m1 m2) with (Pos.compare m1 m2) in H.
  apply Pos.compare_lt_iff in H. apply Pos2Z.pos_lt_pos. exact H.
Qed.

Lemma compare_cont_Eq_gt (m1 m2 : positive) :
  PosDef.Pos.compare_cont Eq m1 m2 = Gt -> Zpos m2 < Zpos m1.
Proof.
  intros H. change (PosDef.Pos.compare_cont Eq m1 m2) with (Pos.compare m1 m2) in H.
  apply Pos.compare_gt_iff in H. apply Pos2Z.pos_lt_pos. exact H.
Qed.

Lemma compare_cont_Eq_eq (m1 m2 : positive) :
  PosDef.Pos.compare_cont Eq m1 m2 = Eq -> m1 = m2.
Proof.
  intros H. change (PosDef.Pos.compare_cont Eq m1 m2) with (Pos.compare m1 m2) in H.
  apply Pos.compare_eq_iff in H. exact H.
Qed.

(** The order of two finite floats is the sign of their aligned
    difference. *)
Lemma aligned_difference_compare (sa sb : bool) (ma mb : positive) (ea eb : Z) :
  valid (S754_finite sa ma ea) = true ->
  valid (S754_finite sb mb eb) = true ->
  SFcompare (S754_finite sb mb eb) (S754_finite sa ma ea)
  = Some (Z.compare
            (cond_Zopp sb (Zpos (fst (shl_align mb eb (Z.min eb ea))))
             - cond_Zopp sa (Zpos (fst (shl_align ma ea (Z.min eb ea))))) 0).
Proof.
  intros Va Vb.
  apply valid_canonical in Va, Vb.
  rewrite !shl_align_value by lia.
  assert (Pa : 0 < Zpos ma * 2 ^ (ea - Z.min eb ea))
    by (apply Z.mul_pos_pos; [lia | apply Z.pow_pos_nonneg; lia]).
  assert (Pb : 0 < Zpos mb * 2 ^ (eb - Z.min eb ea))
    by (apply Z.mul_pos_pos; [lia | apply Z.pow_pos_nonneg; lia]).
  unfold SFcompare. f_equal. symmetry.
  destruct sa, sb; simpl cond_Zopp.
  - (* both negative *)
    destruct (Z.compare_spec eb ea) as [E|E|E].
    + subst eb. rewrite Z.min_id, Z.sub_diag, !Z.mul_1_r.
      destruct (PosDef.Pos.compare_cont Eq mb ma) eqn:C; cbn [CompOpp].
      * apply compare_cont_Eq_eq in C. subst. apply Z.compare_eq_iff. lia.
      * apply compare_cont_Eq_lt in C. apply Z.compare_gt_iff. lia.
      * apply compare_cont_Eq_gt in C. apply Z.compare_lt_iff. lia.
    + rewrite Z.min_l by lia. rewrite Z.sub_diag, Z.mul_1_r.
      pose proof (canonical_exponent_order mb ma eb ea Vb Va E).
      apply Z.compare_gt_iff. lia.
    + rewrite Z.min_r by lia. rewrite Z.sub_diag, Z.mul_1_r.
      pose proof (canonical_exponent_order ma mb ea eb Va Vb E).
      apply Z.compare_lt_iff. lia.
  - apply Z.compare_gt_iff. lia.
  - apply Z.compare_lt_iff. lia.
  - (* both positive *)
    destruct (Z.compare_spec eb ea) as [E|E|E].
    + subst eb. rewrite Z.min_id, Z.sub_diag, !Z.mul_1_r.
      destruct (PosDef.Pos.compare_cont Eq mb ma) eqn:C.
      * apply compare_cont_Eq_eq in C. subst. apply Z.compare_eq_iff. lia.
      * apply compare_cont_Eq_lt in C. apply Z.compare_lt_iff. lia.
      * apply compare_cont_Eq_gt in C. apply Z.compare_gt_iff. lia.
    + rewrite Z.min_l by lia. rewrite Z.sub_diag, Z.mul_1_r.
      pose proof (canonical_exponent_order mb ma eb ea Vb Va E).
      apply Z.compare_lt_iff. lia.
    + rewrite Z.min_r by lia. rewrite Z.sub_diag, Z.mul_1_r.
      pose proof (canonical_exponent_order ma mb ea eb Va Vb E).
      apply Z.compare_gt_iff. lia.
Qed.

Lemma signed_compare (s : bool) (x : float) :
  signed s x -> SFcompare x zero = Some (if s then Lt else Gt).
Proof.
  destruct x as [s'|s'| |s' m e]; simpl; intros H; try contradiction;
    subst s'; reflexivity.
Qed.

(** The difference of two finite floats compares with zero as the floats
    compare with each other: rounding never changes its sign and never
    makes it vanish. *)
Lemma sub_compare (a b : float) :
  valid a = true -> valid b = true ->
  is_finite a = true -> is_finite b = true ->
  SFcompare (sub b a) zero = SFcompare b a.
Proof.
  intros Va Vb Fa Fb.
  destruct a as [sa|sa| |sa ma ea]; try discriminate;
    destruct b as [sb|sb| |sb mb eb]; try discriminate.
  - destruct sa, sb; reflexivity.
  - destruct sb; reflexivity.
  - destruct sa; reflexivity.
  - rewrite (aligned_difference_compare sa sb ma mb ea eb Va Vb).
    unfold sub, SFsub. cbv zeta.
    set (D := cond_Zopp sb _ - cond_Zopp sa _).
    assert (He : SpecFloat.emin prec emax <= Z.min eb ea).
    { apply valid_exponent in Va, Vb. lia. }
    destruct (Z.compare_spec D 0) as [E|E|E].
    + rewrite E. reflexivity.
    + pose proof (binary_normalize_signed D (Z.min eb ea)) as H.
      replace (D <? 0) with true in H by (symmetry; apply Z.ltb_lt; lia).
      apply (signed_compare true). apply H; [lia | exact He].
    + pose proof (binary_normalize_signed D (Z.min eb ea)) as H.
      replace (D <? 0) with false in H by (symmetry; apply Z.ltb_ge; lia).
      apply (signed_compare false). apply H; [lia | exact He].
Qed.

End DifferenceSign.

(** X29.  The sign of a display duration follows the order of the two times
    it is computed from, which the code never checks: for finite times,
    the duration of an image compares with zero as the start of the next
    image (for the last image, the duration of the narration) compares
    with its own start.  In particular a start time later than its
    successor gives a negative duration. *)
Theorem duration_sign_follows_order :
  forall (n : nat) (ts : list float) (audio : float) (ds : list float)
         (i : nat) (d this : float),
    image_durations n ts audio = Ok ds ->
    (forall t, In t ts -> valid t = true /\ is_finite t = true) ->
    valid audio = true -> is_finite audio = true ->
    ds !! i = Some d ->
    ts !! i = Some this ->
    SFcompare d zero
    = SFcompare (if (S i <? n)%nat
                 then match ts !! S i with Some next => next | None => audio end
                 else audio) this.
Proof.
  intros n ts audio ds i d this Hds Hts Va Fa Hd Hthis.
  destruct (image_durations_lookup n ts audio ds i d Hds Hd) as (Hlt & Hdur).
  assert (Hin : forall k x, ts !! k = Some x -> valid x = true /\ is_finite x = true).
  { intros k x Hx. apply Hts, list_elem_of_In. eapply list_elem_of_lookup_2, Hx. }
  destruct (Hin _ _ Hthis) as (Vt & Ft).
  unfold image_duration in Hdur. destruct (S i <? n)%nat.
  - apply bind_ok in Hdur. destruct Hdur as (next & Hnext & Hdur).
    apply bind_ok in Hdur. destruct Hdur as (this' & Hthis' & Hdur).
    injection Hdur as <-.
    apply index_ok_inv in Hnext, Hthis'. rewrite Hnext.
    assert (this' = this) by congruence. subst this'.
    destruct (Hin _ _ Hnext) as (Vn & Fn).
    apply sub_compare; assumption.
  - apply bind_ok in Hdur. destruct Hdur as (this' & Hthis' & Hdur).
    injection Hdur as <-. apply index_ok_inv in Hthis'.
    assert (this' = this) by congruence. subst this'.
    apply sub_compare; assumption.
Qed.

Lemma duration_sign_follows_order_witness :
  SFcompare (sub (of_Z 1) (of_Z 5)) zero = Some Lt.
Proof.
  apply (duration_sign_follows_order 2 [of_Z 5; of_Z 1] (of_Z 10)
           [sub (of_Z 1) (of_Z 5); sub (of_Z 10) (of_Z 1)] 0
           (sub (of_Z 1) (of_Z 5)) (of_Z 5)).
  - vm_compute. reflexivity.
  - intros t [<-|[<-|[]]]; split; vm_compute; reflexivity.
  - vm_compute. reflexivity.
  - reflexivity.
  - reflexivity.
  - reflexivity.
Defined.


(** ** Display durations and the order of the start times *)

Lemma SFcompare_antisym (x y : float) :
  SFcompare y x
  = match SFcompare x y with Some c => Some (CompOpp c) | None => None end.
Proof.
  destruct x as [sx|sx| |sx mx ex], y as [sy|sy| |sy my ey]; simpl;
    try reflexivity;
    try (destruct sx; reflexivity); try (destruct sy; reflexivity);
    try (destruct sx, sy; reflexivity).
  destruct sx, sy; try reflexivity.
  - rewrite (Z.compare_antisym ex ey).
    destruct (ex ?= ey); simpl; try reflexivity.
    rewrite (Pos.compare_cont_antisym mx my Eq). reflexivity.
  - rewrite (Z.compare_antisym ex ey).
    destruct (ex ?= ey); simpl; try reflexivity.
    rewrite (Pos.compare_cont_antisym mx my Eq). reflexivity.
Qed.

(** A difference of finite floats that is not negative comes from operands
    in order. *)
Lemma nonneg_difference_order (a b : float) :
  valid a = true -> valid b = true ->
  is_finite a = true -> is_finite b = true ->
  leb zero (sub b a) = true -> leb a b = true.
Proof.
  intros Va Vb Fa Fb H. unfold leb, SFleb in *.
  rewrite (SFcompare_antisym (sub b a) zero) in H.
  rewrite (sub_compare a b Va Vb Fa Fb) in H.
  rewrite (SFcompare_antisym b a).
  destruct (SFcompare b a) as [[| |]|]; simpl in *; congruence.
Qed.

Lemma image_durations_at (n : nat) (ts : list float) (audio : float)
    (ds : list float) (i : nat) :
  image_durations n ts audio = Ok ds -> (i < n)%nat ->
  exists d, ds !! i = Some d /\ image_duration n ts audio i = Ok d.
Proof.
  unfold image_durations. intros H Hi. apply mapM_ok_Forall2 in H.
  assert (Hs : seq 0 n !! i = Some i).
  { apply lookup_seq. split; [reflexivity | exact Hi]. }
  destruct (Forall2_lookup_l _ _ _ _ _ H Hs) as (d & Hd & Hf).
  exists d. auto.
Qed.

(** C5.  The display durations are not non-negative for every job: the
    start times are taken as submitted, in any order.  For finite start
    times, one per image at least, the durations are defined, one per
    image, and all of them are non-negative exactly when every image
    starts no later than the next one and the last image starts no later
    than the narration ends. *)
Theorem display_durations_nonneg_iff_ordered :
  forall (n : nat) (ts : list float) (audio : float),
    (n <= length ts)%nat ->
    (forall t, In t ts -> valid t = true /\ is_finite t = true) ->
    valid audio = true -> is_finite audio = true ->
    exists ds,
      image_durations n ts audio = Ok ds /\ length ds = n /\
      ((forall d, In d ds -> leb zero d = true)
       <->
       (forall i x y, (S i < n)%nat -> ts !! i = Some x -> ts !! S i = Some y ->
                      leb x y = true)
       /\ (forall x, (0 < n)%nat -> ts !! (n - 1)%nat = Some x ->
                     leb x audio = true)).
Proof.
  intros n ts audio Hn Hts Va Fa.
  destruct (image_durations_defined n ts audio Hn) as (ds & Hds & Hlen).
  exists ds. split; [exact Hds|]. split; [exact Hlen|].
  assert (Hin : forall k x, ts !! k = Some x -> valid x = true /\ is_finite x = true).
  { intros k x Hx. apply Hts, list_elem_of_In. eapply list_elem_of_lookup_2, Hx. }
  split.
  - intros Hall. split.
    + intros i x y Hi Hx Hy.
      destruct (image_durations_at n ts audio ds i Hds) as (d & Hd & Hdur); [lia|].
      unfold image_duration, index in Hdur.
      replace (S i <? n)%nat with true in Hdur
        by (symmetry; apply Nat.ltb_lt; exact Hi).
      rewrite Hy, Hx in Hdur. cbn [bind] in Hdur. injection Hdur as <-.
      destruct (Hin _ _ Hx) as (Vx & Fx). destruct (Hin _ _ Hy) as (Vy & Fy).
      apply nonneg_difference_order; auto.
      apply Hall, list_elem_of_In. eapply list_elem_of_lookup_2, Hd.
    + intros x Hpos Hx.
      destruct (image_durations_at n ts audio ds (n - 1) Hds) as (d & Hd & Hdur);
        [lia|].
      unfold image_duration, index in Hdur.
      replace (S (n - 1) <? n)%nat with false in Hdur
        by (symmetry; apply Nat.ltb_ge; lia).
      rewrite Hx in Hdur. cbn [bind] in Hdur. injection Hdur as <-.
      destruct (Hin _ _ Hx) as (Vx & Fx).
      apply nonneg_difference_order; auto.
      apply Hall, list_elem_of_In. eapply list_elem_of_lookup_2, Hd.
  - intros (Hord & Hlast) d Hd.
    apply list_elem_of_In, list_elem_of_lookup_1 in Hd. destruct Hd as (i & Hi).
    destruct (image_durations_lookup n ts audio ds i d Hds Hi) as (Hlt & Hdur).
    apply signless_nonneg.
    unfold image_duration in Hdur. destruct (Nat.ltb_spec (S i) n).
    + apply bind_ok in Hdur. destruct Hdur as (next & Hnext & Hdur).
      apply bind_ok in Hdur. destruct Hdur as (this & Hthis & Hdur).
      injection Hdur as <-.
      apply index_ok_inv in Hnext, Hthis.
      destruct (Hin _ _ Hnext) as (Vn & Fn). destruct (Hin _ _ Hthis) as (Vt & Ft).
      apply sub_nonneg; auto. eapply Hord; eassumption.
    + apply bind_ok in Hdur. destruct Hdur as (this & Hthis & Hdur).
      injection Hdur as <-.
      apply index_ok_inv in Hthis.
      destruct (Hin _ _ Hthis) as (Vt & Ft).
      apply sub_nonneg; auto. apply Hlast; [lia|].
      replace (n - 1)%nat with i by lia. exact Hthis.
Qed.

Lemma display_durations_nonneg_iff_ordered_witness :
  exists ds,
    image_durations 3 [of_Z 0; div (of_Z 5) (of_Z 2); of_Z 4] (of_Z 10) = Ok ds
    /\ ds = [div (of_Z 5) (of_Z 2); div (of_Z 3) (of_Z 2); of_Z 6]
    /\ Forall (fun d => leb zero d = true) ds.
Proof.
  destruct (display_durations_nonneg_iff_ordered 3
              [of_Z 0; div (of_Z 5) (of_Z 2); of_Z 4] (of_Z 10))
    as (ds & Hds & _ & Hiff).
  - simpl. lia.
  - intros t [<-|[<-|[<-|[]]]]; split; vm_compute; reflexivity.
  - vm_compute. reflexivity.
  - reflexivity.
  - exists ds. split; [exact Hds|]. split.
    + vm_compute in Hds. injection Hds as <-. vm_compute. reflexivity.
    + apply List.Forall_forall. apply Hiff. split.
      * intros [|[|i]] x y Hi Hx Hy; simpl in Hx, Hy; try lia;
          injection Hx as <-; injection Hy as <-; vm_compute; reflexivity.
      * intros x _ Hx. simpl in Hx. injection Hx as <-. vm_compute. reflexivity.
Defined.

(** C5 (as stated) fails: the start times "5, 1" are accepted as
    submitted, and the first of the two images then gets the display
    duration -4.0, which the command passes to ffmpeg as [-t -4.0]. *)
Lemma unordered_start_times_negative_duration :
  match tasks (fst (generate_video demo_platform empty_world "j1"
                      {| all_images := [Some (Upload "a.png"); Some (Upload "b.png")];
                         audio := Upload "voice.mp3";
                         background_music := "0";
                         subtitles_string := "hi/0.0/there/0.5";
                         image_start_times := "5, 1";
                         caption_number := "1";
                         color_stt := "&H00FFFFFF";
                         color_encours := "&H0000FFFF";
                         is_zoom_pan := "non";
                         is_chromatic_effect := "non" |})) !! "j1" with
  | Some t => a_start_times (t_args t) = [of_Z 5; of_Z 1]
  | None => False
  end
  /\ image_durations 2 [of_Z 5; of_Z 1] (of_Z 10) = Ok [of_Z (-4); of_Z 9]
  /\ leb zero (of_Z (-4)) = false
  /\ ltb (of_Z (-4)) zero = true
  /\ image_input float_repr (of_Z (-4)) "a.png"
     = ["-loop"; "1"; "-t"; "-4.0"; "-i"; "a.png"].
Proof. split; [|split; [|split; [|split]]]; vm_compute; reflexivity. Qed.

(** ** Exact float operations

    Every finite binary64 value is a whole number of units of
    [2 ^ -1074]; the operations of the timestamp formatter are followed on
    this number. *)


(** [x] is a zero, or a positive finite float in canonical form, and its
    value is [T * 2 ^ -1074]. *)
Definition holds (x : float) (T : Z) : Prop :=
  match x with
  | S754_zero _ => T = 0
  | S754_finite false m e => valid x = true /\ Zpos m * 2 ^ (e + 1074) = T
  | _ => False
  end.

Lemma fexp_value (d : Z) : fexp prec emax d = Z.max (d - 53) (-1074).
Proof. reflexivity. Qed.

Lemma valid_inv (s : bool) (m : positive) (e : Z) :
  valid (S754_finite s m e) = true ->
  fexp prec emax (Zpos (digits2_pos m) + e) = e /\ e <= 971.
Proof.
  unfold valid, valid_binary, bounded, canonical_mantissa. intros H.
  apply andb_true_iff in H. destruct H as (H1 & H2).
  apply Z.eqb_eq in H1. apply Z.leb_le in H2.
  split; [exact H1 | exact H2].
Qed.


Lemma digits2_unique (m : positive) (d : Z) :
  2 ^ (d - 1) <= Zpos m < 2 ^ d -> Zpos (digits2_pos m) = d.
Proof.
  intros (H1 & H2). pose proof (digits2_bounds m) as (B1 & B2).
  set (d' := Zpos (digits2_pos m)) in *.
  assert (Hd' : 0 < d') by (unfold d'; lia).
  assert (Hd : 0 < d).
  { destruct (Z.lt_trichotomy 0 d) as [|[<-|Hn]]; [assumption| |].
    - simpl in H2. lia.
    - rewrite (Z.pow_neg_r 2 d Hn) in H2. lia. }
  destruct (Z.lt_trichotomy d' d) as [L|[E|L]]; [|exact E|].
  - assert (2 ^ d' <= 2 ^ (d - 1)) by (apply Z.pow_le_mono_r; lia). lia.
  - assert (2 ^ d <= 2 ^ (d' - 1)) by (apply Z.pow_le_mono_r; lia). lia.
Qed.

Lemma digits2_shift (m m' : positive) (k : Z) :
  0 <= k -> Zpos m' = Zpos m * 2 ^ k ->
  Zpos (digits2_pos m') = Zpos (digits2_pos m) + k.
Proof.
  intros Hk E. apply digits2_unique. rewrite E.
  pose proof (digits2_bounds m) as (B1 & B2).
  assert (P : 0 < 2 ^ k) by (apply Z.pow_pos_nonneg; lia).
  replace (Zpos (digits2_pos m) + k - 1) with (Zpos (digits2_pos m) - 1 + k) by lia.
  rewrite !Z.pow_add_r by lia. split; nia.
Qed.

(** *** Shifting a mantissa to the right *)

Lemma iter_pos_nat {A : Type} (f : A -> A) (p : positive) (x : A) :
  SpecFloat.iter_pos f p x = Nat.iter (Pos.to_nat p) f x.
Proof.
  revert x. induction p as [p IH|p IH|]; intros x; cbn [SpecFloat.iter_pos].
  - rewrite !IH. rewrite Pos2Nat.inj_xI.
    replace (S (2 * Pos.to_nat p)) with (Pos.to_nat p + (Pos.to_nat p + 1))%nat by lia.
    rewrite !Nat.iter_add. reflexivity.
  - rewrite !IH. rewrite Pos2Nat.inj_xO.
    replace (2 * Pos.to_nat p)%nat with (Pos.to_nat p + Pos.to_nat p)%nat by lia.
    rewrite Nat.iter_add. reflexivity.
  - reflexivity.
Qed.

Lemma shr_1_parts (mrs : shr_record) :
  0 <= shr_m mrs ->
  shr_1 mrs = {| shr_m := shr_m mrs / 2; shr_r := Z.odd (shr_m mrs);
                 shr_s := shr_r mrs || shr_s mrs |}.
Proof.
  destruct mrs as [m r s]. cbn [shr_m shr_r shr_s]. intros Hm.
  destruct m as [|[p|p|]|p]; try lia; unfold shr_1.
  - reflexivity.
  - f_equal. apply (Z.div_unique (Z.pos p~1) 2 (Z.pos p) 1); lia.
  - f_equal. apply (Z.div_unique (Z.pos p~0) 2 (Z.pos p) 0); lia.
  - reflexivity.
Qed.



(** Shifting out zeros only loses nothing. *)
Lemma iter_shr_1_exact (n : nat) (m : Z) :
  0 <= m -> m mod 2 ^ Z.of_nat n = 0 ->
  Nat.iter n shr_1 {| shr_m := m; shr_r := false; shr_s := false |}
  = {| shr_m := m / 2 ^ Z.of_nat n; shr_r := false; shr_s := false |}.
Proof.
  revert m. induction n as [|n IH]; intros m Hm Hdiv.
  - simpl. rewrite Z.div_1_r. reflexivity.
  - rewrite Nat2Z.inj_succ, Z.pow_succ_r in * by lia.
    assert (P : 0 < 2 ^ Z.of_nat n) by (apply Z.pow_pos_nonneg; lia).
    rewrite Nat.iter_succ_r. rewrite shr_1_parts by exact Hm. cbn [shr_m shr_r shr_s].
    assert (E : m = 2 * (2 ^ Z.of_nat n * (m / (2 * 2 ^ Z.of_nat n)))).
    { pose proof (Z.div_mod m (2 * 2 ^ Z.of_nat n)). lia. }
    set (c := m / (2 * 2 ^ Z.of_nat n)) in *.
    assert (Hodd : Z.odd m = false).
    { rewrite E. rewrite Z.odd_mul. reflexivity. }
    assert (Hhalf : m / 2 = 2 ^ Z.of_nat n * c).
    { rewrite E at 1. rewrite Z.mul_comm, Z.div_mul by lia. reflexivity. }
    rewrite Hodd, Hhalf. cbn [orb].
    rewrite IH.
    + f_equal. rewrite Z.mul_comm, Z.div_mul by lia. reflexivity.
    + apply Z.mul_nonneg_nonneg; [lia|]. unfold c. apply Z.div_pos; lia.
    + rewrite Z.mul_comm. apply Z.mod_mul. lia.
Qed.

(** *** Rounding a value that needs none *)

(** A mantissa made of a canonical one followed by zeros rounds to the
    canonical one. *)
Lemma round_aux_exact (M m : positive) (E e : Z) :
  valid (S754_finite false m e) = true ->
  E <= e -> Zpos M = Zpos m * 2 ^ (e - E) ->
  binary_round_aux prec emax false (Zpos M) E loc_Exact = S754_finite false m e.
Proof.
  intros V HE HM. destruct (valid_inv _ _ _ V) as (Hc & Hb).
  assert (Hd : Zpos (digits2_pos M) = Zpos (digits2_pos m) + (e - E))
    by (apply digits2_shift; [lia | exact HM]).
  assert (P : 0 < 2 ^ (e - E)) by (apply Z.pow_pos_nonneg; lia).
  assert (S1 : shr_fexp prec emax (Zpos M) E loc_Exact
               = ({| shr_m := Zpos m; shr_r := false; shr_s := false |}, e)).
  { unfold shr_fexp. cbn [Zdigits2 shr_record_of_loc]. rewrite Hd.
    replace (Z.pos (digits2_pos m) + (e - E) + E) with (Z.pos (digits2_pos m) + e) by lia.
    rewrite Hc. unfold shr.
    destruct (e - E) as [|p|p] eqn:Hn; try lia.
    - rewrite Z.pow_0_r, Z.mul_1_r in HM. injection HM as ->.
      f_equal. lia.
    - rewrite iter_pos_nat, iter_shr_1_exact.
      + rewrite positive_nat_Z. rewrite HM, Z.div_mul by lia.
        f_equal. lia.
      + lia.
      + rewrite positive_nat_Z, HM. apply Z.mod_mul. lia. }
  assert (S2 : shr_fexp prec emax (Zpos m) e loc_Exact
               = ({| shr_m := Zpos m; shr_r := false; shr_s := false |}, e)).
  { unfold shr_fexp. cbn [Zdigits2 shr_record_of_loc]. rewrite Hc, Z.sub_diag.
    reflexivity. }
  unfold binary_round_aux. rewrite S1. cbn [shr_m loc_of_shr_record round_nearest_even].
  rewrite S2. cbn [shr_m].
  replace (e <=? emax - prec) with true by (symmetry; apply Z.leb_le; exact Hb).
  reflexivity.
Qed.

(** The same for [binary_normalize], whose mantissa may also be too
    short. *)
Lemma normalize_exact (M m : positive) (E e : Z) :
  valid (S754_finite false m e) = true ->
  -1074 <= E ->
  Zpos M * 2 ^ (E + 1074) = Zpos m * 2 ^ (e + 1074) ->
  binary_normalize prec emax (Zpos M) E false = S754_finite false m e.
Proof.
  intros V HE HM. destruct (valid_inv _ _ _ V) as (Hc & Hb).
  assert (He : -1074 <= e) by (rewrite fexp_value in Hc; lia).
  (* the two mantissas have the same magnitude *)
  assert (Hmag : Zpos (digits2_pos M) + E = Zpos (digits2_pos m) + e).
  { pose proof (digits2_bounds M) as (A1 & A2).
    pose proof (digits2_bounds m) as (B1 & B2).
    set (dM := Zpos (digits2_pos M)) in *. set (dm := Zpos (digits2_pos m)) in *.
    assert (0 < dM) by (unfold dM; lia). assert (0 < dm) by (unfold dm; lia).
    assert (P1 : 0 < 2 ^ (E + 1074)) by (apply Z.pow_pos_nonneg; lia).
    assert (P2 : 0 < 2 ^ (e + 1074)) by (apply Z.pow_pos_nonneg; lia).
    assert (L1 : 2 ^ (dM - 1 + (E + 1074)) <= Zpos M * 2 ^ (E + 1074)).
    { rewrite Z.pow_add_r by lia. apply Z.mul_le_mono_nonneg_r; lia. }
    assert (U1 : Zpos M * 2 ^ (E + 1074) < 2 ^ (dM + (E + 1074))).
    { rewrite (Z.pow_add_r 2 dM (E + 1074)) by lia. apply Z.mul_lt_mono_pos_r; lia. }
    assert (L2 : 2 ^ (dm - 1 + (e + 1074)) <= Zpos m * 2 ^ (e + 1074)).
    { rewrite Z.pow_add_r by lia. apply Z.mul_le_mono_nonneg_r; lia. }
    assert (U2 : Zpos m * 2 ^ (e + 1074) < 2 ^ (dm + (e + 1074))).
    { rewrite (Z.pow_add_r 2 dm (e + 1074)) by lia. apply Z.mul_lt_mono_pos_r; lia. }
    rewrite HM in L1, U1.
    assert (dM - 1 + (E + 1074) < dm + (e + 1074)).
    { apply (Z.pow_lt_mono_r_iff 2); lia. }
    assert (dm - 1 + (e + 1074) < dM + (E + 1074)).
    { apply (Z.pow_lt_mono_r_iff 2); lia. }
    lia. }
  unfold binary_normalize, binary_round. rewrite Hmag, Hc.
  unfold shl_align.
  destruct (e - E) as [|p|p] eqn:Hn.
  - assert (E = e) by lia. subst E.
    apply round_aux_exact; [exact V | lia|].
    rewrite Z.sub_diag, Z.mul_1_r.
    apply Z.mul_cancel_r in HM; [exact HM|].
    apply Z.pow_nonzero; lia.
  - apply round_aux_exact; [exact V | lia|].
    rewrite Hn.
    assert (2 ^ (e + 1074) = 2 ^ Zpos p * 2 ^ (E + 1074)).
    { rewrite <- Z.pow_add_r by lia. f_equal. lia. }
    assert (P1 : 0 < 2 ^ (E + 1074)) by (apply Z.pow_pos_nonneg; lia).
    nia.
  - apply round_aux_exact; [exact V | lia|].
    rewrite Z.sub_diag, Z.mul_1_r. rewrite pos_iter_xO.
    assert (2 ^ (E + 1074) = 2 ^ Zpos p * 2 ^ (e + 1074)).
    { rewrite <- Z.pow_add_r by lia. f_equal. lia. }
    assert (P2 : 0 < 2 ^ (e + 1074)) by (apply Z.pow_pos_nonneg; lia).
    nia.
Qed.

Lemma pow2_pos (k : Z) : 0 <= k -> 0 < 2 ^ k.
Proof. intros H. apply Z.pow_pos_nonneg; lia. Qed.


Lemma valid_mantissa_bound (s : bool) (m : positive) (e : Z) :
  valid (S754_finite s m e) = true ->
  Zpos m < 2 ^ 53 /\ -1074 <= e <= 971.
Proof.
  intros V. destruct (valid_inv _ _ _ V) as (Hc & Hb).
  rewrite fexp_value in Hc.
  pose proof (digits2_bounds m) as (_ & B).
  split; [|lia].
  eapply Z.lt_le_trans; [exact B|]. apply Z.pow_le_mono_r; lia.
Qed.



Lemma holds_finite (x : float) (T : Z) :
  holds x T -> 0 < T ->
  exists m e, x = S754_finite false m e /\ valid x = true
              /\ Zpos m * 2 ^ (e + 1074) = T.
Proof.
  destruct x as [s|s| |[|] m e]; cbn [holds]; try contradiction.
  - intros -> H. lia.
  - intros (V & E) _. exists m, e. auto.
Qed.


(** A value with a canonical form is normalized to it. *)
Lemma holds_normalize (M : positive) (E : Z) (r : float) :
  -1074 <= E -> holds r (Zpos M * 2 ^ (E + 1074)) ->
  binary_normalize prec emax (Zpos M) E false = r.
Proof.
  intros HE H.
  destruct (holds_finite r _ H) as (m & e & -> & V & Hv).
  { pose proof (pow2_pos (E + 1074)). nia. }
  apply normalize_exact; [exact V | exact HE | symmetry; exact Hv].
Qed.

Lemma holds_unique (x y : float) (T : Z) :
  holds x T -> holds y T -> 0 < T -> x = y.
Proof.
  intros Hx Hy HT.
  destruct (holds_finite x T Hx HT) as (m & e & -> & V & Hv).
  destruct (valid_mantissa_bound _ _ _ V) as (_ & He).
  rewrite <- Hv in Hy.
  rewrite <- (holds_normalize m e y) by (try exact Hy; lia).
  symmetry. apply normalize_exact; [exact V | lia | reflexivity].
Qed.



(** *** The operations of [//] and [%] *)












Section WholeDivisor.

(** The divisors of the formatter: 3600, 60 and 1. *)
Variable c : Z.
Hypothesis c_range : 0 < c < 2 ^ 53.






End WholeDivisor.

(** *** The hundredths: a product that is rounded *)








(** *** The timestamp of a time below [2 ^ 53] seconds *)








